(** * simple-slideshow: a shallow embedding of the [SimpleSlideshow] widget

    The widget is a custom element that shows a rail of slides one at a
    time.  This development embeds the state machine of the class
    (navigation, the commit step [slideTransition], dragging, autoplay and
    the debounced resize listener) together with the three browser services
    it relies on: layout measurement, abortable event listeners and timers.

    Conventions of the embedding.
    - Pixel coordinates and timer handles are JavaScript numbers that hold
      integers on the pages modelled here: layout and pointer positions are
      in whole pixels, so that [toFixed(0)] has nothing to round.  They are
      integers ([Z]).
    - The active index and the arguments of [changeSlide] and
      [startAutoplay] are full [Number]s: the code stores, compares or
      validates whatever number it is given, [NaN] and fractions included.
      An integer [z] stands for the number [z # 1] wherever a [Number] is
      expected.
    - The delay of a timer is taken as the browser takes it, as a signed
      32-bit integer.  The minimum the browser imposes on deeply nested
      timers is left out, so that the period of a repeating timer is only
      spoken of for delays of 4 ms and more.
    - An exception does not roll the object back: a computation returns its
      completion together with the state reached when it stopped.
    - [getBoundingClientRect] is a function of the rendered tree at the
      instant of the call, so that a measurement taken before a style write
      is visibly different from one taken after it. *)

From Stdlib Require Import ZArith List String Bool Lia DecimalString QArith.
From Stdlib Require DecimalPos DecimalZ.
Import ListNotations.

Local Open Scope string_scope.
Local Open Scope list_scope.
Local Open Scope Z_scope.

(** ** Enumerations of the source *)

Inductive AnimationName := fade | slide.

Definition AnimationName_value (a : AnimationName) : string :=
  match a with fade => "fade" | slide => "slide" end.

Definition AnimationName_eqb (a b : AnimationName) : bool :=
  match a, b with
  | fade, fade | slide, slide => true
  | _, _ => false
  end.

(** [this.animation] is [AnimationName|undefined]. *)
Definition animation_is (field : option AnimationName) (a : AnimationName) : bool :=
  match field with
  | Some b => AnimationName_eqb b a
  | None => false
  end.

(** ** JavaScript values used by the class *)

(** A value of type [T | null | undefined]. *)
Inductive Ref (A : Type) := undefined | null | object (a : A).
Arguments undefined {A}.
Arguments null {A}.
Arguments object {A} a.

(** [array[index]] for an integer [index]: an element for an index inside
    the array, [undefined] for every other index (never [null]). *)
Definition array_get {A : Type} (array : list A) (index : Z) : Ref A :=
  if index <? 0 then undefined
  else match nth_error array (Z.to_nat index) with
       | Some a => object a
       | None => undefined
       end.

(** A JavaScript number, as [startAutoplay] and [changeSlide] can receive
    it and as [activeIndex] can hold it.  A finite number is read up to the
    value of its fraction; the integer [z] is written [z # 1]. *)
Inductive Number := Finite (q : Q) | NaN | Infinity (negative : bool).

Definition Number_of_Z (z : Z) : Number := Finite (inject_Z z).
Coercion Number_of_Z : Z >-> Number.

Definition MAX_SAFE_INTEGER : Z := 2 ^ 53 - 1.

Definition Q_is_integer (q : Q) : bool := Z.rem (Qnum q) (Zpos (Qden q)) =? 0.

Definition Q_to_Z (q : Q) : Z := Z.quot (Qnum q) (Zpos (Qden q)).

Definition Number_isSafeInteger (n : Number) : bool :=
  match n with
  | Finite q => Q_is_integer q && (Z.abs (Q_to_Z q) <=? MAX_SAFE_INTEGER)
  | NaN | Infinity _ => false
  end.

(** The integer a number is, when it is one. *)
Definition Number_integer (n : Number) : option Z :=
  match n with
  | Finite (Qmake z xH) => Some z
  | Finite q => if Q_is_integer q then Some (Q_to_Z q) else None
  | NaN | Infinity _ => None
  end.

(** The integer part of a number: the integer a validated delay or an
    index that names an element denotes. *)
Definition Number_to_Z (n : Number) : Z :=
  match n with
  | Finite (Qmake z xH) => z
  | Finite q => Q_to_Z q
  | NaN | Infinity _ => 0
  end.

(** [array[index]] for any number: property names that are not integers
    are not elements of the array. *)
Definition array_at {A : Type} (array : list A) (index : Number) : Ref A :=
  match Number_integer index with
  | Some z => array_get array z
  | None => undefined
  end.

(** [a < b] and [a <= b]: every comparison with [NaN] is false. *)
Definition Number_lt (a b : Number) : bool :=
  match a, b with
  | Finite (Qmake x xH), Finite (Qmake y xH) => x <? y
  | Finite p, Finite q => negb (Qle_bool q p)
  | Finite _, Infinity negative => negb negative
  | Infinity negative, Finite _ => negative
  | Infinity x, Infinity y => x && negb y
  | _, _ => false
  end.

Definition Number_le (a b : Number) : bool :=
  match a, b with
  | Finite (Qmake x xH), Finite (Qmake y xH) => x <=? y
  | Finite p, Finite q => Qle_bool p q
  | Finite _, Infinity negative => negb negative
  | Infinity negative, Finite _ => negative
  | Infinity x, Infinity y => x || negb y
  | _, _ => false
  end.

(** [a === b]: [NaN] equals nothing, itself included. *)
Definition Number_eq (a b : Number) : bool :=
  match a, b with
  | Finite (Qmake x xH), Finite (Qmake y xH) => x =? y
  | Finite p, Finite q => Qeq_bool p q
  | Infinity x, Infinity y => Bool.eqb x y
  | _, _ => false
  end.

(** [a + b] *)
Definition Number_add (a b : Number) : Number :=
  match a, b with
  | Finite (Qmake x xH), Finite (Qmake y xH) => Finite (Qmake (x + y) xH)
  | Finite p, Finite q => Finite (p + q)
  | Infinity x, Infinity y => if Bool.eqb x y then Infinity x else NaN
  | Infinity x, Finite _ | Finite _, Infinity x => Infinity x
  | _, _ => NaN
  end.

(** [n < 1] in JavaScript: every comparison with [NaN] is false. *)
Definition Number_lt_1 (n : Number) : bool :=
  match n with
  | Finite q => Z.ltb (Qnum q) (Zpos (Qden q))
  | NaN => false
  | Infinity negative => negative
  end.

Inductive Exception :=
| Error (message : string)
| TypeError (message : string).

(** The error classes of the specification, as the messages the code throws. *)
Definition RangeError : Exception := Error "Out of bound index".
Definition IndexError : Exception := Error "No slide matching index".
Definition ValidationError : Exception :=
  Error "Autoplay delay must be a safe positive integer".
Definition ConfigurationError : Exception :=
  Error "Requires a slide animation to enable dragging".

(** ** The rendered tree *)

(** A slide or a bullet: its [active] class and its inline width. *)
Record HTMLElement := {
  class_active : bool;
  style_width : string
}.

Record RailElement := {
  style_left : string;
  rail_style_width : string;
  style_transition : string
}.

Record Dom := {
  classList : list string;
  rail : RailElement;
  slides : list HTMLElement;
  bullets : list HTMLElement
}.

Inductive Element := Viewport | Rail | Slide (position : nat).

Record DOMRect := { rect_left : Z; rect_width : Z }.

(** ** Listeners, abort controllers and timers *)

Definition AbortController := nat.

Inductive EventType :=
| touchstart | mousedown
| touchmove | touchend | mousemove | mouseup | mouseleave.

Definition EventType_eqb (a b : EventType) : bool :=
  match a, b with
  | touchstart, touchstart | mousedown, mousedown | touchmove, touchmove
  | touchend, touchend | mousemove, mousemove | mouseup, mouseup
  | mouseleave, mouseleave => true
  | _, _ => false
  end.

Inductive Target := OnWindow | OnRail.

(** A registration made with [addEventListener(type, handler, {signal})];
    the handler is the closure written at that registration, so the type
    identifies it. *)
Record Listener := {
  listener_target : Target;
  listener_type : EventType;
  listener_signal : AbortController
}.

Inductive Callback := AutoplayTick | ResizeTimeout.

Definition Callback_eqb (a b : Callback) : bool :=
  match a, b with
  | AutoplayTick, AutoplayTick | ResizeTimeout, ResizeTimeout => true
  | _, _ => false
  end.

(** A pending timer: [timer_every] is the delay a [setInterval] timer is
    re-armed with and is absent for a [setTimeout] one. *)
Record Timer := {
  timer_id : Z;
  timer_due : Z;
  timer_every : option Z;
  timer_callback : Callback
}.

(** ** The object and its environment *)

(** The private fields of [class SimpleSlideshow]; the elements the fields
    [rail], [slides] and [bullets] point to live in [dom]. *)
Record SimpleSlideshow := {
  dom : Dom;
  animation : option AnimationName;
  fullWidthSlide : bool;
  showArrows : bool;
  showBullets : bool;
  skipNextAutoplay : bool;
  activeIndex : Number;
  dragStartingPoint : Z;
  currentOffset : Z;
  autoplayId : Z;
  resizeId : Z;
  touchId : Z;
  beingDraggedRemote : option AbortController;
  draggableRemote : option AbortController
}.

(** What the class reaches through [window], [setTimeout], [setInterval],
    [addEventListener] and [getBoundingClientRect].  [fired] is the history
    of the timer callbacks the event loop has run, most recent first. *)
Record Browser := {
  layout : Dom -> Element -> DOMRect;
  listeners : list Listener;
  controllers : nat;
  timers : list Timer;
  timer_ids : Z;
  now : Z;
  fired : list Callback
}.

Record World := { this : SimpleSlideshow; window : Browser }.

(** *** Field updates *)

Definition set_classList (v : list string) (d : Dom) : Dom :=
  Build_Dom v (rail d) (slides d) (bullets d).
Definition set_rail (v : RailElement) (d : Dom) : Dom :=
  Build_Dom (classList d) v (slides d) (bullets d).
Definition set_slides (v : list HTMLElement) (d : Dom) : Dom :=
  Build_Dom (classList d) (rail d) v (bullets d).
Definition set_bullets (v : list HTMLElement) (d : Dom) : Dom :=
  Build_Dom (classList d) (rail d) (slides d) v.

Definition set_style_left (v : string) (r : RailElement) : RailElement :=
  Build_RailElement v (rail_style_width r) (style_transition r).
Definition set_rail_style_width (v : string) (r : RailElement) : RailElement :=
  Build_RailElement (style_left r) v (style_transition r).
Definition set_style_transition (v : string) (r : RailElement) : RailElement :=
  Build_RailElement (style_left r) (rail_style_width r) v.

Definition set_class_active (v : bool) (e : HTMLElement) : HTMLElement :=
  Build_HTMLElement v (style_width e).
Definition set_style_width (v : string) (e : HTMLElement) : HTMLElement :=
  Build_HTMLElement (class_active e) v.

Definition set_dom (v : Dom) (o : SimpleSlideshow) : SimpleSlideshow :=
  Build_SimpleSlideshow v (animation o) (fullWidthSlide o) (showArrows o)
    (showBullets o) (skipNextAutoplay o) (activeIndex o) (dragStartingPoint o)
    (currentOffset o) (autoplayId o) (resizeId o) (touchId o)
    (beingDraggedRemote o) (draggableRemote o).
Definition set_animation (v : option AnimationName) (o : SimpleSlideshow) :=
  Build_SimpleSlideshow (dom o) v (fullWidthSlide o) (showArrows o)
    (showBullets o) (skipNextAutoplay o) (activeIndex o) (dragStartingPoint o)
    (currentOffset o) (autoplayId o) (resizeId o) (touchId o)
    (beingDraggedRemote o) (draggableRemote o).
Definition set_fullWidthSlide (v : bool) (o : SimpleSlideshow) :=
  Build_SimpleSlideshow (dom o) (animation o) v (showArrows o)
    (showBullets o) (skipNextAutoplay o) (activeIndex o) (dragStartingPoint o)
    (currentOffset o) (autoplayId o) (resizeId o) (touchId o)
    (beingDraggedRemote o) (draggableRemote o).
Definition set_showBullets (v : bool) (o : SimpleSlideshow) :=
  Build_SimpleSlideshow (dom o) (animation o) (fullWidthSlide o) (showArrows o)
    v (skipNextAutoplay o) (activeIndex o) (dragStartingPoint o)
    (currentOffset o) (autoplayId o) (resizeId o) (touchId o)
    (beingDraggedRemote o) (draggableRemote o).
Definition set_skipNextAutoplay (v : bool) (o : SimpleSlideshow) :=
  Build_SimpleSlideshow (dom o) (animation o) (fullWidthSlide o) (showArrows o)
    (showBullets o) v (activeIndex o) (dragStartingPoint o)
    (currentOffset o) (autoplayId o) (resizeId o) (touchId o)
    (beingDraggedRemote o) (draggableRemote o).
Definition set_activeIndex (v : Number) (o : SimpleSlideshow) :=
  Build_SimpleSlideshow (dom o) (animation o) (fullWidthSlide o) (showArrows o)
    (showBullets o) (skipNextAutoplay o) v (dragStartingPoint o)
    (currentOffset o) (autoplayId o) (resizeId o) (touchId o)
    (beingDraggedRemote o) (draggableRemote o).
Definition set_dragStartingPoint (v : Z) (o : SimpleSlideshow) :=
  Build_SimpleSlideshow (dom o) (animation o) (fullWidthSlide o) (showArrows o)
    (showBullets o) (skipNextAutoplay o) (activeIndex o) v
    (currentOffset o) (autoplayId o) (resizeId o) (touchId o)
    (beingDraggedRemote o) (draggableRemote o).
Definition set_currentOffset (v : Z) (o : SimpleSlideshow) :=
  Build_SimpleSlideshow (dom o) (animation o) (fullWidthSlide o) (showArrows o)
    (showBullets o) (skipNextAutoplay o) (activeIndex o) (dragStartingPoint o)
    v (autoplayId o) (resizeId o) (touchId o)
    (beingDraggedRemote o) (draggableRemote o).
Definition set_autoplayId (v : Z) (o : SimpleSlideshow) :=
  Build_SimpleSlideshow (dom o) (animation o) (fullWidthSlide o) (showArrows o)
    (showBullets o) (skipNextAutoplay o) (activeIndex o) (dragStartingPoint o)
    (currentOffset o) v (resizeId o) (touchId o)
    (beingDraggedRemote o) (draggableRemote o).
Definition set_resizeId (v : Z) (o : SimpleSlideshow) :=
  Build_SimpleSlideshow (dom o) (animation o) (fullWidthSlide o) (showArrows o)
    (showBullets o) (skipNextAutoplay o) (activeIndex o) (dragStartingPoint o)
    (currentOffset o) (autoplayId o) v (touchId o)
    (beingDraggedRemote o) (draggableRemote o).
Definition set_touchId (v : Z) (o : SimpleSlideshow) :=
  Build_SimpleSlideshow (dom o) (animation o) (fullWidthSlide o) (showArrows o)
    (showBullets o) (skipNextAutoplay o) (activeIndex o) (dragStartingPoint o)
    (currentOffset o) (autoplayId o) (resizeId o) v
    (beingDraggedRemote o) (draggableRemote o).
Definition set_beingDraggedRemote (v : option AbortController) (o : SimpleSlideshow) :=
  Build_SimpleSlideshow (dom o) (animation o) (fullWidthSlide o) (showArrows o)
    (showBullets o) (skipNextAutoplay o) (activeIndex o) (dragStartingPoint o)
    (currentOffset o) (autoplayId o) (resizeId o) (touchId o)
    v (draggableRemote o).
Definition set_draggableRemote (v : option AbortController) (o : SimpleSlideshow) :=
  Build_SimpleSlideshow (dom o) (animation o) (fullWidthSlide o) (showArrows o)
    (showBullets o) (skipNextAutoplay o) (activeIndex o) (dragStartingPoint o)
    (currentOffset o) (autoplayId o) (resizeId o) (touchId o)
    (beingDraggedRemote o) v.

Definition set_listeners (v : list Listener) (b : Browser) : Browser :=
  Build_Browser (layout b) v (controllers b) (timers b) (timer_ids b) (now b) (fired b).
Definition set_controllers (v : nat) (b : Browser) : Browser :=
  Build_Browser (layout b) (listeners b) v (timers b) (timer_ids b) (now b) (fired b).
Definition set_timers (v : list Timer) (b : Browser) : Browser :=
  Build_Browser (layout b) (listeners b) (controllers b) v (timer_ids b) (now b) (fired b).
Definition set_timer_ids (v : Z) (b : Browser) : Browser :=
  Build_Browser (layout b) (listeners b) (controllers b) (timers b) v (now b) (fired b).
Definition set_now (v : Z) (b : Browser) : Browser :=
  Build_Browser (layout b) (listeners b) (controllers b) (timers b) (timer_ids b) v (fired b).
Definition set_fired (v : list Callback) (b : Browser) : Browser :=
  Build_Browser (layout b) (listeners b) (controllers b) (timers b) (timer_ids b) (now b) v.
Definition set_layout (v : Dom -> Element -> DOMRect) (b : Browser) : Browser :=
  Build_Browser v (listeners b) (controllers b) (timers b) (timer_ids b) (now b) (fired b).

(** ** Computations: state and exceptions *)

Inductive Completion (A : Type) := Normal (value : A) | Throw (e : Exception).
Arguments Normal {A} value.
Arguments Throw {A} e.

(** A method body: it runs on a world and stops with a completion in the
    world it has reached; what was assigned before a [throw] stays assigned. *)
Definition M (A : Type) : Type := World -> Completion A * World.

Definition ret {A : Type} (a : A) : M A := fun w => (Normal a, w).

Definition throw {A : Type} (e : Exception) : M A := fun w => (Throw e, w).

Definition bind {A B : Type} (c : M A) (k : A -> M B) : M B :=
  fun w =>
    match c w with
    | (Normal a, w') => k a w'
    | (Throw e, w') => (Throw e, w')
    end.

Notation "x <- c ;; k" := (bind c (fun x => k))
  (at level 61, c at next level, right associativity).
Notation "c ;; k" := (bind c (fun _ => k))
  (at level 61, right associativity).

Definition read {A : Type} (field : SimpleSlideshow -> A) : M A :=
  fun w => (Normal (field (this w)), w).

Definition write {A : Type} (set : A -> SimpleSlideshow -> SimpleSlideshow) (v : A) : M unit :=
  fun w => (Normal tt, Build_World (set v (this w)) (window w)).

Definition read_dom {A : Type} (field : Dom -> A) : M A :=
  fun w => (Normal (field (dom (this w))), w).

Definition write_dom {A : Type} (set : A -> Dom -> Dom) (v : A) : M unit :=
  fun w => (Normal tt, Build_World (set_dom (set v (dom (this w))) (this w)) (window w)).

Definition read_window {A : Type} (field : Browser -> A) : M A :=
  fun w => (Normal (field (window w)), w).

Definition write_window {A : Type} (set : A -> Browser -> Browser) (v : A) : M unit :=
  fun w => (Normal tt, Build_World (this w) (set v (window w))).

Definition when (b : bool) (c : M unit) : M unit := if b then c else ret tt.

(** The world a computation ends in, and its completion. *)
Definition exec {A : Type} (c : M A) (w : World) : World := snd (c w).
Definition completion {A : Type} (c : M A) (w : World) : Completion A := fst (c w).

(** ** Browser services *)

Definition getBoundingClientRect (e : Element) : M DOMRect :=
  fun w => (Normal (layout (window w) (dom (this w)) e), w).

Definition new_AbortController : M AbortController :=
  n <- read_window controllers ;;
  write_window set_controllers (S n) ;;
  ret (S n).

Definition addEventListener (target : Target) (type : EventType)
    (signal : AbortController) : M unit :=
  ls <- read_window listeners ;;
  write_window set_listeners (ls ++ [Build_Listener target type signal]).

(** [controller.abort()]: every listener registered with its signal goes. *)
Definition abort (controller : AbortController) : M unit :=
  ls <- read_window listeners ;;
  write_window set_listeners
    (filter (fun l => negb (Nat.eqb (listener_signal l) controller)) ls).

Definition add_timer (callback : Callback) (delay : Z) (every : option Z) : M Z :=
  n <- read_window timer_ids ;;
  t <- read_window now ;;
  ts <- read_window timers ;;
  write_window set_timer_ids (n + 1) ;;
  write_window set_timers (ts ++ [Build_Timer (n + 1) (t + delay) every callback]) ;;
  ret (n + 1).

(** The [timeout] argument of [setTimeout] and [setInterval] is a Web IDL
    [long]: the number given is converted to a signed 32-bit integer,
    wrapping around modulo [2 ^ 32], and a negative result counts as 0. *)
Definition ToInt32 (z : Z) : Z := (z + 2 ^ 31) mod 2 ^ 32 - 2 ^ 31.

Definition timer_delay (delay : Z) : Z := Z.max 0 (ToInt32 delay).

Arguments timer_delay : simpl never.

Definition setTimeout (callback : Callback) (delay : Z) : M Z :=
  add_timer callback (timer_delay delay) None.

Definition setInterval (callback : Callback) (delay : Z) : M Z :=
  add_timer callback (timer_delay delay) (Some (timer_delay delay)).

(** [clearTimeout] and [clearInterval] work on the same table of handles. *)
Definition clearTimeout (id : Z) : M unit :=
  ts <- read_window timers ;;
  write_window set_timers (filter (fun t => negb (timer_id t =? id)) ts).

Definition clearInterval (id : Z) : M unit := clearTimeout id.

(** ** Geometry and the commit step *)

(** [`${width.toFixed(0)}px`] *)
Definition toPixel (width : Z) : string :=
  (NilZero.string_of_int (Z.to_int width) ++ "px")%string.

Definition computeViewportWidth : M Z :=
  r <- getBoundingClientRect Viewport ;; ret (rect_width r).

Definition computeViewportLeft : M Z :=
  r <- getBoundingClientRect Viewport ;; ret (rect_left r).

Definition computeRailLeft : M Z :=
  r <- getBoundingClientRect Rail ;; ret (rect_left r).

Definition computeSlideLeft (index : Number) : M Z :=
  all <- read_dom slides ;;
  match array_at all index with
  | null => throw (Error "No slide matching index")
  | undefined =>
      throw (TypeError "Cannot read properties of undefined (reading 'getBoundingClientRect')")
  | object _ =>
      r <- getBoundingClientRect (Slide (Z.to_nat (Number_to_Z index))) ;; ret (rect_left r)
  end.

(** [array.forEach((element, index) => ...)] rewriting each element. *)
Fixpoint forEach {A : Type} (f : A -> nat -> A) (index : nat) (array : list A) : list A :=
  match array with
  | [] => []
  | a :: rest => f a index :: forEach f (S index) rest
  end.

(** [classList.toggle("active", this.activeIndex === index)] *)
Definition toggle_active (active : Number) (e : HTMLElement) (index : nat) : HTMLElement :=
  set_class_active (Number_eq active (Z.of_nat index)) e.

Definition updateActive : M unit :=
  i <- read activeIndex ;;
  s <- read_dom slides ;;
  write_dom set_slides (forEach (toggle_active i) 0 s) ;;
  b <- read_dom bullets ;;
  write_dom set_bullets (forEach (toggle_active i) 0 b).

Definition slideTransition : M unit :=
  write set_skipNextAutoplay true ;;
  updateActive ;;
  a <- read animation ;;
  when (animation_is a slide)
    (i <- read activeIndex ;;
     SLIDE_OFFSET <- computeSlideLeft i ;;
     RAIL_OFFSET <- computeRailLeft ;;
     write set_currentOffset (RAIL_OFFSET - SLIDE_OFFSET) ;;
     offset <- read currentOffset ;;
     r <- read_dom rail ;;
     write_dom set_rail (set_style_left (toPixel offset) r)).

Definition updateRailWidth : M unit :=
  width <- computeViewportWidth ;;
  a <- read animation ;;
  n <- read_dom slides ;;
  let width := if animation_is a slide then width * (Z.of_nat (List.length n) + 4000) else width in
  r <- read_dom rail ;;
  write_dom set_rail (set_rail_style_width (toPixel width) r).

(** ** Navigation *)

Definition slides_length : M Z :=
  s <- read_dom slides ;; ret (Z.of_nat (List.length s)).

Definition nextSlide : M unit :=
  i <- read activeIndex ;;
  write set_activeIndex (Number_add i 1) ;;
  i <- read activeIndex ;;
  n <- slides_length ;;
  when (Number_le n i) (write set_activeIndex 0) ;;
  slideTransition.

Definition previousSlide : M unit :=
  i <- read activeIndex ;;
  (if Number_lt 0 i
   then write set_activeIndex (Number_add i (-1))
   else n <- slides_length ;; write set_activeIndex (n - 1)) ;;
  slideTransition.

(** [index] is whatever number the caller passes: the guard is the only
    validation, and it lets through what compares false both ways. *)
Definition changeSlide (index : Number) : M unit :=
  n <- slides_length ;;
  if Number_lt index 0 || Number_le n index
  then throw (Error "Out of bound index")
  else write set_activeIndex index ;; slideTransition.

(** ** Dragging *)

Record Touch := { identifier : Z; clientX : Z }.

(** [Touch|undefined] is an [option Touch]. *)
Definition findTouch (touches : list Touch) : M (option Touch) :=
  id <- read touchId ;;
  if id =? 0
  then ret None
  else ret (find (fun touch => identifier touch =? id) touches).

Definition dragUpdate (mouse_position : Z) : M unit :=
  remote <- read beingDraggedRemote ;;
  match remote with
  | None => ret tt
  | Some _ =>
      write set_skipNextAutoplay true ;;
      start <- read dragStartingPoint ;;
      let OFFSET_DELTA := mouse_position - start in
      offset <- read currentOffset ;;
      r <- read_dom rail ;;
      write_dom set_rail (set_style_left (toPixel (offset + OFFSET_DELTA)) r)
  end.

(** The [for] loop of [dragEnd]: [index] runs from 0 while it is below
    [LAST_INDEX], which is [iterations] turns of the body. *)
Fixpoint dragEnd_scan (iterations : nat) (index THRESHOLD new_index : Z) : M Z :=
  match iterations with
  | O => ret new_index
  | S remaining =>
      new_index <-
        (if index <? new_index
         then LEFT <- computeSlideLeft index ;;
              ret (if THRESHOLD <=? LEFT then index else new_index)
         else ret new_index) ;;
      dragEnd_scan remaining (index + 1) THRESHOLD new_index
  end.

Definition dragEnd : M unit :=
  remote <- read beingDraggedRemote ;;
  match remote with
  | None => ret tt
  | Some controller =>
      r <- read_dom rail ;;
      write_dom set_rail (set_style_transition "" r) ;;
      abort controller ;;
      write set_beingDraggedRemote None ;;
      write set_touchId 0 ;;
      THRESHOLD <- computeViewportLeft ;;
      n <- slides_length ;;
      let LAST_INDEX := n - 1 in
      new_index <- dragEnd_scan (Z.to_nat LAST_INDEX) 0 THRESHOLD LAST_INDEX ;;
      write set_activeIndex new_index ;;
      slideTransition
  end.

Definition dragStart (mouse_position : Z) : M unit :=
  remote <- read beingDraggedRemote ;;
  match remote with
  | Some _ => ret tt
  | None =>
      r <- read_dom rail ;;
      write_dom set_rail (set_style_transition "all 0s linear 0s" r) ;;
      write set_dragStartingPoint mouse_position ;;
      controller <- new_AbortController ;;
      write set_beingDraggedRemote (Some controller) ;;
      addEventListener OnWindow touchmove controller ;;
      addEventListener OnWindow touchend controller ;;
      addEventListener OnRail mousemove controller ;;
      addEventListener OnRail mouseup controller ;;
      addEventListener OnRail mouseleave controller
  end.

Definition enableDragging : M unit :=
  a <- read animation ;;
  if negb (animation_is a slide)
  then throw (Error "Requires a slide animation to enable dragging")
  else
    remote <- read draggableRemote ;;
    match remote with
    | Some _ => ret tt
    | None =>
        controller <- new_AbortController ;;
        write set_draggableRemote (Some controller) ;;
        addEventListener OnRail touchstart controller ;;
        addEventListener OnRail mousedown controller
    end.

Definition disableDragging : M unit :=
  remote <- read draggableRemote ;;
  match remote with
  | None => ret tt
  | Some controller =>
      dragEnd ;;
      abort controller ;;
      write set_draggableRemote None
  end.

(** *** The listeners registered by [enableDragging] and [dragStart] *)

Definition on_touchstart (changedTouches : list Touch) : M unit :=
  id <- read touchId ;;
  if negb (id =? 0)
  then ret tt
  else match changedTouches with
       | TOUCH :: _ =>
           write set_touchId (identifier TOUCH) ;;
           dragStart (clientX TOUCH)
       | [] => throw (Error "Empty TouchList")
       end.

Definition on_mousedown (x : Z) : M unit := dragStart x.

Definition on_touchmove (changedTouches : list Touch) : M unit :=
  TOUCH <- findTouch changedTouches ;;
  match TOUCH with
  | Some touch => dragUpdate (clientX touch)
  | None => ret tt
  end.

Definition on_touchend (changedTouches : list Touch) : M unit :=
  TOUCH <- findTouch changedTouches ;;
  match TOUCH with
  | Some _ => dragEnd
  | None => ret tt
  end.

Definition on_mousemove (x : Z) : M unit := dragUpdate x.
Definition on_mouseup : M unit := dragEnd.
Definition on_mouseleave : M unit := dragEnd.

(** ** Animation mode, slide width and bullets *)

Definition classList_remove (token : string) (l : list string) : list string :=
  filter (fun t => negb (String.eqb t token)) l.

Definition classList_add (token : string) (l : list string) : list string :=
  if existsb (String.eqb token) l then l else l ++ [token].

Definition changeAnimation (a : AnimationName) : M unit :=
  current <- read animation ;;
  if animation_is current a
  then ret tt
  else
    (match current with
     | Some old =>
         c <- read_dom classList ;;
         write_dom set_classList (classList_remove (AnimationName_value old) c)
     | None => ret tt
     end) ;;
    write set_animation (Some a) ;;
    c <- read_dom classList ;;
    write_dom set_classList (classList_add (AnimationName_value a) c) ;;
    match a with
    | slide => enableDragging
    | fade =>
        r <- read_dom rail ;;
        write_dom set_rail (set_style_left "" r) ;;
        disableDragging
    end.

Definition setFullWidthSlide (flag : bool) : M unit :=
  current <- read fullWidthSlide ;;
  if Bool.eqb current flag
  then ret tt
  else
    write set_fullWidthSlide flag ;;
    if flag
    then
      w <- computeViewportWidth ;;
      let WIDTH := toPixel w in
      s <- read_dom slides ;;
      write_dom set_slides (map (set_style_width WIDTH) s)
    else
      s <- read_dom slides ;;
      write_dom set_slides (map (set_style_width "") s).

Definition removeBullets : M unit :=
  shown <- read showBullets ;;
  if negb shown
  then ret tt
  else write set_showBullets false ;; write_dom set_bullets [].

(** The builder only fills the bullet with content; the click listener of
    bullet [index] calls [changeSlide index]. *)
Definition addBullets : M unit :=
  shown <- read showBullets ;;
  when shown removeBullets ;;
  write set_showBullets true ;;
  s <- read_dom slides ;;
  i <- read activeIndex ;;
  b <- read_dom bullets ;;
  write_dom set_bullets
    (b ++ map (fun index => Build_HTMLElement (Number_eq (Z.of_nat index) i) "")
              (seq 0 (List.length s))).

(** ** Autoplay and refresh *)

Definition stopAutoplay : M unit :=
  id <- read autoplayId ;;
  when (negb (id =? 0)) (clearInterval id ;; write set_autoplayId 0).

Definition startAutoplay (delay : Number) : M unit :=
  if negb (Number_isSafeInteger delay) || Number_lt_1 delay
  then throw (Error "Autoplay delay must be a safe positive integer")
  else
    stopAutoplay ;;
    write set_skipNextAutoplay false ;;
    id <- setInterval AutoplayTick (Number_to_Z delay) ;;
    write set_autoplayId id.

(** The callback given to [setInterval] by [startAutoplay]. *)
Definition autoplay_tick : M unit :=
  skip <- read skipNextAutoplay ;;
  when (negb skip) nextSlide ;;
  write set_skipNextAutoplay false.

Definition refresh : M unit :=
  id <- read resizeId ;;
  when (0 <? id) (clearTimeout id ;; write set_resizeId 0) ;;
  w <- computeViewportWidth ;;
  let WIDTH := toPixel w in
  full <- read fullWidthSlide ;;
  when full
    (s <- read_dom slides ;;
     write_dom set_slides (map (set_style_width WIDTH) s)) ;;
  updateRailWidth ;;
  a <- read animation ;;
  when (animation_is a slide) slideTransition.

(** The [resize] listener that [initialize] registers on [window]; it has
    no abort signal and stays registered for the life of the widget. *)
Definition on_resize : M unit :=
  id <- read resizeId ;;
  when (0 <? id) (clearTimeout id) ;;
  id <- setTimeout ResizeTimeout 500 ;;
  write set_resizeId id.

Definition run_callback (c : Callback) : M unit :=
  match c with
  | AutoplayTick => autoplay_tick
  | ResizeTimeout => refresh
  end.

(** ** The event loop *)

(** The events the listeners of the class receive.  Touch moves and ends
    are listened for on [window], everything else on the rail. *)
Inductive Event :=
| TouchStart (changedTouches : list Touch)
| TouchMove (changedTouches : list Touch)
| TouchEnd (changedTouches : list Touch)
| MouseDown (x : Z)
| MouseMove (x : Z)
| MouseUp (x : Z)
| MouseLeave (x : Z).

Definition event_type (e : Event) : EventType :=
  match e with
  | TouchStart _ => touchstart
  | TouchMove _ => touchmove
  | TouchEnd _ => touchend
  | MouseDown _ => mousedown
  | MouseMove _ => mousemove
  | MouseUp _ => mouseup
  | MouseLeave _ => mouseleave
  end.

Definition event_target (e : Event) : Target :=
  match e with
  | TouchMove _ | TouchEnd _ => OnWindow
  | _ => OnRail
  end.

(** The closure registered for the type of [e], applied to [e]. *)
Definition handler (e : Event) : M unit :=
  match e with
  | TouchStart touches => on_touchstart touches
  | TouchMove touches => on_touchmove touches
  | TouchEnd touches => on_touchend touches
  | MouseDown x => on_mousedown x
  | MouseMove x => on_mousemove x
  | MouseUp _ => on_mouseup
  | MouseLeave _ => on_mouseleave
  end.

Definition Target_eqb (a b : Target) : bool :=
  match a, b with
  | OnWindow, OnWindow | OnRail, OnRail => true
  | _, _ => false
  end.

Definition Listener_eqb (a b : Listener) : bool :=
  Target_eqb (listener_target a) (listener_target b)
  && EventType_eqb (listener_type a) (listener_type b)
  && Nat.eqb (listener_signal a) (listener_signal b).

Definition listens (e : Event) (l : Listener) : bool :=
  Target_eqb (listener_target l) (event_target e)
  && EventType_eqb (listener_type l) (event_type e).

Definition registered (l : Listener) (w : World) : bool :=
  existsb (Listener_eqb l) (listeners (window w)).

(** Listeners are called in registration order; one that was removed by an
    earlier listener of the same dispatch is skipped.  An exception thrown
    by a listener is reported and does not stop the loop. *)
Fixpoint invoke (e : Event) (snapshot : list Listener) (w : World) : World :=
  match snapshot with
  | [] => w
  | l :: rest => invoke e rest (if registered l w then exec (handler e) w else w)
  end.

Definition dispatch (e : Event) (w : World) : World :=
  invoke e (filter (listens e) (listeners (window w))) w.

Definition pending (id : Z) (w : World) : bool :=
  existsb (fun t => timer_id t =? id) (timers (window w)).

Definition rearm (id due : Z) (t : Timer) : Timer :=
  if timer_id t =? id
  then Build_Timer (timer_id t) due (timer_every t) (timer_callback t)
  else t.

(** One timer task: the callback runs if the timer is still pending, is
    recorded in [fired], and the timer is then re-armed (interval) or
    dropped (timeout) unless the callback cleared it. *)
Definition fire (t : Timer) (w : World) : World :=
  if pending (timer_id t) w
  then
    let w1 := exec (run_callback (timer_callback t)) w in
    let w2 := Build_World (this w1)
                (set_fired (timer_callback t :: fired (window w1)) (window w1)) in
    match timer_every t with
    | Some delay =>
        Build_World (this w2)
          (set_timers (map (rearm (timer_id t) (now (window w2) + delay))
                           (timers (window w2))) (window w2))
    | None => exec (clearTimeout (timer_id t)) w2
    end
  else w.

(** One millisecond passes: the timers that are due run, in the order in
    which they were armed. *)
Definition tick (w : World) : World :=
  let w1 := Build_World (this w) (set_now (now (window w) + 1) (window w)) in
  fold_left (fun w t => fire t w)
    (filter (fun t => timer_due t <=? now (window w1)) (timers (window w1))) w1.

Fixpoint wait (ms : nat) (w : World) : World :=
  match ms with
  | O => w
  | S rest => wait rest (tick w)
  end.

(** *** Traces *)

(** The public methods that stay within the object and the browser
    services.  [initialize], [addArrows] and [removeArrows] reach the page
    around the widget; they are actions of the page, further down. *)
Inductive Method :=
| call_nextSlide
| call_previousSlide
| call_changeSlide (index : Number)
| call_enableDragging
| call_disableDragging
| call_changeAnimation (a : AnimationName)
| call_setFullWidthSlide (flag : bool)
| call_addBullets
| call_removeBullets
| call_startAutoplay (delay : Number)
| call_stopAutoplay
| call_refresh.

Definition call (m : Method) : M unit :=
  match m with
  | call_nextSlide => nextSlide
  | call_previousSlide => previousSlide
  | call_changeSlide index => changeSlide index
  | call_enableDragging => enableDragging
  | call_disableDragging => disableDragging
  | call_changeAnimation a => changeAnimation a
  | call_setFullWidthSlide flag => setFullWidthSlide flag
  | call_addBullets => addBullets
  | call_removeBullets => removeBullets
  | call_startAutoplay delay => startAutoplay delay
  | call_stopAutoplay => stopAutoplay
  | call_refresh => refresh
  end.

(** What can happen to the widget between two turns of the event loop: an
    input event, a resize of the window, the passing of time, a call of a
    public method by the page, or a change of the page's layout. *)
Inductive Input :=
| Dispatch (e : Event)
| Resize
| Wait (ms : nat)
| Call (m : Method)
| Relayout (l : Dom -> Element -> DOMRect).

Definition step (w : World) (i : Input) : World :=
  match i with
  | Dispatch e => dispatch e w
  | Resize => exec on_resize w
  | Wait ms => wait ms w
  | Call m => exec (call m) w
  | Relayout l => Build_World (this w) (set_layout l (window w))
  end.

Definition run (inputs : list Input) (w : World) : World :=
  fold_left step inputs w.

(** *** A concrete page, for examples *)

(** Slides of width 100 laid side by side on the rail; the rail sits at
    [viewport + offset], where [offset] is read back from its inline style
    by the caller. *)
Definition flat_layout (viewport offset : Z) : Dom -> Element -> DOMRect :=
  fun _ e =>
    match e with
    | Viewport => Build_DOMRect viewport 100
    | Rail => Build_DOMRect (viewport + offset) 500
    | Slide i => Build_DOMRect (viewport + offset + 100 * Z.of_nat i) 100
    end.

Definition blank : HTMLElement := Build_HTMLElement false "".

(** A widget of [n] slides in slide mode, with nothing enabled yet. *)
Definition page (n : nat) (l : Dom -> Element -> DOMRect) : World :=
  Build_World
    (Build_SimpleSlideshow
       (Build_Dom ["slide"] (Build_RailElement "" "" "") (repeat blank n) [])
       (Some slide) true false false false 0 0 0 0 0 0 None None)
    (Build_Browser l [] 0 [] 0 0 []).

(** ** Vocabulary of the statements *)

(** The invariant of the data model: the active index is an integer and
    names a slide. *)
(** Whether [index] is one of the indices [0 .. n - 1] of an array of [n]
    elements. *)
Definition names_element (index : Number) (n : nat) : bool :=
  match Number_integer index with
  | Some z => (0 <=? z) && (z <? Z.of_nat n)
  | None => false
  end.

Definition in_range (o : SimpleSlideshow) : Prop :=
  exists index : Z,
    activeIndex o = index /\ 0 <= index < Z.of_nat (List.length (slides (dom o))).

(** The object once the commit step has set the suppression flag and
    redone the [active] marking, before any offset is computed. *)
Definition marked (o : SimpleSlideshow) : SimpleSlideshow :=
  let o1 := set_skipNextAutoplay true o in
  let o2 := set_dom (set_slides (forEach (toggle_active (activeIndex o)) 0
                                   (slides (dom o))) (dom o1)) o1 in
  set_dom (set_bullets (forEach (toggle_active (activeIndex o)) 0
                          (bullets (dom o))) (dom o2)) o2.

(** The object after a whole commit step in slide mode, given the two
    measurements. *)
Definition committed (RAIL_OFFSET SLIDE_OFFSET : Z) (o : SimpleSlideshow) : SimpleSlideshow :=
  let o1 := set_currentOffset (RAIL_OFFSET - SLIDE_OFFSET) (marked o) in
  set_dom (set_rail (set_style_left (toPixel (RAIL_OFFSET - SLIDE_OFFSET))
                       (rail (dom o1))) (dom o1)) o1.

(** Relative navigation as the specification writes it:
    [(index + 1) mod N] and [(index - 1 + N) mod N]. *)
Definition relative (m : Method) : Prop :=
  m = call_nextSlide \/ m = call_previousSlide.

Definition navigate (n : Z) (index : Z) (m : Method) : Z :=
  match m with
  | call_nextSlide => (index + 1) mod n
  | call_previousSlide => (index - 1 + n) mod n
  | _ => index
  end.

(** The threshold rule in the words of the specification: the earliest
    index among the first [n - 1] slides whose left edge is at or right of
    the threshold, and the last index when there is none. *)
Definition threshold_rule (n : nat) (threshold : Z) (left : nat -> Z) : Z :=
  match find (fun index => threshold <=? left index) (seq 0 (n - 1)) with
  | Some index => Z.of_nat index
  | None => Z.of_nat n - 1
  end.

(** The tree as [dragEnd] measures it: the rail transition is restored and
    nothing else has been written yet. *)
Definition released (d : Dom) : Dom :=
  set_rail (set_style_transition "" (rail d)) d.

(** A computation leaves a view of the world alone, however it completes. *)
Definition preserves {A V : Type} (view : World -> V) (c : M A) : Prop :=
  forall w, view (exec c w) = view w.

(** The part of the world the drag machinery owns. *)
Definition session (w : World) : Z * option AbortController * option AbortController
                               * Z * list Listener * nat :=
  (touchId (this w), beingDraggedRemote (this w), draggableRemote (this w),
   dragStartingPoint (this w), listeners (window w), controllers (window w)).

(** The part of the world the timers own. *)
Definition schedule (w : World) : Browser * Z * Z :=
  (window w, resizeId (this w), autoplayId (this w)).

(** [controller.abort()] followed by [this.draggableRemote = null]. *)
Definition detached (controller : AbortController) (w : World) : World :=
  Build_World
    (set_draggableRemote None (this w))
    (set_listeners
       (filter (fun l => negb (Nat.eqb (listener_signal l) controller))
               (listeners (window w))) (window w)).

(** Number of reconciliation passes the event loop has run so far. *)
Definition passes (w : World) : nat :=
  List.length (filter (Callback_eqb ResizeTimeout) (fired (window w))).

(** A burst of resize signals: one signal, then one more after each gap. *)
Definition burst (gaps : list nat) : list Input :=
  Resize :: flat_map (fun gap => [Wait gap; Resize]) gaps.

Definition is_resize_timer (t : Timer) : bool :=
  Callback_eqb (timer_callback t) ResizeTimeout.

(** No reconciliation is pending, and timer handles are positive, distinct
    and below the allocation counter, as the browser hands them out. *)
Definition timers_ok (w : World) : Prop :=
  0 <= timer_ids (window w)
  /\ Forall (fun t => 0 < timer_id t <= timer_ids (window w)) (timers (window w))
  /\ NoDup (map timer_id (timers (window w))).

Definition quiescent (w : World) : Prop :=
  timers_ok w
  /\ resizeId (this w) = 0
  /\ filter is_resize_timer (timers (window w)) = [].

(** The delays the specification calls invalid. *)
Definition non_positive (delay : Number) : Prop :=
  match delay with
  | Finite q => (q <= 0)%Q
  | Infinity negative => negative = true
  | NaN => False
  end.

Definition non_integer (delay : Number) : Prop :=
  match delay with
  | Finite q => forall z : Z, ~ (q == inject_Z z)%Q
  | NaN | Infinity _ => True
  end.

(** Inputs that cannot end a drag session whose tracked identity is 0. *)
Definition keeps_session (i : Input) : Prop :=
  match i with
  | Dispatch (MouseUp _) | Dispatch (MouseLeave _) | Dispatch (TouchStart _) => False
  | Call call_disableDragging | Call (call_changeAnimation fade) => False
  | _ => True
  end.

(** What the commit step never touches. *)
Definition beyond_commit (w : World) :=
  (activeIndex (this w), List.length (slides (dom (this w))), animation (this w),
   (touchId (this w), beingDraggedRemote (this w), draggableRemote (this w),
    dragStartingPoint (this w)),
   (resizeId (this w), autoplayId (this w), window w),
   style_transition (rail (dom (this w)))).

(** The world with the active index assigned. *)
Definition goto (index : Number) (w : World) : World :=
  Build_World (set_activeIndex index (this w)) (window w).

(** The world in which [dragEnd] resolves the index: the rail transition
    is restored, the listeners of the session are gone, and the session
    handle and the tracked touch identity are cleared. *)
Definition drag_closed (controller : AbortController) (w : World) : World :=
  Build_World
    (set_touchId 0
       (set_beingDraggedRemote None
          (set_dom (released (dom (this w))) (this w))))
    (set_listeners
       (filter (fun l => negb (Nat.eqb (listener_signal l) controller))
               (listeners (window w))) (window w)).

(** The tracked touch identity and the session handle. *)
Definition tracking (w : World) : Z * option AbortController :=
  (touchId (this w), beingDraggedRemote (this w)).

(** Where the widget stands: the active index and the number of slides. *)
Definition position (w : World) : Number * nat :=
  (activeIndex (this w), List.length (slides (dom (this w)))).

(** One reconciliation is pending: the timer [id], due at [due], is the
    only resize timer and is the one [resizeId] remembers. *)
Definition armed (id due : Z) (w : World) : Prop :=
  timers_ok w
  /\ resizeId (this w) = id
  /\ 0 < id
  /\ filter is_resize_timer (timers (window w)) = [Build_Timer id due None ResizeTimeout].

(** The world one millisecond later, before any timer has run. *)
Definition later (w : World) : World :=
  Build_World (this w) (set_now (now (window w) + 1) (window w)).

(** The listeners [enableDragging] registers under its controller, and the
    ones [dragStart] registers under the controller of a session. *)
Definition start_listeners (controller : AbortController) : list Listener :=
  [Build_Listener OnRail touchstart controller;
   Build_Listener OnRail mousedown controller].

Definition session_listeners (controller : AbortController) : list Listener :=
  [Build_Listener OnWindow touchmove controller;
   Build_Listener OnWindow touchend controller;
   Build_Listener OnRail mousemove controller;
   Build_Listener OnRail mouseup controller;
   Build_Listener OnRail mouseleave controller].

(** What decides which listeners exist: the mode, the two controllers, the
    listeners themselves and the controller counter. *)
Definition wiring (w : World)
  : option AnimationName * option AbortController * option AbortController
    * list Listener * nat :=
  (animation (this w), draggableRemote (this w), beingDraggedRemote (this w),
   listeners (window w), controllers (window w)).

(** The listeners are exactly those of the two controllers the object
    holds, and a session exists only while dragging is enabled, under a
    controller of its own. *)
Definition plugged (w : World) : Prop :=
  listeners (window w)
  = match draggableRemote (this w) with
    | Some starting => start_listeners starting
    | None => []
    end
    ++ match beingDraggedRemote (this w) with
       | Some dragging => session_listeners dragging
       | None => []
       end
  /\ (forall starting, draggableRemote (this w) = Some starting ->
        (starting <= controllers (window w))%nat)
  /\ (forall dragging, beingDraggedRemote (this w) = Some dragging ->
        (dragging <= controllers (window w))%nat
        /\ draggableRemote (this w) <> None
        /\ draggableRemote (this w) <> Some dragging).

(** ... and dragging is enabled only in slide mode. *)
Definition wired (w : World) : Prop :=
  plugged w
  /\ (draggableRemote (this w) <> None -> animation (this w) = Some slide).

(** The test [abort] keeps a listener by. *)
Definition not_of (controller : AbortController) (l : Listener) : bool :=
  negb (Nat.eqb (listener_signal l) controller).

(** The world once [changeAnimation] has replaced the mode and its class
    on the host, before it turns dragging on or off. *)
Definition retagged (a : AnimationName) (w : World) : World :=
  let classes :=
    match animation (this w) with
    | Some old => classList_remove (AnimationName_value old) (classList (dom (this w)))
    | None => classList (dom (this w))
    end in
  Build_World
    (set_dom (set_classList (classList_add (AnimationName_value a) classes)
                (dom (this w)))
       (set_animation (Some a) (this w)))
    (window w).

(** The world with the inline [left] of the rail removed. *)
Definition unrailed (w : World) : World :=
  Build_World
    (set_dom (set_rail (set_style_left "" (rail (dom (this w)))) (dom (this w))) (this w))
    (window w).

(** The mode and the classes of the host. *)
Definition tagging (w : World) : option AnimationName * list string :=
  (animation (this w), classList (dom (this w))).

(** Start events are heard by the listeners of [enableDragging], the
    others by those of [dragStart]. *)
Definition is_start (e : Event) : bool :=
  match e with
  | TouchStart _ | MouseDown _ => true
  | _ => false
  end.

(** Whether the controller that owns the listener of [e] is held. *)
Definition heard (e : Event) (w : World) : bool :=
  if is_start e
  then match draggableRemote (this w) with Some _ => true | None => false end
  else match beingDraggedRemote (this w) with Some _ => true | None => false end.

Definition is_autoplay_timer (t : Timer) : bool :=
  Callback_eqb (timer_callback t) AutoplayTick.

(** Number of autoplay ticks the event loop has run so far. *)
Definition ticks (w : World) : nat :=
  List.length (filter (Callback_eqb AutoplayTick) (fired (window w))).

(** At most one autoplay timer is pending: none while [autoplayId] is 0,
    and otherwise the interval timer whose handle [autoplayId] holds. *)
Definition player (w : World) : Prop :=
  match filter is_autoplay_timer (timers (window w)) with
  | [] => autoplayId (this w) = 0
  | [t] => timer_id t = autoplayId (this w) /\ timer_every t <> None
  | _ => False
  end.

(** What the timers depend on. *)
Definition clockwork (w : World) : list Timer * Z * Z * Z :=
  (timers (window w), timer_ids (window w), resizeId (this w), autoplayId (this w)).

(** Timer hygiene: handles are well formed, at most one autoplay timer is
    pending and at most one reconciliation is. *)
Definition scheduled (w : World) : Prop :=
  player w /\ (quiescent w \/ exists id due, armed id due w).

(** The number of pixels a style value such as [-200px] stands for. *)
Definition parse_pixel (s : string) : Z :=
  match NilZero.int_of_string (substring 0 (String.length s - 2) s) with
  | Some i => Z.of_int i
  | None => 0
  end.

(** A browser that lays the slides out side by side, 100 wide, on a rail
    whose left edge is the viewport's plus the rail's [left] style. *)
Definition rigid_layout (viewport : Z) : Dom -> Element -> DOMRect :=
  fun d e =>
    let offset := parse_pixel (style_left (rail d)) in
    match e with
    | Viewport => Build_DOMRect viewport 100
    | Rail => Build_DOMRect (viewport + offset) 500
    | Slide i => Build_DOMRect (viewport + offset + 100 * Z.of_nat i) 100
    end.

(** A computation that, on a world whose active index names a slide, runs
    to a normal completion and leaves the index naming a slide and the
    number of slides as it was. *)
Definition safe {A : Type} (c : M A) : Prop :=
  forall w, in_range (this w) ->
    in_range (this (exec c w))
    /\ List.length (slides (dom (this (exec c w)))) = List.length (slides (dom (this w)))
    /\ exists a, completion c w = Normal a.

(** The active index names one of [n] slides. *)
Definition steady (n : nat) (w : World) : Prop :=
  in_range (this w) /\ List.length (slides (dom (this w))) = n.

(** The calls the widget refuses, and the error it refuses them with. *)
Definition refusal (m : Method) (w : World) : option Exception :=
  match m with
  | call_changeSlide index =>
      if Number_lt index 0 || Number_le (Z.of_nat (List.length (slides (dom (this w))))) index
      then Some RangeError
      else None
  | call_enableDragging =>
      if animation_is (animation (this w)) slide then None else Some ConfigurationError
  | call_startAutoplay delay =>
      if negb (Number_isSafeInteger delay) || Number_lt_1 delay
      then Some ValidationError
      else None
  | _ => None
  end.

(** A call whose index argument, if it has one, is an integer.  A click on
    a bullet is such a call: its listener calls [changeSlide] with the
    integer position of the bullet. *)
Definition integral_call (m : Method) : Prop :=
  match m with
  | call_changeSlide index => exists z : Z, index = z
  | _ => True
  end.

Definition integral_input (i : Input) : Prop :=
  match i with
  | Call m => integral_call m
  | _ => True
  end.

(** ** The page around the widget *)

(** [initialize], [addArrows] and [removeArrows] reach beyond the fields of
    the object: into the document, for the elements that become slides and
    for the arrow buttons under the host, and into [window], for the
    [resize] listener. *)

Module OrientationName.
Inductive t := left | right.
Definition value (o : t) : string :=
  match o with left => "left" | right => "right" end.
End OrientationName.

(** What a builder returns; only its presence matters here. *)
Definition ChildNode := string.
Definition ArrowBuilder := OrientationName.t -> ChildNode.
Definition BulletBuilder := Z -> ChildNode.

(** An [Element] of the document, as [extractElements] tests it. *)
Record Node := { instanceof_HTMLElement : bool }.

(** [interface Configuration]: every field is optional. *)
Module Configuration.
Record t := {
  elements : option (list Node);
  elementsSelector : option string;
  fullWidthSlide : option bool;
  animation : option AnimationName;
  draggable : option bool;
  addArrows : option bool;
  arrowBuilder : option ArrowBuilder;
  addBullets : option bool;
  bulletBuilder : option BulletBuilder;
  autoplayDelay : option Number
}.
End Configuration.

(** A [button.slideshow-arrow] under the host.  Its click listener is the
    closure written at its creation: [previousSlide] for the arrow of class
    [left], [nextSlide] for the one of class [right]. *)
Record Arrow := {
  arrow_classList : list string;
  arrow_child : option ChildNode
}.

(** The widget in its page.  [arrows] are the descendants of the host that
    match [button.slideshow-arrow], in document order; [resize_listeners]
    counts the registrations of the resize closure on [window];
    [querySelectorAll] is what the host answers to a selector when
    [initialize] asks. *)
Record Site := {
  world : World;
  arrows : list Arrow;
  resize_listeners : nat;
  querySelectorAll : string -> list Node
}.

Definition set_world (v : World) (s : Site) : Site :=
  Build_Site v (arrows s) (resize_listeners s) (querySelectorAll s).
Definition set_arrows (v : list Arrow) (s : Site) : Site :=
  Build_Site (world s) v (resize_listeners s) (querySelectorAll s).
Definition set_resize_listeners (v : nat) (s : Site) : Site :=
  Build_Site (world s) (arrows s) v (querySelectorAll s).

Definition set_showArrows (v : bool) (o : SimpleSlideshow) :=
  Build_SimpleSlideshow (dom o) (animation o) (fullWidthSlide o) v
    (showBullets o) (skipNextAutoplay o) (activeIndex o) (dragStartingPoint o)
    (currentOffset o) (autoplayId o) (resizeId o) (touchId o)
    (beingDraggedRemote o) (draggableRemote o).

(** Method bodies that reach the page. *)
Definition Script (A : Type) : Type := Site -> Completion A * Site.

Definition script_ret {A : Type} (a : A) : Script A := fun s => (Normal a, s).

Definition script_throw {A : Type} (e : Exception) : Script A := fun s => (Throw e, s).

Definition script_bind {A B : Type} (c : Script A) (k : A -> Script B) : Script B :=
  fun s =>
    match c s with
    | (Normal a, s') => k a s'
    | (Throw e, s') => (Throw e, s')
    end.

(** A method body that stays within the object and the browser services. *)
Definition lift {A : Type} (c : M A) : Script A :=
  fun s => (completion c (world s), set_world (exec c (world s)) s).

Definition script_when (b : bool) (c : Script unit) : Script unit :=
  if b then c else script_ret tt.

Declare Scope method_scope.
Delimit Scope method_scope with method.
Notation "x <- c ;; k" := (bind c (fun x => k))
  (at level 61, c at next level, right associativity) : method_scope.
Notation "c ;; k" := (bind c (fun _ => k))
  (at level 61, right associativity) : method_scope.

Declare Scope script_scope.
Delimit Scope script_scope with script.
Notation "x <- c ;; k" := (script_bind c (fun x => k))
  (at level 61, c at next level, right associativity) : script_scope.
Notation "c ;; k" := (script_bind c (fun _ => k))
  (at level 61, right associativity) : script_scope.

(** [value ?? fallback] *)
Definition nullish {A : Type} (value : option A) (fallback : A) : A :=
  match value with
  | Some a => a
  | None => fallback
  end.

(** [array.forEach(element => ...)] run for its effects. *)
Fixpoint for_each {A : Type} (array : list A) (f : A -> M unit) : M unit :=
  match array with
  | [] => ret tt
  | a :: rest => f a ;; for_each rest f
  end.

Definition removeArrows : Script unit :=
  (shown <- lift (read showArrows) ;;
   if negb shown
   then script_ret tt
   else
     lift (write set_showArrows false) ;;
     fun s => (Normal tt, set_arrows [] s))%script.

(** The two buttons are appended to the host and then given their classes;
    they are written here as they stand when the method returns. *)
Definition addArrows (generator : option ArrowBuilder) : Script unit :=
  (shown <- lift (read showArrows) ;;
   script_when shown removeArrows ;;
   lift (write set_showArrows true) ;;
   let LEFT_ARROW :=
     Build_Arrow ["slideshow-arrow"; OrientationName.value OrientationName.left]
       (option_map (fun g => g OrientationName.left) generator) in
   let RIGHT_ARROW :=
     Build_Arrow ["slideshow-arrow"; OrientationName.value OrientationName.right]
       (option_map (fun g => g OrientationName.right) generator) in
   fun s => (Normal tt, set_arrows (arrows s ++ [LEFT_ARROW; RIGHT_ARROW]) s))%script.

(** The elements come from [configuration.elements], else from the
    configured selector, else from [[data-slide]]; only the [HTMLElement]s
    among them are kept. *)
Definition extractElements (configuration : Configuration.t) : Script (list Node) :=
  fun s =>
    let found :=
      match Configuration.elements configuration with
      | Some elements => elements
      | None =>
          match Configuration.elementsSelector configuration with
          | Some selector => querySelectorAll s selector
          | None => querySelectorAll s "[data-slide]"
          end
      end in
    (Normal (filter instanceof_HTMLElement found), s).

(** Each extracted element is wrapped in a new [slideshow-slide], which is
    appended to the rail and pushed onto [slides]. *)
Definition initializeSlides (configuration : Configuration.t) : Script unit :=
  (ELEMENTS <- extractElements configuration ;;
   lift (w <- computeViewportWidth ;;
         let WIDTH := toPixel w in
         for_each ELEMENTS
           (fun _ =>
              full <- read fullWidthSlide ;;
              let SLIDE := Build_HTMLElement false (if full then WIDTH else "") in
              s <- read_dom slides ;;
              write_dom set_slides (s ++ [SLIDE])) ;;
         updateRailWidth)%method)%script.

(** The bullet builder only fills the bullets with content, which
    [addBullets] does not record; the last step is
    [window.addEventListener("resize", ...)], whose closure is [on_resize]. *)
Definition initialize (configuration : Configuration.t) : Script unit :=
  (initializeSlides configuration ;;
   lift (setFullWidthSlide (nullish (Configuration.fullWidthSlide configuration) true)) ;;
   lift (changeAnimation (nullish (Configuration.animation configuration) slide)) ;;
   script_when (nullish (Configuration.addArrows configuration) false)
     (addArrows (Configuration.arrowBuilder configuration)) ;;
   script_when (nullish (Configuration.addBullets configuration) false) (lift addBullets) ;;
   a <- lift (read animation) ;;
   (if animation_is a slide
    then script_when (nullish (Configuration.draggable configuration) true)
           (lift enableDragging)
    else
      match Configuration.draggable configuration with
      | Some true =>
          script_throw (Error "Unable to enable dragging if animation is not set to slide")
      | _ => script_ret tt
      end) ;;
   match Configuration.autoplayDelay configuration with
   | Some delay => lift (startAutoplay delay)
   | None => script_ret tt
   end ;;
   fun s => (Normal tt, set_resize_listeners (S (resize_listeners s)) s))%script.

(** The object as the constructor leaves it: the field initialisers, on a
    host with the given classes and rail. *)
Definition constructed (classes : list string) (r : RailElement) : SimpleSlideshow :=
  Build_SimpleSlideshow (Build_Dom classes r [] [])
    None false false false false 0 0 0 0 0 0 None None.

(** The nodes [extractElements] returns on a site. *)
Definition extracted (configuration : Configuration.t) (s : Site) : list Node :=
  match extractElements configuration s with
  | (Normal found, _) => found
  | (Throw _, _) => []
  end.

(** A page on which the widget has just been constructed: no listener and
    no timer of the widget exists yet. *)
Definition fresh (s : Site) : Prop :=
  (exists classes r, this (world s) = constructed classes r)
  /\ listeners (window (world s)) = []
  /\ timers (window (world s)) = []
  /\ 0 <= timer_ids (window (world s))
  /\ resize_listeners s = 0%nat.




(** The world once the loop of [initializeSlides] has pushed [n] slides. *)
Definition wrapped (n : nat) (w : World) : World :=
  let WIDTH := toPixel (rect_width (layout (window w) (dom (this w)) Viewport)) in
  Build_World
    (set_dom
       (set_slides
          (slides (dom (this w))
           ++ repeat (Build_HTMLElement false (if fullWidthSlide (this w) then WIDTH else ""))
                     n)
          (dom (this w)))
       (this w))
    (window w).


(** Autoplay runs undisturbed: the interval timer [id] of period [delay],
    next due at [due], is the only pending timer, the suppression flag is
    clear and the active index names a slide. *)
Definition cruising (delay id due : Z) (w : World) : Prop :=
  timers (window w) = [Build_Timer id due (Some delay) AutoplayTick]
  /\ autoplayId (this w) = id
  /\ skipNextAutoplay (this w) = false
  /\ in_range (this w).

(** The world in which [refresh] commits: the pending reconciliation is
    cleared, the slides have the width of the viewport when they are to
    fill it, and the rail has been given its width, measured after that. *)
Definition remeasured (w : World) : World :=
  let WIDTH := toPixel (rect_width (layout (window w) (dom (this w)) Viewport)) in
  let sized :=
    if fullWidthSlide (this w)
    then map (set_style_width WIDTH) (slides (dom (this w)))
    else slides (dom (this w)) in
  let d := set_slides sized (dom (this w)) in
  let width := rect_width (layout (window w) d Viewport) in
  let width :=
    if animation_is (animation (this w)) slide
    then width * (Z.of_nat (List.length sized) + 4000)
    else width in
  Build_World
    (set_dom (set_rail (set_rail_style_width (toPixel width) (rail d)) d)
       (set_resizeId (if 0 <? resizeId (this w) then 0 else resizeId (this w)) (this w)))
    (set_timers
       (if 0 <? resizeId (this w)
        then filter (fun t => negb (timer_id t =? resizeId (this w))) (timers (window w))
        else timers (window w))
       (window w)).

(** *** Traces of the whole page *)

(** What can happen to the widget in its page: what can happen to the
    object, and a call of one of the three public methods that reach the
    page.  The clicks on the buttons the widget creates are calls too: a
    click on an arrow is the call its listener makes, [previousSlide] or
    [nextSlide], and a click on bullet [k] is [changeSlide k]. *)
Inductive Action :=
| Page (i : Input)
| Initialize (configuration : Configuration.t)
| AddArrows (generator : option ArrowBuilder)
| RemoveArrows.

(** A resize of the window runs the resize closure once for each of its
    registrations, so not at all before the first [initialize]. *)
Definition site_step (s : Site) (a : Action) : Site :=
  match a with
  | Page Resize => set_world (Nat.iter (resize_listeners s) (exec on_resize) (world s)) s
  | Page i => set_world (step (world s) i) s
  | Initialize configuration => snd (initialize configuration s)
  | AddArrows generator => snd (addArrows generator s)
  | RemoveArrows => snd (removeArrows s)
  end.

Definition site_run (actions : list Action) (s : Site) : Site :=
  fold_left site_step actions s.




(** The public methods of the object that [initialize] may call. *)
Definition initialize_calls (configuration : Configuration.t) : list Method :=
  [call_setFullWidthSlide (nullish (Configuration.fullWidthSlide configuration) true);
   call_changeAnimation (nullish (Configuration.animation configuration) slide);
   call_addBullets;
   call_enableDragging]
  ++ match Configuration.autoplayDelay configuration with
     | Some delay => [call_startAutoplay delay]
     | None => []
     end.





(** Started on a site where [P] holds, [c] ends normally on a site where
    [Q] holds of its result, or throws on a site where [E] holds of the
    exception. *)
Definition triple {A : Type} (P : Site -> Prop) (c : Script A)
    (Q : A -> Site -> Prop) (E : Exception -> Site -> Prop) : Prop :=
  forall s, P s ->
    match c s with
    | (Normal a, s') => Q a s'
    | (Throw e, s') => E e s'
    end.

(** * Proofs *)

Ltac unfold_m :=
  unfold bind, ret, throw, read, write, read_dom, write_dom, read_window,
    write_window, when, exec, completion.

Lemma forEach_length {A : Type} (f : A -> nat -> A) (l : list A) :
  forall k, List.length (forEach f k l) = List.length l.
Proof. induction l as [|a l IH]; intros k; simpl; [reflexivity | now rewrite IH]. Qed.

Lemma forEach_nth {A : Type} (f : A -> nat -> A) (l : list A) :
  forall k i, nth_error (forEach f k l) i = option_map (fun a => f a (k + i)%nat) (nth_error l i).
Proof.
  induction l as [|a l IH]; intros k i; destruct i; simpl; try reflexivity.
  - now rewrite Nat.add_0_r.
  - rewrite IH. now replace (S k + i)%nat with (k + S i)%nat by lia.
Qed.

Lemma array_get_inside {A : Type} (l : list A) (i : Z) :
  0 <= i < Z.of_nat (List.length l) -> exists a, array_get l i = object a.
Proof.
  intros H. unfold array_get.
  destruct (Z.ltb_spec i 0); [lia|].
  destruct (nth_error l (Z.to_nat i)) eqn:E; eauto.
  apply nth_error_None in E. lia.
Qed.

Lemma array_get_outside {A : Type} (l : list A) (i : Z) :
  i < 0 \/ Z.of_nat (List.length l) <= i -> array_get l i = undefined.
Proof.
  intros H. unfold array_get.
  destruct (Z.ltb_spec i 0); [reflexivity|].
  destruct (nth_error l (Z.to_nat i)) eqn:E; [|reflexivity].
  assert (nth_error l (Z.to_nat i) <> None) as N by congruence.
  apply nth_error_Some in N. lia.
Qed.

Lemma computeSlideLeft_inside (w : World) (i : Z) :
  0 <= i < Z.of_nat (List.length (slides (dom (this w)))) ->
  computeSlideLeft i w
  = (Normal (rect_left (layout (window w) (dom (this w)) (Slide (Z.to_nat i)))), w).
Proof.
  intros H. destruct (array_get_inside _ _ H) as [a E].
  unfold computeSlideLeft, getBoundingClientRect. unfold_m. cbn. now rewrite E.
Qed.

Lemma computeSlideLeft_outside (w : World) (i : Z) :
  i < 0 \/ Z.of_nat (List.length (slides (dom (this w)))) <= i ->
  computeSlideLeft i w
  = (Throw (TypeError "Cannot read properties of undefined (reading 'getBoundingClientRect')"), w).
Proof.
  intros H. unfold computeSlideLeft. unfold_m. cbn.
  now rewrite (array_get_outside _ _ H).
Qed.

Lemma marked_slides_length (o : SimpleSlideshow) :
  List.length (slides (dom (marked o))) = List.length (slides (dom o)).
Proof. apply forEach_length. Qed.

Lemma slideTransition_plain (w : World) :
  animation_is (animation (this w)) slide = false ->
  slideTransition w = (Normal tt, Build_World (marked (this w)) (window w)).
Proof.
  intros H. unfold slideTransition, updateActive. unfold_m. cbn.
  now rewrite H.
Qed.

Lemma slideTransition_slide (w : World) :
  animation_is (animation (this w)) slide = true ->
  in_range (this w) ->
  slideTransition w
  = (Normal tt,
     Build_World
       (committed (rect_left (layout (window w) (dom (marked (this w))) Rail))
                  (rect_left (layout (window w) (dom (marked (this w)))
                                (Slide (Z.to_nat (Number_to_Z (activeIndex (this w)))))))
                  (this w))
       (window w)).
Proof.
  intros H (i & Ei & Ri). unfold slideTransition, updateActive, computeSlideLeft.
  unfold_m. cbn. rewrite H. cbn.
  destruct (array_get_inside
              (forEach (toggle_active (activeIndex (this w))) 0 (slides (dom (this w))))
              i) as [a E].
  { rewrite forEach_length. exact Ri. }
  rewrite Ei. unfold array_at. cbn [Number_integer Number_of_Z inject_Z].
  rewrite <- Ei, E. reflexivity.
Qed.

(** ** Pixels *)

Lemma substring_append (s t : string) :
  substring 0 (String.length s) (s ++ t)%string = s.
Proof. induction s as [|c s IH]; cbn; [now destruct t | now rewrite IH]. Qed.

Lemma length_append_px (s : string) :
  (String.length (s ++ "px")%string - 2)%nat = String.length s.
Proof. induction s as [|c s IH]; cbn in *; [reflexivity|]. destruct (s ++ "px")%string eqn:E.
  - destruct s; discriminate.
  - cbn in IH. destruct s0; cbn in *; [destruct s as [|? [|]]; discriminate|]. lia.
Qed.

Lemma parse_pixel_toPixel (z : Z) : parse_pixel (toPixel z) = z.
Proof.
  unfold parse_pixel, toPixel. rewrite length_append_px, substring_append.
  rewrite NilZero.isi.
  - apply DecimalZ.of_to.
  - destruct z; cbn; try discriminate. intros [= E].
    now apply DecimalPos.Unsigned.to_uint_nonnil in E.
  - destruct z; cbn; try discriminate. intros [= E].
    now apply DecimalPos.Unsigned.to_uint_nonnil in E.
Qed.

Lemma committed_offset (RAIL_OFFSET SLIDE_OFFSET : Z) (o : SimpleSlideshow) :
  currentOffset (committed RAIL_OFFSET SLIDE_OFFSET o) = RAIL_OFFSET - SLIDE_OFFSET.
Proof. reflexivity. Qed.

Lemma committed_left (RAIL_OFFSET SLIDE_OFFSET : Z) (o : SimpleSlideshow) :
  style_left (rail (dom (committed RAIL_OFFSET SLIDE_OFFSET o)))
  = toPixel (RAIL_OFFSET - SLIDE_OFFSET).
Proof. reflexivity. Qed.

(** ** The commit step *)

(** C5.  Every run of [slideTransition] sets the autoplay suppression flag
    and redoes the active marking of slides and bullets (slide or bullet
    [i] is active exactly when [i] is the active index).  In slide mode,
    with the active index naming a slide, it also sets the rail offset to
    [railLeft() - slideLeft(activeIndex)], both measured on the tree whose
    rail has not been moved yet, and writes that offset to the rail: the
    inline [left] of the rail becomes the offset printed in pixels, a
    string that reads back as the offset to the nearest pixel.  In
    any other mode the offset and the rail are left as they were and the
    outcome does not depend on the layout: nothing is measured. *)
Theorem slideTransition_commit (w : World) :
  let o := this w in
  let o' := this (exec slideTransition w) in
  skipNextAutoplay o' = true
  /\ activeIndex o' = activeIndex o
  /\ slides (dom o') = forEach (toggle_active (activeIndex o)) 0 (slides (dom o))
  /\ bullets (dom o') = forEach (toggle_active (activeIndex o)) 0 (bullets (dom o))
  /\ (forall i e, nth_error (slides (dom o')) i = Some e \/ nth_error (bullets (dom o')) i = Some e ->
        class_active e = Number_eq (activeIndex o) (Z.of_nat i))
  /\ (animation_is (animation o) slide = true -> in_range o ->
        let measured := layout (window w) (dom (marked o)) in
        completion slideTransition w = Normal tt
        /\ style_left (rail (dom (marked o))) = style_left (rail (dom o))
        /\ currentOffset o'
           = rect_left (measured Rail)
             - rect_left (measured (Slide (Z.to_nat (Number_to_Z (activeIndex o)))))
        /\ style_left (rail (dom o')) = toPixel (currentOffset o')
        /\ 2 * Z.abs (parse_pixel (style_left (rail (dom o'))) - currentOffset o') <= 1)
  /\ (animation_is (animation o) slide = false ->
        completion slideTransition w = Normal tt
        /\ currentOffset o' = currentOffset o
        /\ rail (dom o') = rail (dom o)
        /\ forall l, this (exec slideTransition (Build_World o (set_layout l (window w)))) = o').
Proof.
  cbv zeta.
  assert (Hmark : forall i e k l,
             nth_error (forEach (toggle_active k) 0 l) i = Some e ->
             class_active e = Number_eq k (Z.of_nat i)).
  { intros i e k l. rewrite forEach_nth. destruct (nth_error l i); simpl; [|discriminate].
    intros [= <-]. reflexivity. }
  destruct (animation_is (animation (this w)) slide) eqn:A.
  - (* slide mode *)
    assert (P : skipNextAutoplay (this (exec slideTransition w)) = true
                /\ activeIndex (this (exec slideTransition w)) = activeIndex (this w)
                /\ slides (dom (this (exec slideTransition w)))
                   = forEach (toggle_active (activeIndex (this w))) 0 (slides (dom (this w)))
                /\ bullets (dom (this (exec slideTransition w)))
                   = forEach (toggle_active (activeIndex (this w))) 0 (bullets (dom (this w)))).
    { unfold slideTransition, updateActive, computeSlideLeft. unfold_m. cbn.
      rewrite A. cbn.
      destruct (array_at _ _); cbn; repeat split; reflexivity. }
    destruct P as (P1 & P2 & P3 & P4).
    split; [exact P1|]. split; [exact P2|]. split; [exact P3|]. split; [exact P4|].
    split.
    { intros i e [H|H]; [rewrite P3 in H | rewrite P4 in H]; eapply Hmark; eassumption. }
    split; [|intros; discriminate].
    intros _ R. unfold exec, completion. rewrite (slideTransition_slide w A R).
    cbn [fst snd this]. split; [reflexivity|]. split; [reflexivity|].
    split; [reflexivity|]. split; [reflexivity|].
    rewrite committed_left, committed_offset, parse_pixel_toPixel. lia.
  - assert (L : forall l, this (exec slideTransition
                                   (Build_World (this w) (set_layout l (window w))))
                          = this (exec slideTransition w)).
    { intros l. unfold exec. rewrite !slideTransition_plain by exact A. reflexivity. }
    revert L. unfold exec, completion. rewrite (slideTransition_plain w A). cbn. intros L.
    split; [reflexivity|]. split; [reflexivity|]. split; [reflexivity|].
    split; [reflexivity|].
    split.
    { intros i e [H|H]; eapply Hmark; eassumption. }
    split; [intros; discriminate|].
    intros _. repeat split; try reflexivity. exact L.
Qed.

Lemma slideTransition_commit_witness :
  let sliding := goto 2 (page 3 (flat_layout 8 (-100))) in
  let fading := Build_World (set_animation (Some fade) (this sliding)) (window sliding) in
  (currentOffset (this (exec slideTransition sliding)) = -200
   /\ style_left (rail (dom (this (exec slideTransition sliding)))) = "-200px")
  /\ rail (dom (this (exec slideTransition fading))) = rail (dom (this fading)).
Proof.
  intros sliding fading. split.
  - destruct (slideTransition_commit sliding) as (_ & _ & _ & _ & _ & H & _).
    destruct H as (_ & _ & H1 & H2 & _).
    + reflexivity.
    + exists 2. split; [reflexivity | cbn; lia].
    + split; [exact H1 | rewrite H2, H1; reflexivity].
  - destruct (slideTransition_commit fading) as (_ & _ & _ & _ & _ & _ & H).
    destruct H as (_ & _ & H & _); [reflexivity | exact H].
Defined.

(** ** Navigation *)

Arguments slideTransition : simpl never.


Lemma slideTransition_frame : preserves beyond_commit slideTransition.
Proof.
  intros w. unfold beyond_commit, exec, slideTransition, updateActive, computeSlideLeft,
    computeRailLeft, getBoundingClientRect. unfold_m. cbn.
  destruct (animation_is _ _); cbn; [|now rewrite forEach_length].
  destruct (array_at _ _); cbn; now rewrite forEach_length.
Qed.

Lemma slideTransition_normal (w : World) :
  in_range (this w) -> completion slideTransition w = Normal tt.
Proof.
  intros R. unfold completion.
  destruct (animation_is (animation (this w)) slide) eqn:A.
  - now rewrite slideTransition_slide.
  - now rewrite slideTransition_plain.
Qed.


Lemma in_range_integer (o : SimpleSlideshow) :
  in_range o ->
  activeIndex o = Number_of_Z (Number_to_Z (activeIndex o))
  /\ 0 <= Number_to_Z (activeIndex o) < Z.of_nat (List.length (slides (dom o))).
Proof.
  intros (i & E & R). rewrite E. split; [reflexivity | exact R].
Qed.

Lemma integer_in_range (o : SimpleSlideshow) (i : Z) :
  activeIndex o = i -> 0 <= i < Z.of_nat (List.length (slides (dom o))) -> in_range o.
Proof.
  intros E R. exists i. split; assumption.
Qed.

Lemma nextSlide_unfold (w : World) (k : Z) :
  activeIndex (this w) = k ->
  let i := k + 1 in
  let n := Z.of_nat (List.length (slides (dom (this w)))) in
  nextSlide w = slideTransition (goto (Number_of_Z (if n <=? i then 0 else i)) w).
Proof.
  intros E. unfold nextSlide, slides_length. unfold_m. cbn. rewrite E. cbn.
  destruct (_ <=? _); reflexivity.
Qed.

Lemma previousSlide_unfold (w : World) (i : Z) :
  activeIndex (this w) = i ->
  let n := Z.of_nat (List.length (slides (dom (this w)))) in
  previousSlide w = slideTransition (goto (Number_of_Z (if 0 <? i then i - 1 else n - 1)) w).
Proof.
  intros E. unfold previousSlide, slides_length. unfold_m. cbn. rewrite E. cbn.
  destruct (_ <? _); reflexivity.
Qed.

Lemma nextSlide_commits (w : World) :
  exists index, nextSlide w = slideTransition (goto index w).
Proof.
  unfold nextSlide, slides_length. unfold_m. cbn.
  match goal with |- context [if ?b then _ else _] => destruct b end;
    eexists; reflexivity.
Qed.

Lemma previousSlide_commits (w : World) :
  exists index, previousSlide w = slideTransition (goto index w).
Proof.
  unfold previousSlide, slides_length. unfold_m. cbn.
  match goal with |- context [if ?b then _ else _] => destruct b end;
    eexists; reflexivity.
Qed.

Lemma after_goto (index : Number) (w : World) :
  let w' := exec slideTransition (goto index w) in
  activeIndex (this w') = index
  /\ List.length (slides (dom (this w'))) = List.length (slides (dom (this w)))
  /\ window w' = window w.
Proof.
  cbv zeta. pose proof (slideTransition_frame (goto index w)) as F.
  unfold beyond_commit in F. cbn in F.
  injection F as F1 F2 _ _ _ _ _ _ _ F3 _. auto.
Qed.

Lemma nextSlide_step (w : World) :
  in_range (this w) ->
  let n := Z.of_nat (List.length (slides (dom (this w)))) in
  let i := Number_to_Z (activeIndex (this w)) in
  let w' := exec nextSlide w in
  completion nextSlide w = Normal tt
  /\ activeIndex (this w') = (if i =? n - 1 then 0 else i + 1)
  /\ activeIndex (this w') = navigate n i call_nextSlide
  /\ List.length (slides (dom (this w'))) = List.length (slides (dom (this w)))
  /\ in_range (this w').
Proof.
  intros (i & Ei & Rn). cbv zeta. rewrite Ei.
  change (Number_to_Z (Number_of_Z i)) with i.
  unfold exec, completion. rewrite (nextSlide_unfold w i Ei). cbv zeta.
  set (n := Z.of_nat (List.length (slides (dom (this w))))) in *.
  set (j := if n <=? i + 1 then 0 else i + 1).
  assert (Rj : 0 <= j < n) by (unfold j; destruct (Z.leb_spec n (i + 1)); lia).
  destruct (after_goto j w) as (E1 & E2 & _). unfold exec in E1, E2.
  split. { apply slideTransition_normal. exists j. split; [reflexivity | exact Rj]. }
  rewrite E1. split.
  { unfold j. destruct (Z.leb_spec n (i + 1)), (Z.eqb_spec i (n - 1)); try lia; reflexivity. }
  split.
  { f_equal. unfold j, navigate. destruct (Z.leb_spec n (i + 1)).
    - replace (i + 1) with n by lia. now rewrite Z.mod_same by lia.
    - now rewrite Z.mod_small by lia. }
  split; [exact E2|].
  exists j. rewrite E1, E2. split; [reflexivity | exact Rj].
Qed.

Lemma previousSlide_step (w : World) :
  in_range (this w) ->
  let n := Z.of_nat (List.length (slides (dom (this w)))) in
  let i := Number_to_Z (activeIndex (this w)) in
  let w' := exec previousSlide w in
  completion previousSlide w = Normal tt
  /\ activeIndex (this w') = (if i =? 0 then n - 1 else i - 1)
  /\ activeIndex (this w') = navigate n i call_previousSlide
  /\ List.length (slides (dom (this w'))) = List.length (slides (dom (this w)))
  /\ in_range (this w').
Proof.
  intros (i & Ei & Rn). cbv zeta. rewrite Ei.
  change (Number_to_Z (Number_of_Z i)) with i.
  unfold exec, completion. rewrite (previousSlide_unfold w i Ei). cbv zeta.
  set (n := Z.of_nat (List.length (slides (dom (this w))))) in *.
  set (j := if 0 <? i then i - 1 else n - 1).
  assert (Rj : 0 <= j < n) by (unfold j; destruct (Z.ltb_spec 0 i); lia).
  destruct (after_goto j w) as (E1 & E2 & _). unfold exec in E1, E2.
  split. { apply slideTransition_normal. exists j. split; [reflexivity | exact Rj]. }
  rewrite E1. split.
  { unfold j. destruct (Z.ltb_spec 0 i), (Z.eqb_spec i 0); try lia; reflexivity. }
  split.
  { f_equal. unfold j, navigate. destruct (Z.ltb_spec 0 i).
    - replace (i - 1 + n) with (i - 1 + 1 * n) by lia.
      rewrite Z.mod_add by lia. now rewrite Z.mod_small by lia.
    - replace (i - 1 + n) with (n - 1) by lia. now rewrite Z.mod_small by lia. }
  split; [exact E2|].
  exists j. rewrite E1, E2. split; [reflexivity | exact Rj].
Qed.

(** C2.  From a state whose active index names a slide (so there is at
    least one slide), any sequence of [nextSlide] and [previousSlide] calls
    keeps the active index inside [0, N-1]; the index reached is the one
    obtained by folding [(i + 1) mod N] and [(i - 1 + N) mod N] over the
    calls.  Each call completes without error; [nextSlide] yields 0 at
    index N-1 and adds 1 otherwise, [previousSlide] yields N-1 at index 0
    and subtracts 1 otherwise. *)
Theorem navigation_wraps (w : World) (calls : list Method) :
  in_range (this w) ->
  Forall relative calls ->
  let n := Z.of_nat (List.length (slides (dom (this w)))) in
  let i := Number_to_Z (activeIndex (this w)) in
  let w' := run (map Call calls) w in
  (1 <= n
   /\ in_range (this w')
   /\ List.length (slides (dom (this w'))) = List.length (slides (dom (this w)))
   /\ activeIndex (this w') = fold_left (navigate n) calls i)
  /\ activeIndex (this w) = i
  /\ (completion nextSlide w = Normal tt
      /\ activeIndex (this (exec nextSlide w)) = (if i =? n - 1 then 0 else i + 1))
  /\ (completion previousSlide w = Normal tt
      /\ activeIndex (this (exec previousSlide w)) = (if i =? 0 then n - 1 else i - 1)).
Proof.
  intros R F. cbv zeta. split; [|split; [apply in_range_integer, R | split]].
  - split; [destruct R as (i & _ & R); lia|].
    revert w R. induction F as [|m calls Hm F IH]; intros w R.
    + cbn. split; [exact R|]. split; [reflexivity|]. apply in_range_integer, R.
    + cbn [map run fold_left]. fold (run (map Call calls) (step w (Call m))).
      assert (S : in_range (this (step w (Call m)))
                  /\ List.length (slides (dom (this (step w (Call m)))))
                     = List.length (slides (dom (this w)))
                  /\ activeIndex (this (step w (Call m)))
                     = navigate (Z.of_nat (List.length (slides (dom (this w)))))
                         (Number_to_Z (activeIndex (this w))) m).
      { destruct Hm as [-> | ->]; cbn [step call].
        - destruct (nextSlide_step w R) as (_ & _ & A & B & C). auto.
        - destruct (previousSlide_step w R) as (_ & _ & A & B & C). auto. }
      destruct S as (S1 & S2 & S3).
      destruct (IH _ S1) as (I1 & I2 & I3).
      split; [exact I1|]. split; [congruence|].
      rewrite I3, S2, S3. reflexivity.
  - destruct (nextSlide_step w R) as (A & B & _). auto.
  - destruct (previousSlide_step w R) as (A & B & _). auto.
Qed.

Lemma navigation_wraps_witness :
  let w := page 3 (flat_layout 0 0) in
  activeIndex (this (run (map Call [call_previousSlide; call_nextSlide; call_nextSlide]) w)) = 1.
Proof.
  intros w.
  assert (R : in_range (this w)) by (exists 0; split; [reflexivity | cbn; lia]).
  assert (F : Forall relative [call_previousSlide; call_nextSlide; call_nextSlide]).
  { repeat apply Forall_cons; try apply Forall_nil; unfold relative; auto. }
  destruct (navigation_wraps w _ R F) as ((_ & _ & _ & H) & _). cbn in H. exact H.
Defined.

(** The guard of [changeSlide] is the two comparisons of the source and
    nothing more: when one of them holds the call throws and leaves the
    world as it was, and when both are false, whatever number [index] is,
    the index is stored and the commit step runs. *)
Lemma changeSlide_guard (w : World) (index : Number) :
  let n := Z.of_nat (List.length (slides (dom (this w)))) in
  changeSlide index w
  = if Number_lt index 0 || Number_le n index
    then (Throw RangeError, w)
    else slideTransition (goto index w).
Proof.
  cbv zeta. unfold changeSlide, slides_length. unfold_m. cbn.
  destruct (_ || _); reflexivity.
Qed.

(** [changeSlide index] with an integer index outside [0, N-1] throws the
    out-of-bound error and leaves the whole world, the active index
    included, exactly as it was; with an integer index inside [0, N-1] it
    completes without error and the active index is [index]. *)
Theorem changeSlide_checks_range (w : World) (index : Z) :
  let n := Z.of_nat (List.length (slides (dom (this w)))) in
  (index < 0 \/ n <= index -> changeSlide index w = (Throw RangeError, w))
  /\ (0 <= index < n ->
      completion (changeSlide index) w = Normal tt
      /\ activeIndex (this (exec (changeSlide index) w)) = index).
Proof.
  cbv zeta. split.
  - intros H. rewrite changeSlide_guard. cbn.
    destruct (Z.ltb_spec index 0); [reflexivity|].
    destruct (Z.leb_spec (Z.of_nat (List.length (slides (dom (this w))))) index);
      [reflexivity | lia].
  - intros H.
    assert (E : changeSlide index w = slideTransition (goto index w)).
    { rewrite changeSlide_guard. cbn.
      destruct (Z.ltb_spec index 0); [lia|].
      destruct (Z.leb_spec (Z.of_nat (List.length (slides (dom (this w))))) index);
        [lia | reflexivity]. }
    unfold completion, exec. rewrite E. split.
    + apply slideTransition_normal. exists index. split; [reflexivity | exact H].
    + apply after_goto.
Qed.

Lemma changeSlide_checks_range_witness :
  let w := page 3 (flat_layout 0 0) in
  changeSlide 3 w = (Throw RangeError, w)
  /\ changeSlide (-1) w = (Throw RangeError, w)
  /\ activeIndex (this (exec (changeSlide 2) w)) = 2.
Proof.
  intros w. subst w. split; [|split].
  - apply (proj1 (changeSlide_checks_range _ 3)). right. cbn. lia.
  - apply (proj1 (changeSlide_checks_range _ (-1))). left. lia.
  - apply (proj2 (changeSlide_checks_range _ 2)). cbn. lia.
Defined.

(** C3, on the inputs the guard of the code lets through.  The argument of
    [changeSlide] is a JavaScript number and the guard is
    [index < 0 || slides.length <= index]: both comparisons are false on
    [NaN] and on a fraction such as 1.5, neither of which is an index in
    [0, N-1].  On a three-slide widget in slide mode such a call overwrites
    the active index with the argument and then fails in the commit step
    with a [TypeError], not with the out-of-bound error; in fade mode it
    completes and leaves the active index at [NaN]. *)
Example changeSlide_not_an_index :
  let w := page 3 (flat_layout 0 0) in
  let fading := Build_World (set_animation (Some fade) (this w)) (window w) in
  let missing :=
    TypeError "Cannot read properties of undefined (reading 'getBoundingClientRect')" in
  (completion (changeSlide NaN) w = Throw missing
   /\ activeIndex (this (exec (changeSlide NaN) w)) = NaN)
  /\ (completion (changeSlide (Finite (3 # 2))) w = Throw missing
      /\ activeIndex (this (exec (changeSlide (Finite (3 # 2))) w)) = Finite (3 # 2))
  /\ (completion (changeSlide NaN) fading = Normal tt
      /\ activeIndex (this (exec (changeSlide NaN) fading)) = NaN).
Proof. repeat split; reflexivity. Qed.

(** ** The geometry probe *)

(** C4, as the code behaves.  For an index inside [0, N-1],
    [computeSlideLeft] returns the measured left edge of that slide and
    changes nothing.  For an index outside, [this.slides[index]] is
    [undefined], the guard [SLIDE === null] does not fire, and the call
    fails on the property access with a [TypeError]: the error of the guard,
    "No slide matching index", is never thrown. *)
Theorem computeSlideLeft_guard_is_dead (w : World) (index : Z) :
  let n := Z.of_nat (List.length (slides (dom (this w)))) in
  (0 <= index < n ->
   computeSlideLeft index w
   = (Normal (rect_left (layout (window w) (dom (this w)) (Slide (Z.to_nat index)))), w))
  /\ (index < 0 \/ n <= index ->
      exists message, completion (computeSlideLeft index) w = Throw (TypeError message))
  /\ completion (computeSlideLeft index) w <> Throw IndexError.
Proof.
  cbv zeta. split; [|split].
  - apply computeSlideLeft_inside.
  - intros H. unfold completion. rewrite (computeSlideLeft_outside w index H). eexists. reflexivity.
  - destruct (Z.ltb_spec index 0) as [L|L];
      [|destruct (Z.leb_spec (Z.of_nat (List.length (slides (dom (this w))))) index) as [G|G]].
    + unfold completion. rewrite computeSlideLeft_outside by lia. discriminate.
    + unfold completion. rewrite computeSlideLeft_outside by lia. discriminate.
    + unfold completion. rewrite computeSlideLeft_inside by lia. discriminate.
Qed.

Lemma computeSlideLeft_guard_is_dead_witness :
  let w := page 2 (flat_layout 0 0) in
  completion (computeSlideLeft 1) w = Normal 100
  /\ (exists message, completion (computeSlideLeft 2) w = Throw (TypeError message)).
Proof.
  intros w. subst w. split.
  - unfold completion.
    rewrite (proj1 (computeSlideLeft_guard_is_dead _ 1)) by (cbn; lia). reflexivity.
  - apply (proj1 (proj2 (computeSlideLeft_guard_is_dead _ 2))). right. cbn. lia.
Defined.

(** The failing input of C4: index 2 of a two-slide widget. *)
Example computeSlideLeft_past_the_end :
  completion (computeSlideLeft 2) (page 2 (flat_layout 0 0))
  = Throw (TypeError "Cannot read properties of undefined (reading 'getBoundingClientRect')").
Proof. reflexivity. Qed.

(** ** Dragging: the threshold rule *)

Lemma dragEnd_scan_found (k : nat) :
  forall (index new_index THRESHOLD : Z) (w : World),
    new_index <= index ->
    dragEnd_scan k index THRESHOLD new_index w = (Normal new_index, w).
Proof.
  induction k as [|k IH]; intros index new_index THRESHOLD w H; cbn [dragEnd_scan].
  - reflexivity.
  - unfold bind. destruct (Z.ltb_spec index new_index); [lia|].
    unfold ret at 1. apply IH. lia.
Qed.

Lemma dragEnd_scan_search (k : nat) :
  forall (i : nat) (new_index THRESHOLD : Z) (w : World),
    (i + k <= List.length (slides (dom (this w))))%nat ->
    ((0 < k)%nat -> Z.of_nat (i + k) <= new_index) ->
    dragEnd_scan k (Z.of_nat i) THRESHOLD new_index w
    = (Normal
         match find (fun index => THRESHOLD <=?
                       rect_left (layout (window w) (dom (this w)) (Slide index)))
                    (seq i k) with
         | Some index => Z.of_nat index
         | None => new_index
         end, w).
Proof.
  induction k as [|k IH]; intros i new_index THRESHOLD w L H; cbn [dragEnd_scan seq find].
  - reflexivity.
  - assert (Z.of_nat (i + S k) <= new_index) by (apply H; lia).
    unfold bind at 1. destruct (Z.ltb_spec (Z.of_nat i) new_index); [|lia].
    unfold bind at 1. rewrite computeSlideLeft_inside by lia.
    rewrite Nat2Z.id. unfold ret at 1.
    destruct (THRESHOLD <=? rect_left (layout (window w) (dom (this w)) (Slide i))).
    + apply dragEnd_scan_found. lia.
    + replace (Z.of_nat i + 1) with (Z.of_nat (S i)) by lia.
      apply IH; lia.
Qed.

Lemma dragEnd_idle (w : World) :
  beingDraggedRemote (this w) = None -> dragEnd w = (Normal tt, w).
Proof. intros H. unfold dragEnd. unfold_m. cbn. now rewrite H. Qed.

Lemma dragEnd_unfold (w : World) (controller : AbortController) :
  beingDraggedRemote (this w) = Some controller ->
  let w1 := drag_closed controller w in
  dragEnd w
  = slideTransition
      (goto (threshold_rule (List.length (slides (dom (this w))))
               (rect_left (layout (window w) (released (dom (this w))) Viewport))
               (fun index => rect_left (layout (window w) (released (dom (this w)))
                                          (Slide index))))
            w1).
Proof.
  intros H. cbv zeta. unfold dragEnd. unfold bind at 1. unfold read at 1. cbn.
  rewrite H. 
  unfold abort, computeViewportLeft, getBoundingClientRect, slides_length. unfold_m. cbn.
  set (n := List.length (slides (dom (this w)))).
  match goal with
  | |- context [dragEnd_scan ?k 0 ?t ?ni ?ww] =>
      pose proof (dragEnd_scan_search k 0%nat ni t ww) as S;
      change (Z.of_nat 0) with 0 in S; rewrite S; clear S
  end.
  2: { cbn. fold n. lia. }
  2: { lia. }
  cbn. unfold threshold_rule, released, drag_closed, goto. cbn.
  replace (Z.to_nat (Z.of_nat n - 1)) with (n - 1)%nat by lia.
  reflexivity.
Qed.

Lemma find_seq_first (f : nat -> bool) (k : nat) :
  forall s i, (s <= i < s + k)%nat -> f i = true ->
              (forall j, (s <= j < i)%nat -> f j = false) ->
              find f (seq s k) = Some i.
Proof.
  induction k as [|k IH]; intros s i R T B; [lia|]. cbn [seq find].
  destruct (Nat.eq_dec s i) as [->|N].
  - now rewrite T.
  - rewrite B by lia. apply IH; [lia | exact T | intros; apply B; lia].
Qed.

Lemma find_seq_none (f : nat -> bool) (k : nat) :
  forall s, (forall j, (s <= j < s + k)%nat -> f j = false) -> find f (seq s k) = None.
Proof.
  induction k as [|k IH]; intros s B; [reflexivity|]. cbn [seq find].
  rewrite B by lia. apply IH. intros; apply B; lia.
Qed.

Lemma threshold_rule_earliest (n : nat) (threshold : Z) (left : nat -> Z) (i : nat) :
  (i < n - 1)%nat -> threshold <= left i ->
  (forall j, (j < i)%nat -> left j < threshold) ->
  threshold_rule n threshold left = Z.of_nat i.
Proof.
  intros R Q B. unfold threshold_rule.
  rewrite (find_seq_first _ (n - 1) 0 i); [reflexivity | lia | now apply Z.leb_le |].
  intros j Hj. apply Z.leb_gt. apply B. lia.
Qed.

Lemma threshold_rule_last (n : nat) (threshold : Z) (left : nat -> Z) :
  (forall j, (j < n - 1)%nat -> left j < threshold) ->
  threshold_rule n threshold left = Z.of_nat n - 1.
Proof.
  intros B. unfold threshold_rule. rewrite find_seq_none; [reflexivity|].
  intros j Hj. apply Z.leb_gt. apply B. lia.
Qed.


Lemma threshold_rule_in_range (n : nat) (threshold : Z) (left : nat -> Z) :
  (1 <= n)%nat -> 0 <= threshold_rule n threshold left < Z.of_nat n.
Proof.
  intros N. unfold threshold_rule. destruct (find _ _) eqn:F; [|lia].
  apply find_some in F. destruct F as [F _]. apply in_seq in F. lia.
Qed.

Lemma in_range_closed (w : World) (controller : AbortController) (index : Z) :
  0 <= index < Z.of_nat (List.length (slides (dom (this w)))) ->
  in_range (this (goto index (drag_closed controller w))).
Proof. intros H. exists index. split; [reflexivity | exact H]. Qed.

Lemma completion_congr {A : Type} (c c' : M A) (w w' : World) :
  c w = c' w' -> completion c w = completion c' w'.
Proof. intros H. unfold completion. now rewrite H. Qed.

Lemma exec_congr {A : Type} (c c' : M A) (w w' : World) :
  c w = c' w' -> exec c w = exec c' w'.
Proof. intros H. unfold exec. now rewrite H. Qed.

Lemma dragEnd_completion (w : World) (controller : AbortController) :
  beingDraggedRemote (this w) = Some controller ->
  (1 <= List.length (slides (dom (this w))))%nat ->
  completion dragEnd w = Normal tt.
Proof.
  intros H N.
  rewrite (completion_congr _ _ _ _ (dragEnd_unfold w controller H)).
  apply slideTransition_normal. apply in_range_closed.
  apply threshold_rule_in_range. exact N.
Qed.

Lemma slideTransition_keeps (w : World) :
  let w' := exec slideTransition w in
  activeIndex (this w') = activeIndex (this w)
  /\ touchId (this w') = touchId (this w)
  /\ beingDraggedRemote (this w') = beingDraggedRemote (this w)
  /\ draggableRemote (this w') = draggableRemote (this w)
  /\ window w' = window w
  /\ style_transition (rail (dom (this w'))) = style_transition (rail (dom (this w))).
Proof.
  cbv zeta. pose proof (slideTransition_frame w) as F. unfold beyond_commit in F.
  injection F. intros. repeat split; assumption.
Qed.

Lemma dragEnd_completes (w : World) (controller : AbortController) :
  beingDraggedRemote (this w) = Some controller ->
  (1 <= List.length (slides (dom (this w))))%nat ->
  dragEnd w = (Normal tt, exec dragEnd w).
Proof.
  intros H N.
  pose proof (dragEnd_completion w controller H N) as C.
  transitivity (fst (dragEnd w), snd (dragEnd w)); [apply surjective_pairing|].
  f_equal. exact C.
Qed.

Lemma dragEnd_closes (w : World) (controller : AbortController) :
  beingDraggedRemote (this w) = Some controller ->
  let w' := exec dragEnd w in
  style_transition (rail (dom (this w'))) = ""
  /\ touchId (this w') = 0
  /\ beingDraggedRemote (this w') = None
  /\ draggableRemote (this w') = draggableRemote (this w)
  /\ listeners (window w')
     = filter (fun l => negb (Nat.eqb (listener_signal l) controller)) (listeners (window w))
  /\ activeIndex (this w')
     = threshold_rule (List.length (slides (dom (this w))))
         (rect_left (layout (window w) (released (dom (this w))) Viewport))
         (fun index => rect_left (layout (window w) (released (dom (this w))) (Slide index))).
Proof.
  intros H. cbv zeta. rewrite (exec_congr _ _ _ _ (dragEnd_unfold w controller H)).
  generalize (threshold_rule (List.length (slides (dom (this w))))
         (rect_left (layout (window w) (released (dom (this w))) Viewport))
         (fun index => rect_left (layout (window w) (released (dom (this w))) (Slide index)))).
  intros index.
  destruct (slideTransition_keeps (goto index (drag_closed controller w)))
    as (K1 & K2 & K3 & K4 & K5 & K6).
  rewrite K1, K2, K3, K4, K5, K6. repeat split; reflexivity.
Qed.

(** C1.  When a drag ends on a widget of N >= 1 slides, [dragEnd] completes
    and commits the index given by the threshold rule on the geometry
    measured once the rail transition is restored: the earliest index among
    0 .. N-2 whose left edge is at or right of the viewport's left edge,
    and N-1 when no index of that range qualifies.  In particular, when
    slide 0's left edge is left of the viewport's left edge (negative, for
    a viewport at 0) and slide 1's is at or right of it, the committed
    index is 1. *)
Theorem dragEnd_threshold_rule (w : World) (controller : AbortController) :
  beingDraggedRemote (this w) = Some controller ->
  (1 <= List.length (slides (dom (this w))))%nat ->
  let n := List.length (slides (dom (this w))) in
  let measured := layout (window w) (released (dom (this w))) in
  let threshold := rect_left (measured Viewport) in
  let slideLeft := fun index => rect_left (measured (Slide index)) in
  let committed := activeIndex (this (exec dragEnd w)) in
  completion dragEnd w = Normal tt
  /\ committed = threshold_rule n threshold slideLeft
  /\ (forall i, (i < n - 1)%nat -> threshold <= slideLeft i ->
                (forall j, (j < i)%nat -> slideLeft j < threshold) ->
                committed = Z.of_nat i)
  /\ ((forall j, (j < n - 1)%nat -> slideLeft j < threshold) ->
      committed = Z.of_nat n - 1)
  /\ ((2 <= n)%nat -> slideLeft 0%nat < threshold -> threshold <= slideLeft 1%nat ->
      committed = 1)
  /\ ((2 <= n)%nat -> threshold = 0 -> slideLeft 0%nat < 0 -> 0 <= slideLeft 1%nat ->
      committed = 1).
Proof.
  intros H N. cbv zeta.
  destruct (dragEnd_closes w controller H) as (_ & _ & _ & _ & _ & C).
  pose proof (dragEnd_completes w controller H N) as D.
  revert C D.
  generalize (activeIndex (this (exec dragEnd w))).
  generalize (List.length (slides (dom (this w)))).
  generalize (layout (window w) (released (dom (this w)))).
  intros measured n committed C D.
  assert (P : (2 <= n)%nat ->
              rect_left (measured (Slide 0)) < rect_left (measured Viewport) ->
              rect_left (measured Viewport) <= rect_left (measured (Slide 1)) ->
              committed = 1).
  { intros N2 L0 L1. rewrite C. destruct (Nat.eq_dec n 2) as [E|E].
    - rewrite threshold_rule_last; [f_equal; lia|]. intros j Hj.
      replace j with 0%nat by lia. exact L0.
    - rewrite (threshold_rule_earliest n _ _ 1); [reflexivity | lia | exact L1 |].
      intros j Hj. replace j with 0%nat by lia. exact L0. }
  split; [exact (f_equal fst D)|].
  split; [exact C|]. split.
  { intros i R Q B. rewrite C. f_equal. now apply (threshold_rule_earliest n _ _ i). }
  split.
  { intros B. rewrite C. f_equal. now apply (threshold_rule_last n). }
  split; [exact P|].
  intros N2 T L0 L1. apply P; [exact N2 | lia | lia].
Qed.

Lemma dragEnd_threshold_rule_witness :
  activeIndex (this (exec dragEnd (exec (dragStart 150) (page 5 (flat_layout 0 (-40)))))) = 1.
Proof.
  assert (H : beingDraggedRemote (this (exec (dragStart 150) (page 5 (flat_layout 0 (-40)))))
              = Some 1%nat) by reflexivity.
  assert (N : (1 <= List.length (slides (dom (this (exec (dragStart 150)
                                                     (page 5 (flat_layout 0 (-40))))))))%nat)
    by (vm_compute; lia).
  destruct (dragEnd_threshold_rule _ 1%nat H N) as (_ & _ & _ & _ & P & _).
  apply P; [vm_compute; lia | vm_compute; reflexivity | vm_compute; discriminate].
Defined.

(** ** Frames *)

Lemma preserves_ret {A V : Type} (view : World -> V) (a : A) : preserves view (ret a).
Proof. intros w. reflexivity. Qed.

Lemma preserves_throw {A V : Type} (view : World -> V) (e : Exception) :
  preserves view (@throw A e).
Proof. intros w. reflexivity. Qed.

Lemma preserves_bind {A B V : Type} (view : World -> V) (c : M A) (k : A -> M B) :
  preserves view c -> (forall a, preserves view (k a)) -> preserves view (bind c k).
Proof.
  intros Hc Hk w. specialize (Hc w). unfold exec, bind in *.
  destruct (c w) as [[a|e] w1]; cbn in *.
  - rewrite <- Hc. apply Hk.
  - exact Hc.
Qed.

Lemma preserves_when {V : Type} (view : World -> V) (b : bool) (c : M unit) :
  preserves view c -> preserves view (when b c).
Proof. intros H. destruct b; [exact H | apply preserves_ret]. Qed.

Ltac head_of t :=
  lazymatch t with
  | ?f _ => head_of f
  | _ => t
  end.

(** Decompose a method body along its binds and branches; a leaf either is
    a known frame fact or leaves the view alone by computation. *)
Ltac frame :=
  lazymatch goal with
  | |- preserves _ (bind _ _) => apply preserves_bind; [frame | intros ?; frame]
  | |- preserves _ (when _ _) => apply preserves_when; frame
  | |- preserves _ (ret _) => apply preserves_ret
  | |- preserves _ (throw _) => apply preserves_throw
  | |- preserves _ (if ?b then _ else _) => destruct b; frame
  | |- preserves _ (match ?x with _ => _ end) => destruct x; frame
  | |- preserves _ ?c =>
      first [ solve [auto with frame]
            | solve [intros ?; reflexivity]
            | let h := head_of c in unfold h; frame ]
  end.

Create HintDb frame.

(** The tracked touch identity and the session handle. *)

Lemma slideTransition_tracking : preserves tracking slideTransition.
Proof.
  intros w. pose proof (slideTransition_frame w) as F. unfold beyond_commit in F.
  unfold tracking. congruence.
Qed.
#[local] Hint Resolve slideTransition_tracking : frame.

Lemma nextSlide_tracking : preserves tracking nextSlide.
Proof. frame. Qed.

Lemma previousSlide_tracking : preserves tracking previousSlide.
Proof. frame. Qed.

Lemma changeSlide_tracking index : preserves tracking (changeSlide index).
Proof. frame. Qed.

Lemma refresh_tracking : preserves tracking refresh.
Proof. frame. Qed.

Lemma dragUpdate_tracking x : preserves tracking (dragUpdate x).
Proof. frame. Qed.

Lemma enableDragging_tracking : preserves tracking enableDragging.
Proof. frame. Qed.
#[local] Hint Resolve nextSlide_tracking previousSlide_tracking changeSlide_tracking
  refresh_tracking dragUpdate_tracking enableDragging_tracking : frame.

Lemma autoplay_tick_tracking : preserves tracking autoplay_tick.
Proof. frame. Qed.

Lemma startAutoplay_tracking delay : preserves tracking (startAutoplay delay).
Proof. frame. Qed.

Lemma stopAutoplay_tracking : preserves tracking stopAutoplay.
Proof. frame. Qed.

Lemma setFullWidthSlide_tracking flag : preserves tracking (setFullWidthSlide flag).
Proof. frame. Qed.

Lemma addBullets_tracking : preserves tracking addBullets.
Proof. frame. Qed.

Lemma removeBullets_tracking : preserves tracking removeBullets.
Proof. frame. Qed.

Lemma changeAnimation_slide_tracking : preserves tracking (changeAnimation slide).
Proof. frame. Qed.
#[local] Hint Resolve autoplay_tick_tracking startAutoplay_tracking stopAutoplay_tracking
  setFullWidthSlide_tracking addBullets_tracking removeBullets_tracking
  changeAnimation_slide_tracking : frame.

(** ** Dragging: starting, ending and disabling *)

Lemma dragStart_while_dragging (w : World) (controller : AbortController) (x : Z) :
  beingDraggedRemote (this w) = Some controller -> dragStart x w = (Normal tt, w).
Proof. intros H. unfold dragStart. unfold_m. cbn. now rewrite H. Qed.

(** What a drag-start request does while a session is active: a mouse-down
    changes nothing; a touch-start changes nothing when a touch is tracked,
    and otherwise overwrites the tracked identity and nothing else. *)
Lemma start_request_while_dragging (w : World) (controller : AbortController) :
  beingDraggedRemote (this w) = Some controller ->
  (forall x, on_mousedown x w = (Normal tt, w))
  /\ (forall touches, touchId (this w) <> 0 -> on_touchstart touches w = (Normal tt, w))
  /\ (forall touch rest, touchId (this w) = 0 ->
        on_touchstart (touch :: rest) w
        = (Normal tt, Build_World (set_touchId (identifier touch) (this w)) (window w))).
Proof.
  intros H. split; [|split].
  - intros x. now apply dragStart_while_dragging with controller.
  - intros touches T. unfold on_touchstart. unfold_m. cbn.
    destruct (Z.eqb_spec (touchId (this w)) 0); [contradiction | reflexivity].
  - intros touch rest T. unfold on_touchstart, dragStart. unfold_m. cbn.
    rewrite T. cbn. rewrite H. reflexivity.
Qed.

(** C7, the failing input.  A mouse-down at x = 10 opens a session (handle
    2, start coordinate 10, no tracked touch).  A touch-start of touch 5
    arriving during that session leaves the handle and the start coordinate
    alone but makes 5 the tracked identity, and the next move of that touch
    then drags the rail from the mouse's start coordinate. *)
Example touchstart_rekeys_active_session :
  let w0 := exec enableDragging (page 5 (flat_layout 0 0)) in
  let w1 := dispatch (MouseDown 10) w0 in
  let w2 := dispatch (TouchStart [Build_Touch 5 100]) w1 in
  let w3 := dispatch (TouchMove [Build_Touch 5 300]) w2 in
  (beingDraggedRemote (this w1), dragStartingPoint (this w1), touchId (this w1))
  = (Some 2%nat, 10, 0)
  /\ (beingDraggedRemote (this w2), dragStartingPoint (this w2), touchId (this w2))
     = (Some 2%nat, 10, 5)
  /\ touchId (this w2) <> touchId (this w1)
  /\ style_left (rail (dom (this w3))) = "290px".
Proof. vm_compute. repeat split; discriminate. Qed.

(** C8.  Called during a drag (on a widget with at least one slide),
    [disableDragging] first runs exactly the [dragEnd] a mouse-up runs: the
    rail transition is restored, the tracked identity and the session
    handle are cleared, the listeners of the session are removed and the
    index given by the threshold rule is committed, all while the start
    listeners are still registered; only then are the start listeners
    aborted and their handle cleared.  Without dragging enabled
    [disableDragging] changes nothing, and [dragEnd] without a session
    changes nothing and throws nothing. *)
Theorem disableDragging_ends_drag (w : World) :
  (forall starting dragging,
      draggableRemote (this w) = Some starting ->
      beingDraggedRemote (this w) = Some dragging ->
      (1 <= List.length (slides (dom (this w))))%nat ->
      let w1 := exec on_mouseup w in
      disableDragging w = (Normal tt, detached starting w1)
      /\ on_mouseup w = (Normal tt, w1)
      /\ style_transition (rail (dom (this w1))) = ""
      /\ touchId (this w1) = 0
      /\ beingDraggedRemote (this w1) = None
      /\ draggableRemote (this w1) = Some starting
      /\ listeners (window w1)
         = filter (fun l => negb (Nat.eqb (listener_signal l) dragging))
                  (listeners (window w))
      /\ activeIndex (this w1)
         = threshold_rule (List.length (slides (dom (this w))))
             (rect_left (layout (window w) (released (dom (this w))) Viewport))
             (fun index => rect_left (layout (window w) (released (dom (this w)))
                                        (Slide index)))
      /\ activeIndex (this (detached starting w1)) = activeIndex (this w1))
  /\ (draggableRemote (this w) = None -> disableDragging w = (Normal tt, w))
  /\ (beingDraggedRemote (this w) = None -> dragEnd w = (Normal tt, w)).
Proof.
  split; [|split].
  - intros starting dragging S D N. cbv zeta. unfold on_mouseup.
    pose proof (dragEnd_completes w dragging D N) as C.
    destruct (dragEnd_closes w dragging D) as (C1 & C2 & C3 & C4 & C5 & C6).
    split.
    { unfold disableDragging. unfold bind at 1. unfold read at 1. rewrite S.
      unfold bind at 1. rewrite C. unfold abort, detached. unfold_m. reflexivity. }
    split; [exact C|].
    rewrite C4, S. repeat split; assumption || reflexivity.
  - intros S. unfold disableDragging. unfold_m. cbn. now rewrite S.
  - apply dragEnd_idle.
Qed.

Lemma disableDragging_ends_drag_witness :
  let w := dispatch (MouseDown 150) (exec enableDragging (page 5 (flat_layout 0 (-40)))) in
  let w' := exec disableDragging w in
  listeners (window w) <> [] /\ listeners (window w') = []
  /\ activeIndex (this w') = 1
  /\ disableDragging w' = (Normal tt, w')
  /\ dragEnd w' = (Normal tt, w').
Proof.
  intros w w'.
  assert (S : draggableRemote (this w) = Some 1%nat) by reflexivity.
  assert (D : beingDraggedRemote (this w) = Some 2%nat) by reflexivity.
  assert (N : (1 <= List.length (slides (dom (this w))))%nat) by (vm_compute; lia).
  destruct (disableDragging_ends_drag w) as (H & _).
  destruct (H _ _ S D N) as (E & _).
  destruct (disableDragging_ends_drag w') as (_ & H1 & H2).
  split; [vm_compute; discriminate|].
  split; [unfold w', exec; rewrite E; reflexivity|].
  split; [unfold w', exec; rewrite E; reflexivity|].
  split; [apply H1; reflexivity | apply H2; reflexivity].
Defined.

(** ** Dragging: a touch whose identifier is the sentinel *)

Lemma on_resize_tracking : preserves tracking on_resize.
Proof. frame. Qed.

Lemma run_callback_tracking (c : Callback) : preserves tracking (run_callback c).
Proof. destruct c; cbn [run_callback]; auto with frame. Qed.

Lemma fire_tracking (t : Timer) (w : World) : tracking (fire t w) = tracking w.
Proof.
  unfold fire. destruct (pending _ _); [|reflexivity].
  pose proof (run_callback_tracking (timer_callback t) w) as H.
  destruct (timer_every t); exact H.
Qed.

Lemma fold_fire_tracking (due : list Timer) :
  forall w, tracking (fold_left (fun w t => fire t w) due w) = tracking w.
Proof.
  induction due as [|t due IH]; intros w; cbn [fold_left]; [reflexivity|].
  rewrite IH. apply fire_tracking.
Qed.

Lemma tick_tracking (w : World) : tracking (tick w) = tracking w.
Proof. unfold tick. now rewrite fold_fire_tracking. Qed.

Lemma wait_tracking (ms : nat) : forall w, tracking (wait ms w) = tracking w.
Proof.
  induction ms as [|ms IH]; intros w; cbn [wait]; [reflexivity|].
  rewrite IH. apply tick_tracking.
Qed.

(** A dispatch keeps whatever every run of the handler keeps. *)
Lemma invoke_invariant (P : World -> Prop) (e : Event) :
  (forall w, P w -> P (exec (handler e) w)) ->
  forall snapshot w, P w -> P (invoke e snapshot w).
Proof.
  intros H snapshot. induction snapshot as [|l rest IH]; intros w Pw; cbn [invoke].
  - exact Pw.
  - apply IH. destruct (registered l w); [now apply H | exact Pw].
Qed.

Lemma dispatch_invariant (P : World -> Prop) (e : Event) :
  (forall w, P w -> P (exec (handler e) w)) ->
  forall w, P w -> P (dispatch e w).
Proof. intros H w. unfold dispatch. now apply invoke_invariant. Qed.

Lemma findTouch_sentinel (w : World) (touches : list Touch) :
  touchId (this w) = 0 -> findTouch touches w = (Normal None, w).
Proof. intros H. unfold findTouch. unfold_m. cbn. now rewrite H. Qed.


Lemma keeps_session_step (tracked : option AbortController) (w : World) (i : Input) :
  keeps_session i ->
  tracking w = (0, tracked) -> tracked <> None ->
  tracking (step w i) = (0, tracked).
Proof.
  intros K T S.
  assert (Id : touchId (this w) = 0) by (unfold tracking in T; congruence).
  assert (D : exists c, beingDraggedRemote (this w) = Some c).
  { unfold tracking in T. destruct tracked as [c|]; [|contradiction]. exists c. congruence. }
  destruct D as [c D].
  destruct i as [e| |ms|m|l]; cbn [step].
  - (* an event *)
    apply (dispatch_invariant (fun w' => tracking w' = (0, tracked))); [|exact T].
    clear w T Id c D. intros w T.
    assert (Id : touchId (this w) = 0) by (unfold tracking in T; congruence).
    assert (D : exists c, beingDraggedRemote (this w) = Some c).
    { unfold tracking in T. destruct tracked as [c|]; [|contradiction]. exists c. congruence. }
    destruct D as [c D].
    destruct e as [ts|ts|ts|x|x|x|x]; cbn [keeps_session] in K; try contradiction;
      cbn [handler].
    + unfold exec, on_touchmove, bind. now rewrite findTouch_sentinel.
    + unfold exec, on_touchend, bind. now rewrite findTouch_sentinel.
    + unfold exec, on_mousedown. now rewrite (dragStart_while_dragging w c).
    + rewrite <- T. apply dragUpdate_tracking.
  - rewrite <- T. apply on_resize_tracking.
  - rewrite <- T. apply wait_tracking.
  - rewrite <- T.
    destruct m as [| |index| | |a|flag| | |delay| |]; cbn [keeps_session] in K;
      try contradiction; cbn [call].
    + apply nextSlide_tracking.
    + apply previousSlide_tracking.
    + apply changeSlide_tracking.
    + apply enableDragging_tracking.
    + destruct a; [contradiction | apply changeAnimation_slide_tracking].
    + apply setFullWidthSlide_tracking.
    + apply addBullets_tracking.
    + apply removeBullets_tracking.
    + apply startAutoplay_tracking.
    + apply stopAutoplay_tracking.
    + apply refresh_tracking.
  - exact T.
Qed.

Lemma keeps_session_run (tracked : option AbortController) (inputs : list Input) :
  Forall keeps_session inputs -> tracked <> None ->
  forall w, tracking w = (0, tracked) -> tracking (run inputs w) = (0, tracked).
Proof.
  intros F S. induction F as [|i inputs K F IH]; intros w T; cbn [run fold_left].
  - exact T.
  - apply IH. now apply keeps_session_step.
Qed.

(** ** Autoplay *)

Lemma slideTransition_sets_flag (w : World) :
  skipNextAutoplay (this (exec slideTransition w)) = true.
Proof.
  unfold exec, slideTransition, updateActive, computeSlideLeft. unfold_m. cbn.
  destruct (animation_is _ _); cbn; [|reflexivity].
  destruct (array_at _ _); reflexivity.
Qed.

Lemma nextSlide_sets_flag (w : World) : skipNextAutoplay (this (exec nextSlide w)) = true.
Proof.
  destruct (nextSlide_commits w) as [index E].
  unfold exec. rewrite E. apply slideTransition_sets_flag.
Qed.

Lemma bind_normal {A B : Type} (c : M A) (k : A -> M B) (w w1 : World) (a : A) :
  c w = (Normal a, w1) -> bind c k w = k a w1.
Proof. intros H. unfold bind. now rewrite H. Qed.

Lemma nextSlide_completes (w : World) :
  in_range (this w) -> nextSlide w = (Normal tt, exec nextSlide w).
Proof.
  intros R. destruct (nextSlide_step w R) as (C & _).
  transitivity (fst (nextSlide w), snd (nextSlide w)); [apply surjective_pairing|].
  f_equal. exact C.
Qed.

Lemma startAutoplay_position delay : preserves position (startAutoplay delay).
Proof. frame. Qed.

Lemma invalid_delay_rejected (delay : Number) :
  non_positive delay \/ non_integer delay ->
  negb (Number_isSafeInteger delay) || Number_lt_1 delay = true.
Proof.
  destruct delay as [q| |negative]; [|reflexivity|].
  - intros [H|H]; apply orb_true_iff.
    + right. apply Z.ltb_lt. unfold non_positive, Qle in H. cbn in H. lia.
    + left. apply negb_true_iff. apply andb_false_iff. left.
      unfold Q_is_integer. apply Z.eqb_neq. intros R.
      apply (H (Z.quot (Qnum q) (Zpos (Qden q)))).
      unfold Qeq. cbn. apply Z.quot_exact in R; lia.
  - intros _. reflexivity.
Qed.

Lemma valid_delay_accepted (z : Z) :
  1 <= z <= MAX_SAFE_INTEGER ->
  negb (Number_isSafeInteger (Finite (inject_Z z))) || Number_lt_1 (Finite (inject_Z z)) = false
  /\ Number_to_Z (Finite (inject_Z z)) = z.
Proof.
  intros H. unfold Number_isSafeInteger, Number_lt_1, Number_to_Z, Q_is_integer, Q_to_Z.
  cbn [inject_Z Qnum Qden]. rewrite Z.rem_1_r, Z.quot_1_r. cbn [Z.eqb andb].
  destruct (Z.leb_spec (Z.abs z) MAX_SAFE_INTEGER); [|lia].
  destruct (Z.ltb_spec z 1); [lia|]. split; reflexivity.
Qed.

Lemma timer_delay_small (delay : Z) : 0 <= delay < 2 ^ 31 -> timer_delay delay = delay.
Proof.
  intros H. unfold timer_delay, ToInt32.
  rewrite Z.mod_small by lia. lia.
Qed.

(** C6.  A tick of the autoplay timer that finds the suppression flag set
    clears it and leaves everything else, the active index included, as it
    was; a tick that finds it clear runs [nextSlide] and ends with the flag
    clear.  [startAutoplay] with a positive safe integer delay clears the
    flag and arms an interval timer for the tick, with the delay as the
    browser takes it (the delay itself up to [2 ^ 31 - 1]); after
    one manual [nextSlide] the first tick does not advance and the second
    tick advances by one.  A delay that is not positive or not an integer
    makes [startAutoplay] throw the validation error with the world, its
    timers included, unchanged. *)
Theorem autoplay_suppressed_once (w : World) :
  (skipNextAutoplay (this w) = true ->
   autoplay_tick w
   = (Normal tt, Build_World (set_skipNextAutoplay false (this w)) (window w)))
  /\ (skipNextAutoplay (this w) = false -> in_range (this w) ->
      autoplay_tick w
      = (Normal tt,
         Build_World (set_skipNextAutoplay false (this (exec nextSlide w)))
                     (window (exec nextSlide w))))
  /\ (forall delay : Z, 1 <= delay <= MAX_SAFE_INTEGER -> in_range (this w) ->
      let n := Z.of_nat (List.length (slides (dom (this w)))) in
      let w1 := exec (startAutoplay (Finite (inject_Z delay))) w in
      let w2 := exec nextSlide w1 in
      let w3 := exec autoplay_tick w2 in
      let w4 := exec autoplay_tick w3 in
      completion (startAutoplay (Finite (inject_Z delay))) w = Normal tt
      /\ skipNextAutoplay (this w1) = false
      /\ (exists earlier,
             timers (window w1)
             = earlier ++ [Build_Timer (autoplayId (this w1))
                             (now (window w) + timer_delay delay)
                             (Some (timer_delay delay)) AutoplayTick])
      /\ (delay <= 2 ^ 31 - 1 -> timer_delay delay = delay)
      /\ skipNextAutoplay (this w2) = true
      /\ activeIndex (this w3) = activeIndex (this w2)
      /\ skipNextAutoplay (this w3) = false
      /\ activeIndex (this w4)
         = navigate n (Number_to_Z (activeIndex (this w2))) call_nextSlide
      /\ skipNextAutoplay (this w4) = false)
  /\ (forall delay : Number, non_positive delay \/ non_integer delay ->
      startAutoplay delay w = (Throw ValidationError, w)).
Proof.
  assert (Set_flag : forall w, skipNextAutoplay (this w) = true ->
            autoplay_tick w
            = (Normal tt, Build_World (set_skipNextAutoplay false (this w)) (window w))).
  { intros v H. unfold autoplay_tick. unfold_m. cbn. now rewrite H. }
  assert (Clear_flag : forall w, skipNextAutoplay (this w) = false -> in_range (this w) ->
            autoplay_tick w
            = (Normal tt,
               Build_World (set_skipNextAutoplay false (this (exec nextSlide w)))
                           (window (exec nextSlide w)))).
  { intros v H R. unfold autoplay_tick.
    rewrite (bind_normal _ _ v v false) by (unfold read; now rewrite H).
    cbn [negb when].
    rewrite (bind_normal _ _ v (exec nextSlide v) tt) by now apply nextSlide_completes.
    reflexivity. }
  split; [apply Set_flag|]. split; [apply Clear_flag|]. split.
  - intros delay V R. cbv zeta.
    destruct (valid_delay_accepted delay V) as [Ok Val].
    set (d := Finite (inject_Z delay)) in *.
    assert (S : completion (startAutoplay d) w = Normal tt
                /\ skipNextAutoplay (this (exec (startAutoplay d) w)) = false
                /\ exists earlier,
                    timers (window (exec (startAutoplay d) w))
                    = earlier ++ [Build_Timer (autoplayId (this (exec (startAutoplay d) w)))
                                    (now (window w) + timer_delay delay)
                                    (Some (timer_delay delay)) AutoplayTick]).
    { unfold startAutoplay. rewrite Ok, Val.
      unfold stopAutoplay, setInterval, add_timer, clearInterval, clearTimeout.
      unfold_m. cbn. destruct (autoplayId (this w) =? 0); cbn;
        (split; [reflexivity | split; [reflexivity | eexists; reflexivity]]). }
    destruct S as (S1 & S2 & S3).
    pose proof (startAutoplay_position d w) as P. unfold position in P.
    injection P as P1 P2.
    set (w1 := exec (startAutoplay d) w) in *.
    assert (R1 : in_range (this w1)) by (unfold in_range in *; rewrite P1, P2; exact R).
    destruct (nextSlide_step w1 R1) as (_ & _ & N1 & N2 & R2).
    set (w2 := exec nextSlide w1) in *.
    pose proof (nextSlide_sets_flag w1) as F2. fold w2 in F2.
    pose proof (Set_flag w2 F2) as T3.
    assert (E3 : exec autoplay_tick w2
                 = Build_World (set_skipNextAutoplay false (this w2)) (window w2))
      by (unfold exec; now rewrite T3).
    set (w3 := exec autoplay_tick w2) in *.
    assert (F3 : skipNextAutoplay (this w3) = false) by (rewrite E3; reflexivity).
    assert (R3 : in_range (this w3)) by (rewrite E3; exact R2).
    pose proof (Clear_flag w3 F3 R3) as T4.
    destruct (nextSlide_step w3 R3) as (_ & _ & N3 & _).
    split; [exact S1|]. split; [exact S2|]. split; [exact S3|].
    split; [intros Small; apply timer_delay_small; lia|]. split; [exact F2|].
    split; [rewrite E3; reflexivity|]. split; [exact F3|].
    assert (E4 : exec autoplay_tick w3
                 = Build_World (set_skipNextAutoplay false (this (exec nextSlide w3)))
                               (window (exec nextSlide w3)))
      by exact (f_equal snd T4).
    rewrite E4. split; [|reflexivity].
    change (activeIndex (this (exec nextSlide w3))
            = navigate (Z.of_nat (List.length (slides (dom (this w)))))
                       (Number_to_Z (activeIndex (this w2))) call_nextSlide).
    rewrite N3, E3. cbn [this dom slides activeIndex set_skipNextAutoplay].
    rewrite N2, P2. reflexivity.
  - intros delay H. unfold startAutoplay. rewrite (invalid_delay_rejected delay H).
    reflexivity.
Qed.

Lemma autoplay_suppressed_once_witness :
  let w := page 5 (flat_layout 0 0) in
  let started := exec (startAutoplay (Finite (inject_Z 1000))) w in
  let suppressed := wait 1000 (exec nextSlide started) in
  let advanced := wait 1000 suppressed in
  (activeIndex (this suppressed), fired (window suppressed))
  = (Number_of_Z 1, [AutoplayTick])
  /\ (activeIndex (this advanced), fired (window advanced))
     = (Number_of_Z 2, [AutoplayTick; AutoplayTick])
  /\ activeIndex (this (exec autoplay_tick (exec autoplay_tick (exec nextSlide started)))) = 2
  /\ startAutoplay (Finite 0) w = (Throw ValidationError, w)
  /\ startAutoplay (Finite (-5 # 1)) w = (Throw ValidationError, w)
  /\ startAutoplay (Finite (3 # 2)) w = (Throw ValidationError, w).
Proof.
  intros w started suppressed advanced.
  destruct (autoplay_suppressed_once w) as (_ & _ & H & V).
  assert (R : in_range (this w)) by (exists 0; split; [reflexivity | cbn; lia]).
  assert (D : 1 <= 1000 <= MAX_SAFE_INTEGER) by (unfold MAX_SAFE_INTEGER; lia).
  destruct (H 1000 D R) as (_ & _ & _ & _ & _ & _ & _ & A & _).
  split; [vm_compute; reflexivity|]. split; [vm_compute; reflexivity|].
  split; [etransitivity; [exact A | vm_compute; reflexivity]|].
  split; [|split].
  - apply V. left. cbn. unfold Qle. cbn. lia.
  - apply V. left. cbn. unfold Qle. cbn. lia.
  - apply V. right. cbn. intros z E. unfold Qeq in E. cbn in E. lia.
Defined.

(** ** The debounced resize listener *)

(** *** Lists of timers *)

Lemma filter_comm {A : Type} (f g : A -> bool) (l : list A) :
  filter f (filter g l) = filter g (filter f l).
Proof.
  induction l as [|a l IH]; cbn; [reflexivity|].
  destruct (f a) eqn:F, (g a) eqn:G; cbn; rewrite ?F, ?G, IH; reflexivity.
Qed.

Lemma filter_all {A : Type} (f : A -> bool) (l : list A) :
  Forall (fun a => f a = true) l -> filter f l = l.
Proof.
  induction 1 as [|a l H _ IH]; cbn; [reflexivity|]. now rewrite H, IH.
Qed.

Lemma filter_singleton_split {A : Type} (f : A -> bool) (l : list A) (x : A) :
  filter f l = [x] ->
  exists before after,
    l = before ++ x :: after
    /\ Forall (fun a => f a = false) before
    /\ Forall (fun a => f a = false) after.
Proof.
  induction l as [|a l IH]; cbn; [discriminate|].
  destruct (f a) eqn:F.
  - intros [= -> E]. exists [], l. repeat split; [constructor|].
    clear IH. induction l as [|b l IH]; [constructor|].
    cbn in E. destruct (f b) eqn:G; [discriminate|]. constructor; auto.
  - intros E. destruct (IH E) as (before & after & -> & B & C).
    exists (a :: before), after. repeat split; [constructor; assumption | assumption].
Qed.

Lemma ids_filter (id : Z) (l : list Timer) :
  map timer_id (filter (fun t => negb (timer_id t =? id)) l)
  = filter (fun i => negb (i =? id)) (map timer_id l).
Proof.
  induction l as [|t l IH]; cbn; [reflexivity|].
  destruct (timer_id t =? id); cbn; now rewrite IH.
Qed.

Lemma ids_rearm (id due : Z) (l : list Timer) :
  map timer_id (map (rearm id due) l) = map timer_id l.
Proof.
  induction l as [|t l IH]; cbn; [reflexivity|]. rewrite IH. f_equal.
  unfold rearm. destruct (timer_id t =? id); reflexivity.
Qed.

Lemma resize_timers_rearm (id due : Z) (l : list Timer) :
  filter is_resize_timer (map (rearm id due) l)
  = map (rearm id due) (filter is_resize_timer l).
Proof.
  induction l as [|t l IH]; cbn; [reflexivity|].
  assert (E : is_resize_timer (rearm id due t) = is_resize_timer t)
    by (unfold rearm; destruct (timer_id t =? id); reflexivity).
  rewrite E. destruct (is_resize_timer t); cbn; now rewrite IH.
Qed.

Lemma not_resize_is_autoplay (t : Timer) :
  is_resize_timer t = false -> timer_callback t = AutoplayTick.
Proof. unfold is_resize_timer. destruct (timer_callback t); [reflexivity | discriminate]. Qed.

(** Handles are distinct: a timer with the handle of the resize timer is
    the resize timer. *)
Lemma same_id_same_timer (l : list Timer) (a b : Timer) :
  NoDup (map timer_id l) -> In a l -> In b l -> timer_id a = timer_id b -> a = b.
Proof.
  induction l as [|t l IH]; cbn; [contradiction|].
  intros N [->|A] [->|B] E; inversion N as [|? ? X Y]; subst.
  - reflexivity.
  - exfalso. apply X. rewrite E. now apply in_map.
  - exfalso. apply X. rewrite <- E. now apply in_map.
  - now apply IH.
Qed.

Lemma timers_ok_filter (w : World) (id : Z) (b : Browser) :
  timers_ok w ->
  timer_ids b = timer_ids (window w) ->
  timers b = filter (fun t => negb (timer_id t =? id)) (timers (window w)) ->
  forall o, timers_ok (Build_World o b).
Proof.
  intros (K1 & K2 & K3) E1 E2 o. unfold timers_ok. cbn. rewrite E1, E2.
  split; [exact K1|]. split.
  - apply Forall_forall. intros t T. apply filter_In in T.
    rewrite Forall_forall in K2. now apply K2.
  - rewrite ids_filter. now apply NoDup_filter.
Qed.

(** *** One timer task *)

Lemma slideTransition_schedule : preserves schedule slideTransition.
Proof.
  intros w. pose proof (slideTransition_frame w) as F. unfold beyond_commit in F.
  unfold schedule. congruence.
Qed.
#[local] Hint Resolve slideTransition_schedule : frame.

Lemma autoplay_tick_schedule : preserves schedule autoplay_tick.
Proof. frame. Qed.

Lemma timers_ok_rearm (w : World) (id due : Z) (b : Browser) :
  timers_ok w ->
  timer_ids b = timer_ids (window w) ->
  timers b = map (rearm id due) (timers (window w)) ->
  forall o, timers_ok (Build_World o b).
Proof.
  intros (K1 & K2 & K3) E1 E2 o. unfold timers_ok. cbn. rewrite E1, E2.
  split; [exact K1|]. split.
  - apply Forall_forall. intros t T. apply in_map_iff in T. destruct T as (u & <- & U).
    rewrite Forall_forall in K2. specialize (K2 u U).
    unfold rearm. destruct (timer_id u =? id); exact K2.
  - now rewrite ids_rearm.
Qed.

(** A tick of the autoplay timer, or of any timer other than the pending
    resize timer, leaves the pending reconciliation pending. *)
Lemma fire_autoplay_armed (t : Timer) (w : World) (id due : Z) :
  timer_callback t = AutoplayTick -> timer_id t <> id ->
  armed id due w ->
  armed id due (fire t w)
  /\ passes (fire t w) = passes w
  /\ now (window (fire t w)) = now (window w).
Proof.
  intros C N A. unfold fire. destruct (pending _ _); [|auto].
  rewrite C. cbn [run_callback].
  pose proof (autoplay_tick_schedule w) as S. unfold schedule in S.
  injection S as S1 S2 _.
  set (w1 := exec autoplay_tick w) in *.
  destruct A as (K & R & P & F).
  destruct (timer_every t) as [delay|].
  - cbn. rewrite S1. split; [|split; reflexivity].
    split; [|split; [|split]].
    + eapply timers_ok_rearm; [exact K | reflexivity | reflexivity].
    + cbn. congruence.
    + exact P.
    + cbn. rewrite resize_timers_rearm, F. cbn. unfold rearm. cbn.
      destruct (Z.eqb_spec id (timer_id t)); [congruence | reflexivity].
  - unfold exec, clearTimeout. unfold_m. cbn. rewrite S1. cbn.
    split; [|split; reflexivity].
    split; [|split; [|split]].
    + eapply timers_ok_filter; [exact K | reflexivity | reflexivity].
    + cbn. congruence.
    + exact P.
    + cbn. rewrite filter_comm, F. cbn.
      destruct (Z.eqb_spec id (timer_id t)); [congruence | reflexivity].
Qed.

Lemma fire_autoplay_quiescent (t : Timer) (w : World) :
  timer_callback t = AutoplayTick ->
  quiescent w ->
  quiescent (fire t w)
  /\ passes (fire t w) = passes w
  /\ now (window (fire t w)) = now (window w).
Proof.
  intros C Q. unfold fire. destruct (pending _ _); [|auto].
  rewrite C. cbn [run_callback].
  pose proof (autoplay_tick_schedule w) as S. unfold schedule in S.
  injection S as S1 S2 _.
  set (w1 := exec autoplay_tick w) in *.
  destruct Q as (K & R & F).
  destruct (timer_every t) as [delay|].
  - cbn. rewrite S1. split; [|split; reflexivity].
    split; [|split].
    + eapply timers_ok_rearm; [exact K | reflexivity | reflexivity].
    + cbn. congruence.
    + cbn. now rewrite resize_timers_rearm, F.
  - unfold exec, clearTimeout. unfold_m. cbn. rewrite S1. cbn.
    split; [|split; reflexivity].
    split; [|split].
    + eapply timers_ok_filter; [exact K | reflexivity | reflexivity].
    + cbn. congruence.
    + cbn. now rewrite filter_comm, F.
Qed.

Lemma bound_filter (P : Timer -> Prop) (f : Timer -> bool) (l : list Timer) :
  Forall P l -> Forall P (filter f l).
Proof.
  intros H. apply Forall_forall. intros t T. apply filter_In in T.
  rewrite Forall_forall in H. now apply H.
Qed.

Lemma nodup_ids_filter (id : Z) (l : list Timer) :
  NoDup (map timer_id l) ->
  NoDup (map timer_id (filter (fun t => negb (timer_id t =? id)) l)).
Proof. intros H. rewrite ids_filter. now apply NoDup_filter. Qed.

Lemma exec_bind_normal {A B : Type} (c : M A) (k : A -> M B) (w w1 : World) (a : A) :
  c w = (Normal a, w1) -> exec (bind c k) w = exec (k a) w1.
Proof. intros H. unfold exec, bind. now rewrite H. Qed.

(** [refresh] with a pending handle: the handle is cleared, and nothing
    that follows in the method touches the timers. *)
Lemma refresh_clears (w : World) :
  0 < resizeId (this w) ->
  window (exec refresh w)
  = set_timers (filter (fun t => negb (timer_id t =? resizeId (this w)))
                       (timers (window w))) (window w)
  /\ resizeId (this (exec refresh w)) = 0.
Proof.
  intros P. unfold refresh.
  rewrite (exec_bind_normal _ _ w w (resizeId (this w))) by reflexivity.
  destruct (Z.ltb_spec 0 (resizeId (this w))) as [_|]; [|lia].
  erewrite exec_bind_normal; [|unfold clearTimeout; unfold_m; cbn; reflexivity].
  match goal with |- context [exec ?rest ?w1] =>
    assert (S : preserves schedule rest) by frame; specialize (S w1) end.
  unfold schedule in S. injection S as S1 S2 _. rewrite S1, S2. split; reflexivity.
Qed.

Lemma fire_resize_timer (w : World) (id due : Z) :
  armed id due w ->
  let w' := fire (Build_Timer id due None ResizeTimeout) w in
  quiescent w' /\ passes w' = S (passes w) /\ now (window w') = now (window w).
Proof.
  intros (K & R & P & F). cbv zeta. unfold fire. cbn [timer_id timer_callback timer_every].
  assert (Pending : pending id w = true).
  { unfold pending. apply existsb_exists. exists (Build_Timer id due None ResizeTimeout).
    split; [|cbn; apply Z.eqb_refl].
    apply (proj1 (filter_In is_resize_timer _ (timers (window w)))). rewrite F. now left. }
  rewrite Pending. cbn [run_callback].
  destruct (refresh_clears w) as [W Z0]; [lia|].
  set (w1 := exec refresh w) in *.
  unfold exec, clearTimeout. unfold_m. cbn. rewrite W, R. cbn.
  split; [|split; reflexivity].
  split; [|split].
  - destruct K as (K1 & K2 & K3). unfold timers_ok. cbn.
    split; [exact K1|]. split.
    + apply bound_filter, bound_filter, K2.
    + apply nodup_ids_filter, nodup_ids_filter, K3.
  - exact Z0.
  - cbn. rewrite (filter_comm is_resize_timer), (filter_comm is_resize_timer), F. cbn.
    now rewrite Z.eqb_refl.
Qed.

(** A resize signal cancels the pending reconciliation, if there is one,
    and arms a new one for 500 ms later. *)
Lemma on_resize_arms (w : World) :
  quiescent w \/ (exists id due, armed id due w) ->
  exists id,
    armed id (now (window w) + 500) (exec on_resize w)
    /\ passes (exec on_resize w) = passes w
    /\ now (window (exec on_resize w)) = now (window w).
Proof.
  intros H. exists (timer_ids (window w) + 1).
  assert (Fresh : forall l : list Timer,
             Forall (fun t => 0 < timer_id t <= timer_ids (window w)) l ->
             NoDup (map timer_id l) ->
             NoDup (map timer_id
                      (l ++ [Build_Timer (timer_ids (window w) + 1)
                               (now (window w) + 500) None ResizeTimeout]))).
  { intros l B N. rewrite map_app. cbn -[Z.add]. apply NoDup_app; [exact N | | ].
    - repeat constructor. intros [].
    - intros i I [<-|[]]. apply in_map_iff in I. destruct I as (t & E & T).
      rewrite Forall_forall in B. specialize (B t T). lia. }
  assert (Bound : forall l : list Timer,
             Forall (fun t => 0 < timer_id t <= timer_ids (window w)) l ->
             0 <= timer_ids (window w) ->
             Forall (fun t => 0 < timer_id t <= timer_ids (window w) + 1)
               (l ++ [Build_Timer (timer_ids (window w) + 1)
                        (now (window w) + 500) None ResizeTimeout])).
  { intros l B Z0. apply Forall_app. split.
    - eapply Forall_impl; [|exact B]. cbn -[Z.add]. intros; lia.
    - repeat constructor; cbn; lia. }
  destruct H as [(K & R & F) | (id & due & K & R & P & F)];
    destruct K as (K1 & K2 & K3);
    unfold on_resize, setTimeout, add_timer, clearTimeout, exec; unfold_m; cbn -[Z.add].
  - rewrite R. cbn -[Z.add]. split; [|split; reflexivity].
    split; [|split; [|split]]; cbn -[Z.add].
    + unfold timers_ok. cbn -[Z.add]. split; [lia|]. split; [now apply Bound | now apply Fresh].
    + reflexivity.
    + lia.
    + rewrite filter_app, F. reflexivity.
  - rewrite R. destruct (Z.ltb_spec 0 id) as [_|]; [|lia]. cbn -[Z.add].
    split; [|split; reflexivity].
    assert (B' : Forall (fun t => 0 < timer_id t <= timer_ids (window w))
                   (filter (fun t => negb (timer_id t =? id)) (timers (window w)))).
    { apply Forall_forall. intros t T. apply filter_In in T.
      rewrite Forall_forall in K2. now apply K2. }
    split; [|split; [|split]]; cbn -[Z.add].
    + unfold timers_ok. cbn -[Z.add]. split; [lia|]. split; [now apply Bound|]. apply Fresh; [exact B'|].
      rewrite ids_filter. now apply NoDup_filter.
    + reflexivity.
    + lia.
    + rewrite filter_app, filter_comm, F. cbn -[Z.add]. now rewrite Z.eqb_refl.
Qed.

(** *** One millisecond, and many *)

Lemma fold_fire_quiescent (due : list Timer) :
  Forall (fun t => is_resize_timer t = false) due ->
  forall w, quiescent w ->
    let w' := fold_left (fun w t => fire t w) due w in
    quiescent w' /\ passes w' = passes w /\ now (window w') = now (window w).
Proof.
  induction 1 as [|t due T _ IH]; intros w Q; cbn [fold_left]; [auto|].
  destruct (fire_autoplay_quiescent t w (not_resize_is_autoplay t T) Q) as (Q1 & P1 & N1).
  destruct (IH _ Q1) as (Q2 & P2 & N2). cbv zeta in *.
  split; [exact Q2|]. split; congruence.
Qed.

Lemma fold_fire_armed (due : list Timer) (id d : Z) :
  Forall (fun t => is_resize_timer t = false /\ timer_id t <> id) due ->
  forall w, armed id d w ->
    let w' := fold_left (fun w t => fire t w) due w in
    armed id d w' /\ passes w' = passes w /\ now (window w') = now (window w).
Proof.
  induction 1 as [|t due [T I] _ IH]; intros w A; cbn [fold_left]; [auto|].
  destruct (fire_autoplay_armed t w id d (not_resize_is_autoplay t T) I A) as (A1 & P1 & N1).
  destruct (IH _ A1) as (A2 & P2 & N2). cbv zeta in *.
  split; [exact A2|]. split; congruence.
Qed.

(** Every other timer has another handle than the pending resize timer. *)
Lemma others_differ (w : World) (id d : Z) (t : Timer) :
  armed id d w -> In t (timers (window w)) -> is_resize_timer t = false ->
  timer_id t <> id.
Proof.
  intros ((_ & _ & N) & _ & _ & F) T R E.
  assert (I : In (Build_Timer id d None ResizeTimeout) (timers (window w))).
  { apply (proj1 (filter_In is_resize_timer _ (timers (window w)))). rewrite F. now left. }
  pose proof (same_id_same_timer _ _ _ N T I E) as ->. discriminate.
Qed.

Lemma tick_quiescent (w : World) :
  quiescent w ->
  quiescent (tick w) /\ passes (tick w) = passes w
  /\ now (window (tick w)) = now (window w) + 1.
Proof.
  intros Q. unfold tick.
  assert (Q1 : quiescent (later w)) by exact Q.
  fold (later w).
  destruct (fold_fire_quiescent
              (filter (fun t => timer_due t <=? now (window (later w)))
                      (timers (window (later w)))) ) with (w := later w) as (A & B & C).
  - apply Forall_forall. intros t T. apply filter_In in T. destruct T as [T _].
    destruct Q as (_ & _ & F).
    destruct (is_resize_timer t) eqn:R; [|reflexivity].
    assert (I : In t (filter is_resize_timer (timers (window w))))
      by (apply filter_In; split; assumption).
    rewrite F in I. contradiction.
  - exact Q1.
  - split; [exact A|]. split; [exact B|]. exact C.
Qed.

Lemma tick_before_due (w : World) (id d : Z) :
  armed id d w -> now (window w) + 1 < d ->
  armed id d (tick w) /\ passes (tick w) = passes w
  /\ now (window (tick w)) = now (window w) + 1.
Proof.
  intros A L. unfold tick. fold (later w).
  assert (A1 : armed id d (later w)) by exact A.
  destruct (fold_fire_armed
              (filter (fun t => timer_due t <=? now (window (later w)))
                      (timers (window (later w)))) id d) with (w := later w) as (X & Y & Z0).
  - apply Forall_forall. intros t T. apply filter_In in T. destruct T as [T D].
    assert (R : is_resize_timer t = false).
    { destruct (is_resize_timer t) eqn:R; [|reflexivity].
      assert (I : In t (filter is_resize_timer (timers (window w))))
        by (apply filter_In; split; assumption).
      destruct A as (_ & _ & _ & F). rewrite F in I. destruct I as [<-|[]].
      cbn in D. apply Z.leb_le in D. cbn in D. lia. }
    split; [exact R|]. now apply (others_differ w id d).
  - exact A1.
  - split; [exact X|]. split; [exact Y|]. exact Z0.
Qed.

Lemma tick_when_due (w : World) (id d : Z) :
  armed id d w -> d <= now (window w) + 1 ->
  quiescent (tick w) /\ passes (tick w) = S (passes w)
  /\ now (window (tick w)) = now (window w) + 1.
Proof.
  intros A L. unfold tick. fold (later w).
  assert (A1 : armed id d (later w)) by exact A.
  set (due := filter (fun t => timer_due t <=? now (window (later w)))
                     (timers (window (later w)))).
  assert (F : filter is_resize_timer due = [Build_Timer id d None ResizeTimeout]).
  { unfold due. rewrite filter_comm.
    destruct A as (_ & _ & _ & F). cbn [later window timers set_now] in *.
    change (timers (set_now (now (window w) + 1) (window w))) with (timers (window w)).
    rewrite F. cbn. destruct (Z.leb_spec d (now (window w) + 1)); [reflexivity | lia]. }
  destruct (filter_singleton_split _ _ _ F) as (before & after & E & B & C).
  assert (Others : forall l, incl l due -> Forall (fun t => is_resize_timer t = false) l ->
            Forall (fun t => is_resize_timer t = false /\ timer_id t <> id) l).
  { intros l I H. apply Forall_forall. intros t T. rewrite Forall_forall in H.
    split; [now apply H|]. apply (others_differ w id d); [exact A | | now apply H].
    specialize (I t T). unfold due in I. apply filter_In in I. apply I. }
  rewrite E, fold_left_app. cbn [fold_left].
  destruct (fold_fire_armed before id d) with (w := later w) as (X1 & Y1 & Z1).
  { apply Others; [|exact B]. rewrite E. intros t T. apply in_or_app. now left. }
  { exact A1. }
  destruct (fire_resize_timer _ id d X1) as (X2 & Y2 & Z2).
  destruct (fold_fire_quiescent after C _ X2) as (X3 & Y3 & Z3).
  cbv zeta in *. split; [exact X3|]. split.
  - rewrite Y3, Y2, Y1. reflexivity.
  - rewrite Z3, Z2, Z1. reflexivity.
Qed.

Lemma wait_quiescent (ms : nat) :
  forall w, quiescent w -> quiescent (wait ms w) /\ passes (wait ms w) = passes w.
Proof.
  induction ms as [|ms IH]; intros w Q; cbn [wait]; [auto|].
  destruct (tick_quiescent w Q) as (Q1 & P1 & _).
  destruct (IH _ Q1) as (Q2 & P2). split; [exact Q2 | congruence].
Qed.

Lemma wait_before_due (ms : nat) (id d : Z) :
  forall w, armed id d w -> now (window w) + Z.of_nat ms < d ->
    armed id d (wait ms w) /\ passes (wait ms w) = passes w
    /\ now (window (wait ms w)) = now (window w) + Z.of_nat ms.
Proof.
  induction ms as [|ms IH]; intros w A L; cbn [wait].
  - split; [exact A|]. split; [reflexivity | lia].
  - destruct (tick_before_due w id d A) as (A1 & P1 & N1); [lia|].
    destruct (IH _ A1) as (A2 & P2 & N2); [lia|].
    split; [exact A2|]. split; [congruence | lia].
Qed.

Lemma wait_until_due (ms : nat) (id d : Z) :
  forall w, armed id d w -> now (window w) < d -> d <= now (window w) + Z.of_nat ms ->
    quiescent (wait ms w) /\ passes (wait ms w) = S (passes w).
Proof.
  induction ms as [|ms IH]; intros w A L G; cbn [wait]; [lia|].
  destruct (Z_lt_le_dec (now (window w) + 1) d) as [Before|Due].
  - destruct (tick_before_due w id d A Before) as (A1 & P1 & N1).
    destruct (IH _ A1) as (Q2 & P2); [lia | lia |].
    split; [exact Q2 | congruence].
  - destruct (tick_when_due w id d A Due) as (Q1 & P1 & _).
    destruct (wait_quiescent ms _ Q1) as (Q2 & P2).
    split; [exact Q2 | congruence].
Qed.

(** *** A burst of signals *)

Lemma run_app (a b : list Input) (w : World) : run (a ++ b) w = run b (run a w).
Proof. unfold run. apply fold_left_app. Qed.

Lemma burst_tail (gaps : list nat) :
  Forall (fun gap => (gap < 500)%nat) gaps ->
  forall w id,
    armed id (now (window w) + 500) w ->
    let w' := run (flat_map (fun gap => [Wait gap; Resize]) gaps) w in
    exists id', armed id' (now (window w') + 500) w' /\ passes w' = passes w.
Proof.
  induction 1 as [|gap gaps G _ IH]; intros w id A; cbn [flat_map app].
  - exists id. split; [exact A | reflexivity].
  - change (run (Wait gap :: Resize :: flat_map (fun gap => [Wait gap; Resize]) gaps) w)
      with (run (flat_map (fun gap => [Wait gap; Resize]) gaps)
              (exec on_resize (wait gap w))).
    destruct (wait_before_due gap id _ w A) as (A1 & P1 & N1); [lia|].
    destruct (on_resize_arms (wait gap w)) as (id1 & A2 & P2 & N2).
    { right. eauto. }
    rewrite <- N2 in A2.
    destruct (IH _ _ A2) as (id' & A3 & P3). cbv zeta in *.
    exists id'. split; [exact A3 | congruence].
Qed.

Lemma burst_arms (gaps : list nat) (w : World) :
  quiescent w ->
  Forall (fun gap => (gap < 500)%nat) gaps ->
  let w' := run (burst gaps) w in
  exists id, armed id (now (window w') + 500) w' /\ passes w' = passes w.
Proof.
  intros Q G. unfold burst.
  change (run (Resize :: flat_map (fun gap => [Wait gap; Resize]) gaps) w)
    with (run (flat_map (fun gap => [Wait gap; Resize]) gaps) (exec on_resize w)).
  destruct (on_resize_arms w) as (id & A & P & N); [now left|].
  rewrite <- N in A.
  destruct (burst_tail gaps G _ _ A) as (id' & A' & P'). cbv zeta in *.
  exists id'. split; [exact A' | congruence].
Qed.

(** C9.  The resize listener is debounced.  From a world with no pending
    reconciliation, after a burst of one or more resize signals, each less
    than 500 ms after the one before, exactly one resize timer is pending,
    due 500 ms after the last signal, and no reconciliation pass has run;
    waiting [after] ms more runs no pass when [after < 500] and exactly one
    pass, that of the last signal, when [after >= 500]. *)
Theorem resize_debounced (w : World) (gaps : list nat) (after : nat) :
  quiescent w ->
  Forall (fun gap => (gap < 500)%nat) gaps ->
  let settled := run (burst gaps) w in
  (exists id, armed id (now (window settled) + 500) settled)
  /\ passes settled = passes w
  /\ passes (run (burst gaps ++ [Wait after]) w)
     = (passes w + (if (500 <=? after)%nat then 1 else 0))%nat.
Proof.
  intros Q G. cbv zeta.
  destruct (burst_arms gaps w Q G) as (id & A & P). cbv zeta in *.
  split; [eauto|]. split; [exact P|].
  rewrite run_app.
  change (run [Wait after] (run (burst gaps) w)) with (wait after (run (burst gaps) w)).
  destruct (Nat.leb_spec 500 after) as [Late|Early].
  - destruct (wait_until_due after id _ _ A) as (_ & W); [lia | lia |].
    rewrite W, P. lia.
  - destruct (wait_before_due after id _ _ A) as (_ & W & _); [lia|].
    rewrite W, P. lia.
Qed.

Lemma resize_debounced_witness :
  let w := page 3 (flat_layout 0 0) in
  passes (run (burst [100; 499; 20]%nat ++ [Wait 499]) w) = 0%nat
  /\ passes (run (burst [100; 499; 20]%nat ++ [Wait 500]) w) = 1%nat.
Proof.
  intros w.
  assert (Q : quiescent w).
  { unfold quiescent, timers_ok. cbn. repeat split; try lia; constructor. }
  assert (G : Forall (fun gap => (gap < 500)%nat) [100; 499; 20]%nat).
  { repeat apply Forall_cons; try apply Forall_nil; lia. }
  split.
  - destruct (resize_debounced w _ 499 Q G) as (_ & _ & H). exact H.
  - destruct (resize_debounced w _ 500 Q G) as (_ & _ & H). exact H.
Defined.

(** ** Enabling and disabling dragging *)

Lemma enableDragging_refused (w : World) :
  animation_is (animation (this w)) slide = false ->
  enableDragging w = (Throw ConfigurationError, w).
Proof. intros H. unfold enableDragging. unfold_m. cbn. now rewrite H. Qed.

Lemma enableDragging_again (w : World) (controller : AbortController) :
  animation_is (animation (this w)) slide = true ->
  draggableRemote (this w) = Some controller ->
  enableDragging w = (Normal tt, w).
Proof. intros A H. unfold enableDragging. unfold_m. cbn. rewrite A. cbn. now rewrite H. Qed.

Lemma enableDragging_fresh (w : World) :
  animation_is (animation (this w)) slide = true ->
  draggableRemote (this w) = None ->
  enableDragging w
  = (Normal tt,
     Build_World
       (set_draggableRemote (Some (S (controllers (window w)))) (this w))
       (set_listeners (listeners (window w) ++ start_listeners (S (controllers (window w))))
          (set_controllers (S (controllers (window w))) (window w)))).
Proof.
  intros A H. unfold enableDragging, new_AbortController, addEventListener.
  unfold_m. cbn. rewrite A. cbn. rewrite H. cbn. now rewrite <- app_assoc.
Qed.

(** [enableDragging] outside slide mode throws and changes nothing.  In
    slide mode it completes: when dragging is not enabled yet it registers
    exactly a touch-start and a mouse-down listener on the rail under a
    fresh abort controller and remembers that controller, touching nothing
    else; when dragging is enabled already it changes nothing, so that
    calling it twice is the same as calling it once. *)
Theorem enableDragging_once (w : World) :
  (animation_is (animation (this w)) slide = false ->
   enableDragging w = (Throw ConfigurationError, w))
  /\ (animation_is (animation (this w)) slide = true ->
      completion enableDragging w = Normal tt
      /\ exec enableDragging (exec enableDragging w) = exec enableDragging w
      /\ (draggableRemote (this w) <> None -> exec enableDragging w = w)
      /\ (draggableRemote (this w) = None ->
          let fresh := S (controllers (window w)) in
          let w' := exec enableDragging w in
          this w' = set_draggableRemote (Some fresh) (this w)
          /\ listeners (window w') = listeners (window w) ++ start_listeners fresh
          /\ timers (window w') = timers (window w))).
Proof.
  split; [apply enableDragging_refused|]. intros A.
  destruct (draggableRemote (this w)) as [c|] eqn:D.
  - pose proof (enableDragging_again w c A D) as E.
    unfold completion, exec. rewrite E. cbn [fst snd]. rewrite E. cbn [fst snd].
    split; [reflexivity|]. split; [reflexivity|]. split; [reflexivity|]. discriminate.
  - pose proof (enableDragging_fresh w A D) as E.
    unfold completion, exec. rewrite E. cbn [fst snd].
    split; [reflexivity|]. split.
    + erewrite enableDragging_again; [reflexivity | exact A | reflexivity].
    + split; [intros N; now elim N|]. intros _. repeat split; reflexivity.
Qed.

Lemma enableDragging_once_witness :
  let w := page 3 (flat_layout 0 0) in
  let fading := Build_World (set_animation (Some fade) (this w)) (window w) in
  enableDragging fading = (Throw ConfigurationError, fading)
  /\ listeners (window (exec enableDragging w))
     = [Build_Listener OnRail touchstart 1%nat; Build_Listener OnRail mousedown 1%nat]
  /\ exec enableDragging (exec enableDragging w) = exec enableDragging w.
Proof.
  intros w fading. split; [|split].
  - apply (proj1 (enableDragging_once fading)). reflexivity.
  - destruct (proj2 (enableDragging_once w) eq_refl) as (_ & _ & _ & H).
    destruct (H eq_refl) as (_ & L & _). exact L.
  - apply (proj2 (enableDragging_once w) eq_refl).
Defined.

(** ** The listeners over a whole run *)

Lemma slideTransition_wiring : preserves wiring slideTransition.
Proof.
  intros w. pose proof (slideTransition_frame w) as F. unfold beyond_commit in F.
  injection F as F1 F2 F3 F4 F5 F6 F7 F8 F9 F10 F11.
  unfold wiring. now rewrite F3, F5, F6, F10.
Qed.
#[local] Hint Resolve slideTransition_wiring : frame.





Lemma dragUpdate_wiring x : preserves wiring (dragUpdate x).
Proof. frame. Qed.








Lemma findTouch_wiring touches : preserves wiring (findTouch touches).
Proof. frame. Qed.





Lemma wired_wiring (w w' : World) : wiring w' = wiring w -> wired w -> wired w'.
Proof.
  unfold wiring, wired, plugged. intros [= A D B L C]. now rewrite A, D, B, L, C.
Qed.

Lemma filter_own_listeners (c : AbortController) :
  filter (not_of c) (start_listeners c) = []
  /\ filter (not_of c) (session_listeners c) = [].
Proof. unfold not_of. cbn. rewrite Nat.eqb_refl. split; reflexivity. Qed.

Lemma filter_other_listeners (c b : AbortController) :
  b <> c ->
  filter (not_of c) (start_listeners b) = start_listeners b
  /\ filter (not_of c) (session_listeners b) = session_listeners b.
Proof.
  intros N. unfold not_of. cbn. rewrite (proj2 (Nat.eqb_neq b c) N). split; reflexivity.
Qed.

Lemma dragEnd_wiring (w : World) (dragging : AbortController) :
  beingDraggedRemote (this w) = Some dragging ->
  wiring (exec dragEnd w)
  = (animation (this w), draggableRemote (this w), None,
     filter (not_of dragging) (listeners (window w)), controllers (window w)).
Proof.
  intros H. rewrite (exec_congr _ _ _ _ (dragEnd_unfold w dragging H)).
  rewrite slideTransition_wiring. reflexivity.
Qed.

Lemma plugged_wiring (w w' : World) : wiring w' = wiring w -> plugged w -> plugged w'.
Proof.
  unfold wiring, plugged. intros [= A D B L C]. now rewrite D, B, L, C.
Qed.

Lemma dragEnd_plugged (w : World) :
  plugged w ->
  plugged (exec dragEnd w)
  /\ beingDraggedRemote (this (exec dragEnd w)) = None
  /\ draggableRemote (this (exec dragEnd w)) = draggableRemote (this w)
  /\ animation (this (exec dragEnd w)) = animation (this w)
  /\ controllers (window (exec dragEnd w)) = controllers (window w).
Proof.
  intros P. destruct (beingDraggedRemote (this w)) as [b|] eqn:B.
  - pose proof (dragEnd_wiring w b B) as W. unfold wiring in W.
    injection W as W1 W2 W3 W4 W5.
    destruct P as (L & C & S). destruct (S b B) as (S1 & S2 & S3).
    destruct (draggableRemote (this w)) as [c|] eqn:D; [|now elim S2].
    assert (N : c <> b) by congruence.
    repeat split; try assumption.
    + rewrite W2, W3, W4, L, B. rewrite filter_app.
      rewrite (proj1 (filter_other_listeners b c N)).
      rewrite (proj2 (filter_own_listeners b)). reflexivity.
    + rewrite W2, W5. intros ? [= <-]. now apply C.
    + rewrite W3 in H. discriminate.
    + rewrite W3 in H. discriminate.
    + rewrite W3 in H. discriminate.
  - unfold exec. rewrite (dragEnd_idle w B). cbn [snd]. rewrite B. auto.
Qed.


Lemma dragStart_wiring (w : World) (x : Z) :
  beingDraggedRemote (this w) = None ->
  wiring (exec (dragStart x) w)
  = (animation (this w), draggableRemote (this w), Some (S (controllers (window w))),
     listeners (window w) ++ session_listeners (S (controllers (window w))),
     S (controllers (window w))).
Proof.
  intros H. unfold dragStart, new_AbortController, addEventListener, wiring, exec.
  unfold_m. cbn. rewrite H. cbn. now rewrite <- !app_assoc.
Qed.

Lemma dragStart_wired (w : World) (x : Z) :
  wired w -> draggableRemote (this w) <> None -> wired (exec (dragStart x) w).
Proof.
  intros ((L & C & S) & A) D.
  destruct (beingDraggedRemote (this w)) as [b|] eqn:B.
  - unfold exec. rewrite (dragStart_while_dragging w b x B). cbn [snd].
    unfold wired, plugged. rewrite B. auto.
  - pose proof (dragStart_wiring w x B) as W. unfold wiring in W.
    injection W as W1 W2 W3 W4 W5.
    destruct (draggableRemote (this w)) as [c|] eqn:D'; [|now elim D].
    specialize (C c eq_refl).
    unfold wired, plugged. rewrite W1, W2, W3, W4, W5, L. repeat split.
    + intros ? [= <-]. lia.
    + injection H as <-. lia.
    + discriminate.
    + injection H as <-. intros [= E]. lia.
    + intros _. now apply A.
Qed.


Lemma disableDragging_cases (w : World) (starting : AbortController) :
  draggableRemote (this w) = Some starting ->
  disableDragging w
  = match completion dragEnd w with
    | Normal _ => (Normal tt, detached starting (exec dragEnd w))
    | Throw e => (Throw e, exec dragEnd w)
    end.
Proof.
  intros D. unfold disableDragging. unfold bind at 1. unfold read at 1. rewrite D.
  unfold bind at 1, completion, exec. destruct (dragEnd w) as [[[]|e] w1]; reflexivity.
Qed.

Lemma disableDragging_plugged (w : World) :
  plugged w ->
  let w' := exec disableDragging w in
  plugged w'
  /\ animation (this w') = animation (this w)
  /\ (draggableRemote (this w') = draggableRemote (this w)
      \/ draggableRemote (this w') = None)
  /\ (completion disableDragging w = Normal tt -> draggableRemote (this w') = None).
Proof.
  intros P. cbv zeta.
  destruct (draggableRemote (this w)) as [c|] eqn:D.
  - destruct (dragEnd_plugged w P) as (P1 & B1 & D1 & A1 & C1).
    pose proof (disableDragging_cases w c D) as E.
    unfold exec at 1 2 3 4 5, completion at 1. rewrite E. clear E.
    destruct (completion dragEnd w) as [[]|e]; cbn [fst snd].
    + destruct P1 as (L1 & _ & _). rewrite B1, D1, D, app_nil_r in L1.
      unfold plugged, detached. cbn. rewrite B1, L1.
      change (filter (fun l => negb (Nat.eqb (listener_signal l) c)) (start_listeners c))
        with (filter (not_of c) (start_listeners c)).
      rewrite (proj1 (filter_own_listeners c)).
      split; [split; [reflexivity | split; intros ? ?; discriminate]|].
      split; [exact A1|]. split; [now right | reflexivity].
    + split; [exact P1|]. split; [exact A1|]. split; [left; congruence | discriminate].
  - assert (E : disableDragging w = (Normal tt, w)).
    { unfold disableDragging. unfold_m. cbn. now rewrite D. }
    unfold exec, completion. rewrite E. cbn [fst snd]. rewrite D. auto.
Qed.

Lemma disableDragging_wired (w : World) : wired w -> wired (exec disableDragging w).
Proof.
  intros (P & A). destruct (disableDragging_plugged w P) as (P1 & A1 & [D1|D1] & _).
  - split; [exact P1|]. rewrite A1, D1. exact A.
  - split; [exact P1|]. rewrite D1. intros N. now elim N.
Qed.

(** ** Changing the animation *)

Lemma changeAnimation_same (w : World) (a : AnimationName) :
  animation_is (animation (this w)) a = true -> changeAnimation a w = (Normal tt, w).
Proof. intros H. unfold changeAnimation. unfold_m. cbn. now rewrite H. Qed.

Lemma changeAnimation_other (w : World) (a : AnimationName) :
  animation_is (animation (this w)) a = false ->
  changeAnimation a w
  = match a with
    | slide => enableDragging (retagged slide w)
    | fade => disableDragging (unrailed (retagged fade w))
    end.
Proof.
  intros H. unfold changeAnimation. unfold bind at 1. unfold read at 1. rewrite H.
  unfold retagged, unrailed.
  destruct (animation (this w)) as [old|]; destruct a; reflexivity.
Qed.

Lemma dragEnd_plain (w : World) :
  animation_is (animation (this w)) slide = false -> completion dragEnd w = Normal tt.
Proof.
  intros A. destruct (beingDraggedRemote (this w)) as [b|] eqn:B.
  - rewrite (completion_congr _ _ _ _ (dragEnd_unfold w b B)).
    unfold completion. now rewrite slideTransition_plain.
  - unfold completion. now rewrite dragEnd_idle.
Qed.

Lemma disableDragging_plain (w : World) :
  animation_is (animation (this w)) slide = false ->
  completion disableDragging w = Normal tt.
Proof.
  intros A. destruct (draggableRemote (this w)) as [c|] eqn:D.
  - unfold completion at 1. rewrite (disableDragging_cases w c D).
    now rewrite (dragEnd_plain w A).
  - unfold disableDragging, completion. unfold_m. cbn. now rewrite D.
Qed.


Lemma classList_add_In (token : string) (l : list string) : In token (classList_add token l).
Proof.
  unfold classList_add. destruct (existsb (String.eqb token) l) eqn:E.
  - apply existsb_exists in E. destruct E as (t & I & Q).
    apply String.eqb_eq in Q. now subst.
  - apply in_or_app. right. now left.
Qed.

Lemma classList_swap (new old : string) (l : list string) :
  new <> old -> ~ In old (classList_add new (classList_remove old l)).
Proof.
  intros N I. unfold classList_add, classList_remove in I.
  assert (Gone : ~ In old (filter (fun t => negb (String.eqb t old)) l)).
  { intros G. apply filter_In in G. destruct G as [_ G].
    now rewrite String.eqb_refl in G. }
  destruct (existsb _ _); [now apply Gone|].
  apply in_app_or in I. destruct I as [I|[I|[]]]; [now apply Gone | now apply N].
Qed.

Lemma slideTransition_tagging : preserves tagging slideTransition.
Proof.
  intros w. unfold tagging, exec, slideTransition, updateActive, computeSlideLeft,
    computeRailLeft, getBoundingClientRect. unfold_m. cbn.
  destruct (animation_is _ _); cbn; [|reflexivity].
  destruct (array_at _ _); reflexivity.
Qed.
#[local] Hint Resolve slideTransition_tagging : frame.

Lemma dragEnd_tagging : preserves tagging dragEnd.
Proof.
  intros w. destruct (beingDraggedRemote (this w)) as [b|] eqn:B.
  - rewrite (exec_congr _ _ _ _ (dragEnd_unfold w b B)).
    now rewrite slideTransition_tagging.
  - unfold exec. now rewrite dragEnd_idle.
Qed.
#[local] Hint Resolve dragEnd_tagging : frame.

Lemma disableDragging_tagging : preserves tagging disableDragging.
Proof. frame. Qed.

Lemma enableDragging_tagging : preserves tagging enableDragging.
Proof. frame. Qed.

Lemma dragEnd_plain_rail (w : World) :
  animation_is (animation (this w)) slide = false ->
  style_left (rail (dom (this (exec dragEnd w)))) = style_left (rail (dom (this w))).
Proof.
  intros A. destruct (beingDraggedRemote (this w)) as [b|] eqn:B.
  - rewrite (exec_congr _ _ _ _ (dragEnd_unfold w b B)).
    generalize (threshold_rule (List.length (slides (dom (this w))))
         (rect_left (layout (window w) (released (dom (this w))) Viewport))
         (fun index => rect_left (layout (window w) (released (dom (this w))) (Slide index)))).
    intros index. unfold exec. now rewrite slideTransition_plain.
  - unfold exec. now rewrite dragEnd_idle.
Qed.

Lemma disableDragging_off (w : World) :
  draggableRemote (this w) = None -> disableDragging w = (Normal tt, w).
Proof. intros D. unfold disableDragging. unfold_m. cbn. now rewrite D. Qed.

Lemma disableDragging_plain_rail (w : World) :
  animation_is (animation (this w)) slide = false ->
  style_left (rail (dom (this (exec disableDragging w)))) = style_left (rail (dom (this w))).
Proof.
  intros A. destruct (draggableRemote (this w)) as [c|] eqn:D.
  - unfold exec at 1. rewrite (disableDragging_cases w c D).
    rewrite (dragEnd_plain w A). cbn [snd]. now apply dragEnd_plain_rail.
  - unfold disableDragging, exec. unfold_m. cbn. now rewrite D.
Qed.

(** [changeAnimation] never throws.  Asked for the current mode it changes
    nothing.  Otherwise the mode becomes the one asked for, the host carries
    its class and no longer the class of the mode it left; turning to
    [slide] leaves dragging enabled, and turning to [fade] removes the
    inline [left] of the rail, ends any drag in progress and leaves dragging
    disabled, with its listeners gone. *)
Theorem changeAnimation_switches (w : World) (a : AnimationName) :
  let w' := exec (changeAnimation a) w in
  (animation_is (animation (this w)) a = true -> changeAnimation a w = (Normal tt, w))
  /\ (animation_is (animation (this w)) a = false ->
      completion (changeAnimation a) w = Normal tt
      /\ animation (this w') = Some a
      /\ In (AnimationName_value a) (classList (dom (this w')))
      /\ (forall old, animation (this w) = Some old ->
            ~ In (AnimationName_value old) (classList (dom (this w'))))
      /\ (a = slide -> draggableRemote (this w') <> None)
      /\ (a = fade ->
          draggableRemote (this w') = None
          /\ style_left (rail (dom (this w'))) = ""
          /\ (plugged w ->
              beingDraggedRemote (this w') = None /\ listeners (window w') = []))).
Proof.
  cbv zeta. split; [apply changeAnimation_same|]. intros Same.
  pose proof (changeAnimation_other w a Same) as E.
  assert (Tags : forall old, animation (this w) = Some old ->
            ~ In (AnimationName_value old) (classList (dom (this (retagged a w))))).
  { intros old O. unfold retagged. cbn. rewrite O. apply classList_swap.
    rewrite O in Same. destruct a, old; cbn in *; discriminate. }
  destruct a.
  - (* fade *)
    rewrite (completion_congr _ _ _ _ E), (exec_congr _ _ _ _ E).
    set (w2 := unrailed (retagged fade w)) in *.
    assert (A2 : animation_is (animation (this w2)) slide = false) by reflexivity.
    pose proof (disableDragging_tagging w2) as T. unfold tagging in T.
    injection T as T1 T2.
    split; [now apply disableDragging_plain|].
    split; [now rewrite T1|].
    split; [rewrite T2; apply classList_add_In|].
    split; [intros old O; rewrite T2; now apply Tags|].
    split; [discriminate|]. intros _.
    assert (P2 : plugged w -> plugged w2) by (intros P; exact P).
    split.
    { destruct (draggableRemote (this w2)) as [c|] eqn:D.
      - unfold exec. rewrite (disableDragging_cases w2 c D).
        now rewrite (dragEnd_plain w2 A2).
      - unfold exec. now rewrite (disableDragging_off w2 D). }
    split; [now rewrite disableDragging_plain_rail|].
    intros P. destruct (disableDragging_plugged w2 (P2 P)) as ((L & _ & S) & _ & _ & N).
    specialize (N (disableDragging_plain w2 A2)).
    destruct (beingDraggedRemote (this (exec disableDragging w2))) as [b|] eqn:B.
    + destruct (S b eq_refl) as (_ & X & _). now elim X.
    + split; [reflexivity|]. now rewrite L, N.
  - (* slide *)
    rewrite (completion_congr _ _ _ _ E), (exec_congr _ _ _ _ E).
    set (w1 := retagged slide w) in *.
    assert (A1 : animation_is (animation (this w1)) slide = true) by reflexivity.
    pose proof (enableDragging_tagging w1) as T. unfold tagging in T.
    injection T as T1 T2.
    assert (C : completion enableDragging w1 = Normal tt
                /\ draggableRemote (this (exec enableDragging w1)) <> None).
    { destruct (draggableRemote (this w1)) as [c|] eqn:D.
      - unfold completion, exec. rewrite (enableDragging_again w1 c A1 D). cbn [fst snd].
        rewrite D. split; [reflexivity | discriminate].
      - unfold completion, exec. rewrite (enableDragging_fresh w1 A1 D).
        split; [reflexivity | discriminate]. }
    destruct C as [C1 C2].
    split; [exact C1|].
    split; [now rewrite T1|].
    split; [rewrite T2; apply classList_add_In|].
    split; [intros old O; rewrite T2; now apply Tags|].
    split; [intros _; exact C2 | discriminate].
Qed.

Lemma changeAnimation_switches_witness :
  let w := dispatch (MouseDown 10) (exec enableDragging (page 3 (flat_layout 0 0))) in
  let w' := exec (changeAnimation fade) w in
  changeAnimation slide w = (Normal tt, w)
  /\ animation (this w') = Some fade
  /\ classList (dom (this w')) = ["fade"]
  /\ listeners (window w') = [].
Proof.
  intros w w'.
  destruct (changeAnimation_switches w slide) as (Same & _).
  destruct (changeAnimation_switches w fade) as (_ & Other).
  destruct (Other eq_refl) as (_ & A & _ & _ & _ & F).
  destruct (F eq_refl) as (_ & _ & L).
  split; [apply Same; reflexivity|]. split; [exact A|].
  split; [reflexivity|].
  apply L. unfold plugged. split; [reflexivity|]. split.
  - intros starting [= <-]. cbn. lia.
  - intros dragging [= <-]. split; [cbn; lia|]. split; discriminate.
Defined.

(** ** The wiring invariant *)


Lemma on_touchstart_cases (w : World) (changedTouches : list Touch) :
  on_touchstart changedTouches w
  = if negb (touchId (this w) =? 0) then (Normal tt, w)
    else match changedTouches with
         | TOUCH :: _ =>
             dragStart (clientX TOUCH)
               (Build_World (set_touchId (identifier TOUCH) (this w)) (window w))
         | [] => (Throw (Error "Empty TouchList"), w)
         end.
Proof.
  unfold on_touchstart. unfold_m. cbn.
  destruct (negb _); [reflexivity|]. destruct changedTouches; reflexivity.
Qed.









(** ** Delivery of events *)

Lemma Listener_eqb_refl (l : Listener) : Listener_eqb l l = true.
Proof.
  unfold Listener_eqb. rewrite Nat.eqb_refl.
  destruct (listener_target l), (listener_type l); reflexivity.
Qed.

Lemma registered_In (l : Listener) (w : World) :
  In l (listeners (window w)) -> registered l w = true.
Proof.
  intros I. unfold registered. apply existsb_exists. exists l.
  split; [exact I | apply Listener_eqb_refl].
Qed.

(** In a wired world exactly one listener hears an event whose controller
    is held, and none hears it otherwise. *)
Lemma wired_audience (w : World) (e : Event) :
  wired w ->
  filter (listens e) (listeners (window w))
  = if heard e w
    then [Build_Listener (event_target e) (event_type e)
            (match (if is_start e then draggableRemote (this w)
                    else beingDraggedRemote (this w)) with
             | Some c => c
             | None => O
             end)]
    else [].
Proof.
  intros ((L & _ & _) & _). rewrite L. unfold heard.
  destruct (draggableRemote (this w)) as [c|], (beingDraggedRemote (this w)) as [b|];
    destruct e; reflexivity.
Qed.

Lemma dispatch_heard (w : World) (e : Event) :
  wired w ->
  dispatch e w = if heard e w then exec (handler e) w else w.
Proof.
  intros W. unfold dispatch. rewrite (wired_audience w e W).
  destruct (heard e w) eqn:H; [|reflexivity].
  cbn [invoke]. rewrite registered_In; [reflexivity|].
  match goal with |- In ?l _ =>
    assert (I : In l (filter (listens e) (listeners (window w))))
      by (rewrite (wired_audience w e W), H; now left)
  end.
  apply filter_In in I. apply I.
Qed.

(** Every event is delivered exactly once to the handler written for it
    when the controller of its listener is held, and not at all otherwise. *)
Theorem events_delivered_once (w : World) (e : Event) :
  wired w ->
  dispatch e w = if heard e w then exec (handler e) w else w.
Proof. exact (dispatch_heard w e). Qed.

Lemma events_delivered_once_witness :
  let w := exec enableDragging (page 3 (flat_layout 0 0)) in
  dispatch (MouseMove 4) w = w
  /\ dispatch (MouseDown 4) w = exec (dragStart 4) w.
Proof.
  intros w.
  assert (W : wired w).
  { split; [split; [reflexivity | split]|].
    - intros starting [= <-]. cbn. lia.
    - intros ? ?. discriminate.
    - intros _. reflexivity. }
  split.
  - rewrite (events_delivered_once w (MouseMove 4) W). reflexivity.
  - rewrite (events_delivered_once w (MouseDown 4) W). reflexivity.
Defined.

Lemma disableDragging_completes (w : World) :
  (1 <= List.length (slides (dom (this w))))%nat ->
  completion disableDragging w = Normal tt.
Proof.
  intros N. destruct (draggableRemote (this w)) as [c|] eqn:D.
  - unfold completion at 1. rewrite (disableDragging_cases w c D).
    destruct (beingDraggedRemote (this w)) as [b|] eqn:B.
    + now rewrite (dragEnd_completion w b B N).
    + unfold completion. now rewrite (dragEnd_idle w B).
  - unfold completion. now rewrite (disableDragging_off w D).
Qed.

(** Once [disableDragging] has returned, the widget is deaf to the pointer.
    From a wired world with at least one slide, [disableDragging] completes
    and leaves no controller held and no listener registered, so that every
    touch or mouse event that follows leaves the world exactly as it is;
    and it is idempotent. *)
Theorem disableDragging_silences (w : World) (e : Event) :
  wired w ->
  (1 <= List.length (slides (dom (this w))))%nat ->
  let w' := exec disableDragging w in
  completion disableDragging w = Normal tt
  /\ draggableRemote (this w') = None
  /\ beingDraggedRemote (this w') = None
  /\ listeners (window w') = []
  /\ dispatch e w' = w'
  /\ disableDragging w' = (Normal tt, w').
Proof.
  intros W N. cbv zeta.
  pose proof (disableDragging_completes w N) as C.
  pose proof (disableDragging_wired w W) as W'.
  destruct W as (P & _).
  destruct (disableDragging_plugged w P) as ((L & _ & S) & _ & _ & D).
  specialize (D C).
  assert (B : beingDraggedRemote (this (exec disableDragging w)) = None).
  { destruct (beingDraggedRemote (this (exec disableDragging w))) as [b|] eqn:B;
      [|reflexivity].
    destruct (S b eq_refl) as (_ & X & _). now elim X. }
  split; [exact C|]. split; [exact D|]. split; [exact B|].
  split; [now rewrite L, D, B|].
  split; [|now apply disableDragging_off].
  rewrite (dispatch_heard _ e W'). unfold heard. rewrite D, B.
  now destruct (is_start e).
Qed.

Lemma disableDragging_silences_witness :
  let w := dispatch (TouchStart [Build_Touch 8 20])
             (exec enableDragging (page 3 (flat_layout 0 0))) in
  let w' := exec disableDragging w in
  listeners (window w) <> [] /\ listeners (window w') = []
  /\ dispatch (TouchMove [Build_Touch 8 90]) w' = w'.
Proof.
  intros w w'.
  assert (W : wired w).
  { split; [split; [reflexivity | split]|].
    - intros starting [= <-]. cbn. lia.
    - intros dragging [= <-]. split; [cbn; lia|]. split; discriminate.
    - intros _. reflexivity. }
  assert (N : (1 <= List.length (slides (dom (this w))))%nat) by (cbn; lia).
  destruct (disableDragging_silences w (TouchMove [Build_Touch 8 90]) W N)
    as (_ & _ & _ & L & E & _).
  split; [discriminate|]. split; [exact L | exact E].
Defined.

(** ** The active marking *)

Lemma Number_eq_integer (a : Number) (k : Z) :
  Number_eq a k = match Number_integer a with Some z => z =? k | None => false end.
Proof.
  destruct a as [[x d]| |b]; [|reflexivity|reflexivity].
  assert (G : Qeq_bool (x # d) (inject_Z k)
              = if Q_is_integer (x # d) then Q_to_Z (x # d) =? k else false).
  { unfold Qeq_bool, Q_is_integer, Q_to_Z. cbn [Qnum Qden inject_Z].
    pose proof (Z.quot_rem' x (Zpos d)) as QR.
    destruct (Z.eqb_spec (Z.rem x (Zpos d)) 0) as [R|R].
    - rewrite R, Z.add_0_r in QR.
      destruct (Z.eqb_spec (Z.quot x (Zpos d)) k) as [E|E].
      + apply Z.eqb_eq. subst k. lia.
      + apply Z.eqb_neq. intros C. apply E. nia.
    - apply Z.eqb_neq. intros C. apply R.
      replace x with (k * Zpos d) by lia. apply Z.rem_mul. lia. }
  destruct d; cbn [Number_eq Number_integer Number_of_Z inject_Z];
    try (rewrite G; destruct (Q_is_integer _); reflexivity).
  reflexivity.
Qed.

Lemma forEach_toggle_none (active : Number) (l : list HTMLElement) :
  Number_integer active = None ->
  forall k, List.length (filter class_active (forEach (toggle_active active) k l)) = 0%nat.
Proof.
  intros I. induction l as [|e l IH]; intros k; cbn [forEach filter List.length].
  - reflexivity.
  - cbn [toggle_active set_class_active class_active].
    rewrite Number_eq_integer, I. apply IH.
Qed.

Lemma forEach_toggle_some (active : Number) (z : Z) (l : list HTMLElement) :
  Number_integer active = Some z ->
  forall k, forEach (toggle_active active) k l = forEach (toggle_active z) k l.
Proof.
  intros I. induction l as [|e l IH]; intros k; cbn [forEach].
  - reflexivity.
  - rewrite IH. unfold toggle_active. rewrite !Number_eq_integer, I. reflexivity.
Qed.

Lemma forEach_toggle_count (active : Z) (l : list HTMLElement) :
  forall k,
    List.length (filter class_active (forEach (toggle_active active) k l))
    = if (Z.of_nat k <=? active) && (active <? Z.of_nat k + Z.of_nat (List.length l))
      then 1%nat else 0%nat.
Proof.
  induction l as [|e l IH]; intros k; cbn [forEach filter List.length].
  - destruct (Z.leb_spec (Z.of_nat k) active), (Z.ltb_spec active (Z.of_nat k + Z.of_nat 0));
      cbn; try reflexivity; lia.
  - cbn [toggle_active set_class_active class_active Number_eq Number_of_Z inject_Z].
    destruct (Z.eqb_spec active (Z.of_nat k)) as [E|E]; cbn [List.length]; rewrite IH.
    + destruct (Z.leb_spec (Z.of_nat (S k)) active); [lia|]. cbn [andb].
      destruct (Z.leb_spec (Z.of_nat k) active); [|lia].
      destruct (Z.ltb_spec active (Z.of_nat k + Z.of_nat (S (List.length l)))); [|lia].
      reflexivity.
    + destruct (Z.leb_spec (Z.of_nat (S k)) active), (Z.leb_spec (Z.of_nat k) active),
        (Z.ltb_spec active (Z.of_nat (S k) + Z.of_nat (List.length l))),
        (Z.ltb_spec active (Z.of_nat k + Z.of_nat (S (List.length l))));
        cbn [andb]; try reflexivity; lia.
Qed.

Lemma forEach_toggle_names (active : Number) (l : list HTMLElement) :
  List.length (filter class_active (forEach (toggle_active active) 0 l))
  = if names_element active (List.length l) then 1%nat else 0%nat.
Proof.
  unfold names_element. destruct (Number_integer active) as [z|] eqn:I.
  - rewrite (forEach_toggle_some active z l I), forEach_toggle_count. reflexivity.
  - now apply forEach_toggle_none.
Qed.

Lemma forEach_toggle_widths (active : Number) (l : list HTMLElement) :
  forall k, map style_width (forEach (toggle_active active) k l) = map style_width l.
Proof. induction l as [|e l IH]; intros k; cbn; [reflexivity | now rewrite IH]. Qed.

Lemma updateActive_eq (w : World) :
  updateActive w
  = (Normal tt,
     Build_World
       (set_dom (set_bullets (forEach (toggle_active (activeIndex (this w))) 0
                                (bullets (dom (this w))))
                   (set_slides (forEach (toggle_active (activeIndex (this w))) 0
                                  (slides (dom (this w))))
                               (dom (this w))))
                (this w))
       (window w)).
Proof. reflexivity. Qed.

Lemma slideTransition_marking (w : World) :
  slides (dom (this (exec slideTransition w)))
  = forEach (toggle_active (activeIndex (this w))) 0 (slides (dom (this w)))
  /\ bullets (dom (this (exec slideTransition w)))
     = forEach (toggle_active (activeIndex (this w))) 0 (bullets (dom (this w))).
Proof.
  unfold exec, slideTransition, updateActive, computeSlideLeft. unfold_m. cbn.
  destruct (animation_is _ _); cbn; [|split; reflexivity].
  destruct (array_at _ _); split; reflexivity.
Qed.

(** After [updateActive], and so after every commit, the slide at the
    active index is marked active and no other slide is: slide [k] carries
    the class exactly when the active index is [k], so that exactly one
    slide carries it when the index names a slide and none when it does
    not (an index past the end, a fraction or [NaN]).  The same holds of
    the bullets: bullet [k] carries the class exactly when the active index
    is [k], and one bullet or none does, counted against their own number.
    The inline widths and the number of slides and bullets are untouched. *)
Theorem updateActive_marks_one (w : World) :
  let i := activeIndex (this w) in
  let w' := exec updateActive w in
  let count := fun l : list HTMLElement => List.length (filter class_active l) in
  updateActive w = (Normal tt, w')
  /\ count (slides (dom (this w')))
     = (if names_element i (List.length (slides (dom (this w)))) then 1%nat else 0%nat)
  /\ count (bullets (dom (this w')))
     = (if names_element i (List.length (bullets (dom (this w)))) then 1%nat else 0%nat)
  /\ (forall k e, nth_error (slides (dom (this w'))) k = Some e ->
        class_active e = Number_eq i (Z.of_nat k))
  /\ (forall k e, nth_error (bullets (dom (this w'))) k = Some e ->
        class_active e = Number_eq i (Z.of_nat k))
  /\ (forall z : Z, i = z ->
        names_element i (List.length (slides (dom (this w))))
        = (0 <=? z) && (z <? Z.of_nat (List.length (slides (dom (this w)))))
        /\ forall k e, nth_error (slides (dom (this w'))) k = Some e
                       \/ nth_error (bullets (dom (this w'))) k = Some e ->
                       class_active e = (z =? Z.of_nat k))
  /\ map style_width (slides (dom (this w'))) = map style_width (slides (dom (this w)))
  /\ List.length (bullets (dom (this w'))) = List.length (bullets (dom (this w)))
  /\ slides (dom (this (exec slideTransition w))) = slides (dom (this w'))
  /\ bullets (dom (this (exec slideTransition w))) = bullets (dom (this w')).
Proof.
  cbv zeta. destruct (slideTransition_marking w) as [S B]. rewrite S, B. clear S B.
  unfold exec. rewrite (updateActive_eq w).
  cbn [snd this dom slides bullets set_dom set_bullets set_slides].
  assert (Mark : forall (l : list HTMLElement) k e,
             nth_error (forEach (toggle_active (activeIndex (this w))) 0 l) k = Some e ->
             class_active e = Number_eq (activeIndex (this w)) (Z.of_nat k)).
  { intros l k e. rewrite forEach_nth. destruct (nth_error _ k); [|discriminate].
    cbn. intros [= <-]. reflexivity. }
  split; [reflexivity|].
  split; [apply forEach_toggle_names|].
  split; [apply forEach_toggle_names|].
  split; [apply Mark|]. split; [apply Mark|].
  split.
  { intros z E. split; [rewrite E; reflexivity|].
    intros k e [H|H]; apply Mark in H; rewrite H, E; reflexivity. }
  split; [apply forEach_toggle_widths|].
  split; [apply forEach_length|]. split; reflexivity.
Qed.

Lemma updateActive_marks_one_witness :
  let w := exec (changeSlide 2) (exec addBullets (page 4 (flat_layout 0 0))) in
  List.length (filter class_active (slides (dom (this (exec updateActive w))))) = 1%nat
  /\ List.length (filter class_active (bullets (dom (this (exec updateActive w))))) = 1%nat
  /\ option_map class_active (nth_error (bullets (dom (this (exec updateActive w)))) 2)
     = Some true.
Proof.
  intros w.
  destruct (updateActive_marks_one w) as (_ & C & B & _ & M & _).
  split; [exact C|]. split; [exact B|].
  destruct (nth_error (bullets (dom (this (exec updateActive w)))) 2) as [e|] eqn:E;
    [|discriminate E].
  cbn [option_map]. f_equal. exact (M 2%nat e E).
Defined.

(** ** Bullets *)

Lemma addBullets_eq (w : World) :
  addBullets w
  = (Normal tt,
     Build_World
       (set_dom
          (set_bullets
             ((if showBullets (this w) then [] else bullets (dom (this w)))
              ++ map (fun index =>
                        Build_HTMLElement (Number_eq (Z.of_nat index) (activeIndex (this w))) "")
                     (seq 0 (List.length (slides (dom (this w))))))
             (dom (this w)))
          (set_showBullets true (this w)))
       (window w)).
Proof.
  unfold addBullets. unfold bind at 1. unfold read at 1.
  destruct (showBullets (this w)) eqn:S; unfold removeBullets; unfold_m; cbn;
    rewrite ?S; reflexivity.
Qed.

Lemma removeBullets_eq (w : World) :
  removeBullets w
  = (Normal tt,
     if showBullets (this w)
     then Build_World (set_dom (set_bullets [] (dom (this w)))
                         (set_showBullets false (this w))) (window w)
     else w).
Proof.
  unfold removeBullets. unfold_m. cbn. destruct (showBullets (this w)); reflexivity.
Qed.

(** [addBullets] never throws and leaves exactly one bullet per slide, the
    one at the active index marked active and no other, whether or not
    bullets were shown before: shown bullets are removed first, so calling
    it twice is the same as calling it once.  (It relies on there being no
    bullets while none are shown, which the class maintains.)  Slides and
    the active index are not touched. *)
Theorem addBullets_one_per_slide (w : World) :
  (showBullets (this w) = false -> bullets (dom (this w)) = []) ->
  let w' := exec addBullets w in
  addBullets w = (Normal tt, w')
  /\ showBullets (this w') = true
  /\ List.length (bullets (dom (this w'))) = List.length (slides (dom (this w)))
  /\ (forall k e, nth_error (bullets (dom (this w'))) k = Some e ->
        class_active e = Number_eq (Z.of_nat k) (activeIndex (this w))
        /\ forall z : Z, activeIndex (this w) = z -> class_active e = (Z.of_nat k =? z))
  /\ slides (dom (this w')) = slides (dom (this w))
  /\ activeIndex (this w') = activeIndex (this w)
  /\ exec addBullets w' = w'.
Proof.
  intros Inv. cbv zeta. unfold exec. rewrite !addBullets_eq. cbn.
  assert (E : (if showBullets (this w) then [] else bullets (dom (this w))) = []).
  { destruct (showBullets (this w)); [reflexivity | now apply Inv]. }
  rewrite E. cbn [app].
  split; [reflexivity|]. split; [reflexivity|].
  split; [now rewrite length_map, length_seq|].
  split.
  { intros k e H. rewrite nth_error_map, nth_error_seq in H.
    destruct (Nat.ltb k (List.length (slides (dom (this w))))); [|discriminate].
    cbn in H. injection H as <-. cbn [class_active]. split; [reflexivity|].
    intros z Ez. rewrite Ez. reflexivity. }
  repeat split; reflexivity.
Qed.

Lemma addBullets_one_per_slide_witness :
  let w := exec (changeSlide 1) (page 3 (flat_layout 0 0)) in
  map class_active (bullets (dom (this (exec addBullets (exec addBullets w)))))
  = [false; true; false].
Proof.
  intros w.
  assert (Inv : showBullets (this w) = false -> bullets (dom (this w)) = [])
    by reflexivity.
  destruct (addBullets_one_per_slide w Inv) as (_ & _ & _ & _ & _ & _ & Twice).
  rewrite Twice. reflexivity.
Defined.

Lemma world_eta (w : World) : Build_World (this w) (window w) = w.
Proof. now destruct w. Qed.

(** [removeBullets] never throws.  While no bullets are shown it changes
    nothing; otherwise it leaves no bullet and clears the flag, touching
    nothing else.  Removing the bullets that [addBullets] has just added to
    a widget without bullets gives back the world as it was. *)
Theorem removeBullets_undoes_addBullets (w : World) :
  let w' := exec removeBullets w in
  removeBullets w = (Normal tt, w')
  /\ (showBullets (this w) = false -> w' = w)
  /\ showBullets (this w') = false
  /\ (showBullets (this w) = true -> bullets (dom (this w')) = [])
  /\ slides (dom (this w')) = slides (dom (this w))
  /\ (showBullets (this w) = false -> bullets (dom (this w)) = [] ->
      exec removeBullets (exec addBullets w) = w).
Proof.
  cbv zeta. unfold exec. rewrite !removeBullets_eq, addBullets_eq. cbn [snd].
  split; [reflexivity|].
  split; [intros S; now rewrite S|].
  split; [destruct (showBullets (this w)) eqn:S; [reflexivity | exact S]|].
  split; [intros S; now rewrite S|].
  split; [destruct (showBullets (this w)); reflexivity|].
  intros S B. cbn. destruct w as [o b]. destruct o as [d a f sa sb sk i p c ai ri t bd dr].
  destruct d as [cl r s bl]. cbn in *. now subst.
Qed.

Lemma removeBullets_undoes_addBullets_witness :
  let w := page 3 (flat_layout 0 0) in
  exec removeBullets w = w /\ exec removeBullets (exec addBullets w) = w.
Proof.
  intros w.
  destruct (removeBullets_undoes_addBullets w) as (_ & Off & _ & _ & _ & Back).
  split; [apply Off; reflexivity | apply Back; reflexivity].
Defined.

(** ** Full-width slides *)

Lemma setFullWidthSlide_eq (w : World) (flag : bool) :
  setFullWidthSlide flag w
  = (Normal tt,
     if Bool.eqb (fullWidthSlide (this w)) flag then w
     else
       let WIDTH :=
         if flag then toPixel (rect_width (layout (window w) (dom (this w)) Viewport))
         else "" in
       Build_World
         (set_dom (set_slides (map (set_style_width WIDTH) (slides (dom (this w))))
                     (dom (this w)))
            (set_fullWidthSlide flag (this w)))
         (window w)).
Proof.
  unfold setFullWidthSlide, computeViewportWidth, getBoundingClientRect. unfold_m. cbn.
  destruct (Bool.eqb _ _); [reflexivity|]. destruct flag; reflexivity.
Qed.

(** [setFullWidthSlide] never throws.  Asked for the setting the widget has
    already, it changes nothing, stale widths included.  Otherwise it
    records the flag and gives every slide the same inline width: the
    viewport width just measured, in pixels, when turning the mode on, and
    none when turning it off.  The number of slides, their active marking
    and the active index are untouched. *)
Theorem setFullWidthSlide_uniform (w : World) (flag : bool) :
  let w' := exec (setFullWidthSlide flag) w in
  setFullWidthSlide flag w = (Normal tt, w')
  /\ fullWidthSlide (this w') = flag
  /\ (fullWidthSlide (this w) = flag -> w' = w)
  /\ (fullWidthSlide (this w) <> flag ->
      map style_width (slides (dom (this w')))
      = repeat (if flag
                then toPixel (rect_width (layout (window w) (dom (this w)) Viewport))
                else "")
               (List.length (slides (dom (this w)))))
  /\ map class_active (slides (dom (this w'))) = map class_active (slides (dom (this w)))
  /\ activeIndex (this w') = activeIndex (this w).
Proof.
  cbv zeta. unfold exec. rewrite setFullWidthSlide_eq. cbn [snd].
  destruct (Bool.eqb (fullWidthSlide (this w)) flag) eqn:E.
  - apply Bool.eqb_prop in E.
    split; [reflexivity|]. split; [exact E|]. split; [reflexivity|].
    split; [intros N; now elim N|]. split; reflexivity.
  - apply Bool.eqb_false_iff in E.
    split; [reflexivity|]. split; [reflexivity|]. split; [intros X; now elim E|].
    split; [|split; [|reflexivity]].
    + intros _. cbn. induction (slides (dom (this w))) as [|e l IH]; [reflexivity|].
      cbn. now rewrite IH.
    + cbn. induction (slides (dom (this w))) as [|e l IH]; [reflexivity|].
      cbn. now rewrite IH.
Qed.

Lemma setFullWidthSlide_uniform_witness :
  let w := page 2 (flat_layout 0 0) in
  exec (setFullWidthSlide true) w = w
  /\ map style_width (slides (dom (this (exec (setFullWidthSlide true)
                                          (exec (setFullWidthSlide false) w)))))
     = ["100px"; "100px"].
Proof.
  intros w. split.
  - apply (setFullWidthSlide_uniform w true). reflexivity.
  - destruct (setFullWidthSlide_uniform (exec (setFullWidthSlide false) w) true)
      as (_ & _ & _ & H & _).
    rewrite H; [reflexivity | discriminate].
Defined.

(** ** Following the pointer *)

Lemma dragUpdate_eq (w : World) (x : Z) :
  dragUpdate x w
  = (Normal tt,
     match beingDraggedRemote (this w) with
     | None => w
     | Some _ =>
         Build_World
           (set_dom
              (set_rail
                 (set_style_left
                    (toPixel (currentOffset (this w) + (x - dragStartingPoint (this w))))
                    (rail (dom (this w))))
                 (dom (this w)))
              (set_skipNextAutoplay true (this w)))
           (window w)
     end).
Proof.
  unfold dragUpdate. unfold_m. cbn -[Z.add Z.sub].
  destruct (beingDraggedRemote (this w)); reflexivity.
Qed.

(** [dragUpdate] never throws and does nothing without a session.  During
    a session it writes [currentOffset + (x - dragStartingPoint)] to the
    rail and sets the autoplay suppression flag, and changes neither the
    committed offset, nor the start coordinate, nor the active index, nor
    the session.  So the rail follows the pointer without drift: after any
    two moves the world is the one the second move alone would give. *)
Theorem dragUpdate_follows_pointer (w : World) (x1 x2 : Z) :
  let w' := exec (dragUpdate x2) w in
  dragUpdate x2 w = (Normal tt, w')
  /\ (beingDraggedRemote (this w) = None -> w' = w)
  /\ (beingDraggedRemote (this w) <> None ->
      style_left (rail (dom (this w')))
      = toPixel (currentOffset (this w) + (x2 - dragStartingPoint (this w)))
      /\ skipNextAutoplay (this w') = true)
  /\ currentOffset (this w') = currentOffset (this w)
  /\ dragStartingPoint (this w') = dragStartingPoint (this w)
  /\ activeIndex (this w') = activeIndex (this w)
  /\ wiring w' = wiring w
  /\ exec (dragUpdate x2) (exec (dragUpdate x1) w) = w'.
Proof.
  cbv zeta. unfold exec. rewrite !dragUpdate_eq. cbn [snd].
  destruct (beingDraggedRemote (this w)) as [b|] eqn:B.
  - cbn [this set_dom set_skipNextAutoplay beingDraggedRemote]. rewrite B.
    split; [reflexivity|]. split; [discriminate|].
    split; [intros _; split; reflexivity|].
    repeat split; reflexivity.
  - rewrite B. split; [reflexivity|]. split; [reflexivity|].
    split; [intros N; now elim N|]. repeat split; reflexivity.
Qed.

Lemma dragUpdate_follows_pointer_witness :
  let w := exec (dragStart 10) (page 3 (flat_layout 0 0)) in
  style_left (rail (dom (this (exec (dragUpdate (-30)) (exec (dragUpdate 250) w)))))
  = "-40px"
  /\ exec (dragUpdate 5) (page 3 (flat_layout 0 0)) = page 3 (flat_layout 0 0).
Proof.
  intros w. split.
  - destruct (dragUpdate_follows_pointer w 250 (-30)) as (_ & _ & L & _ & _ & _ & _ & Last).
    rewrite Last. assert (S : beingDraggedRemote (this w) <> None) by discriminate.
    rewrite (proj1 (L S)). reflexivity.
  - destruct (dragUpdate_follows_pointer (page 3 (flat_layout 0 0)) 0 5) as (_ & Idle & _).
    apply Idle. reflexivity.
Defined.

(** ** Starting and stopping autoplay *)

Lemma stopAutoplay_eq (w : World) :
  stopAutoplay w
  = (Normal tt,
     if autoplayId (this w) =? 0 then w
     else Build_World
            (set_autoplayId 0 (this w))
            (set_timers (filter (fun t => negb (timer_id t =? autoplayId (this w)))
                                (timers (window w))) (window w))).
Proof.
  unfold stopAutoplay, clearInterval, clearTimeout. unfold_m. cbn.
  destruct (autoplayId (this w) =? 0); reflexivity.
Qed.

Lemma callback_cases (t : Timer) :
  (is_autoplay_timer t = true /\ is_resize_timer t = false)
  \/ (is_autoplay_timer t = false /\ is_resize_timer t = true).
Proof.
  unfold is_autoplay_timer, is_resize_timer. destruct (timer_callback t); auto.
Qed.

Lemma player_cases (w : World) :
  timers_ok w -> player w ->
  (autoplayId (this w) = 0 /\ filter is_autoplay_timer (timers (window w)) = [])
  \/ (exists t, filter is_autoplay_timer (timers (window w)) = [t]
                /\ timer_id t = autoplayId (this w)
                /\ timer_every t <> None
                /\ 0 < autoplayId (this w)).
Proof.
  intros (_ & B & _) P. unfold player in P.
  destruct (filter is_autoplay_timer (timers (window w))) as [|t [|u rest]] eqn:F;
    [now left | | contradiction].
  right. exists t. destruct P as [P1 P2]. repeat split; try assumption.
  assert (I : In t (timers (window w))).
  { apply (proj1 (filter_In is_autoplay_timer t (timers (window w)))). rewrite F. now left. }
  rewrite Forall_forall in B. specialize (B t I). lia.
Qed.

(** Clearing the handle of the autoplay timer removes that timer and no
    resize timer. *)
Lemma clear_player (w : World) (t : Timer) :
  timers_ok w ->
  filter is_autoplay_timer (timers (window w)) = [t] ->
  let rest := filter (fun u => negb (timer_id u =? timer_id t)) (timers (window w)) in
  filter is_autoplay_timer rest = []
  /\ filter is_resize_timer rest = filter is_resize_timer (timers (window w)).
Proof.
  intros (_ & _ & N) F. cbv zeta. split.
  - rewrite filter_comm, F. cbn. now rewrite Z.eqb_refl.
  - rewrite filter_comm. apply filter_all. apply Forall_forall. intros u U.
    apply filter_In in U. destruct U as [U R].
    apply negb_true_iff, Z.eqb_neq. intros E.
    assert (I : In t (timers (window w))).
    { apply (proj1 (filter_In is_autoplay_timer t (timers (window w)))). rewrite F. now left. }
    assert (A : is_autoplay_timer t = true).
    { apply (proj2 (proj1 (filter_In is_autoplay_timer t (timers (window w)))
                      ltac:(rewrite F; now left))). }
    pose proof (same_id_same_timer _ _ _ N U I E) as ->.
    destruct (callback_cases t) as [[_ X]|[X _]]; congruence.
Qed.

(** ** Timer hygiene *)

Lemma slideTransition_clockwork : preserves clockwork slideTransition.
Proof.
  intros w. pose proof (slideTransition_schedule w) as S. unfold schedule in S.
  injection S as S1 S2 S3. unfold clockwork. now rewrite S1, S2, S3.
Qed.
#[local] Hint Resolve slideTransition_clockwork : frame.

Lemma dragEnd_clockwork : preserves clockwork dragEnd.
Proof.
  intros w. destruct (beingDraggedRemote (this w)) as [b|] eqn:B.
  - rewrite (exec_congr _ _ _ _ (dragEnd_unfold w b B)).
    now rewrite slideTransition_clockwork.
  - unfold exec. now rewrite dragEnd_idle.
Qed.
#[local] Hint Resolve dragEnd_clockwork : frame.

Lemma nextSlide_clockwork : preserves clockwork nextSlide.
Proof. frame. Qed.

Lemma previousSlide_clockwork : preserves clockwork previousSlide.
Proof. frame. Qed.

Lemma changeSlide_clockwork index : preserves clockwork (changeSlide index).
Proof. frame. Qed.

Lemma enableDragging_clockwork : preserves clockwork enableDragging.
Proof. frame. Qed.

Lemma disableDragging_clockwork : preserves clockwork disableDragging.
Proof. frame. Qed.

Lemma changeAnimation_clockwork a : preserves clockwork (changeAnimation a).
Proof. frame. Qed.

Lemma setFullWidthSlide_clockwork flag : preserves clockwork (setFullWidthSlide flag).
Proof. frame. Qed.

Lemma addBullets_clockwork : preserves clockwork addBullets.
Proof. frame. Qed.

Lemma removeBullets_clockwork : preserves clockwork removeBullets.
Proof. frame. Qed.

Lemma handler_clockwork (e : Event) : preserves clockwork (handler e).
Proof. destruct e; cbn [handler]; frame. Qed.

Lemma dispatch_clockwork (e : Event) (w : World) : clockwork (dispatch e w) = clockwork w.
Proof.
  apply (dispatch_invariant (fun w' => clockwork w' = clockwork w)); [|reflexivity].
  intros v <-. apply handler_clockwork.
Qed.

Lemma scheduled_clockwork (w w' : World) :
  clockwork w' = clockwork w -> scheduled w -> scheduled w'.
Proof.
  unfold clockwork, scheduled, player, quiescent, armed, timers_ok.
  intros [= T I R A]. now rewrite T, I, R, A.
Qed.

Lemma autoplay_timers_rearm (id due : Z) (l : list Timer) :
  filter is_autoplay_timer (map (rearm id due) l)
  = map (rearm id due) (filter is_autoplay_timer l).
Proof.
  induction l as [|t l IH]; cbn; [reflexivity|].
  assert (E : is_autoplay_timer (rearm id due t) = is_autoplay_timer t)
    by (unfold rearm; destruct (timer_id t =? id); reflexivity).
  rewrite E. destruct (is_autoplay_timer t); cbn; now rewrite IH.
Qed.

(** Clearing the handle of the pending resize timer removes no autoplay
    timer. *)
Lemma clear_resize_keeps_player (w : World) (id due : Z) :
  armed id due w ->
  filter is_autoplay_timer
    (filter (fun t => negb (timer_id t =? id)) (timers (window w)))
  = filter is_autoplay_timer (timers (window w)).
Proof.
  intros A. rewrite filter_comm. apply filter_all. apply Forall_forall. intros u U.
  apply filter_In in U. destruct U as [U P].
  apply negb_true_iff, Z.eqb_neq. apply (others_differ w id due u A U).
  destruct (callback_cases u) as [[_ X]|[X _]]; congruence.
Qed.

Lemma stopAutoplay_scheduled (w : World) :
  scheduled w ->
  scheduled (exec stopAutoplay w)
  /\ filter is_autoplay_timer (timers (window (exec stopAutoplay w))) = []
  /\ autoplayId (this (exec stopAutoplay w)) = 0
  /\ timer_ids (window (exec stopAutoplay w)) = timer_ids (window w)
  /\ now (window (exec stopAutoplay w)) = now (window w).
Proof.
  intros (P & R).
  assert (K : timers_ok w) by (destruct R as [Q|(id & due & A)]; [apply Q | apply A]).
  unfold exec. rewrite stopAutoplay_eq. cbn [snd].
  destruct (player_cases w K P) as [(Z0 & F)|(t & F & I & E & Pos)].
  - rewrite Z0. cbn. split; [split; [exact P | exact R]|]. repeat split; assumption.
  - destruct (Z.eqb_spec (autoplayId (this w)) 0) as [X|_]; [lia|].
    rewrite <- I. destruct (clear_player w t K F) as (C1 & C2). cbv zeta in *.
    assert (K' : forall o, timers_ok (Build_World o
                (set_timers (filter (fun u => negb (timer_id u =? timer_id t))
                                    (timers (window w))) (window w)))).
    { intros o. destruct K as (K1 & K2 & K3). unfold timers_ok. cbn.
      split; [exact K1|]. split; [now apply bound_filter | now apply nodup_ids_filter]. }
    split; [|cbn; repeat split; try reflexivity; exact C1].
    split.
    + unfold player. cbn. now rewrite C1.
    + destruct R as [(_ & R1 & R2)|(id & due & _ & R1 & R2 & R3)].
      * left. split; [apply K'|]. split; [exact R1|]. cbn. now rewrite C2.
      * right. exists id, due. split; [apply K'|]. split; [exact R1|].
        split; [exact R2|]. cbn. now rewrite C2.
Qed.

Lemma startAutoplay_scheduled (w : World) (delay : Number) :
  scheduled w -> scheduled (exec (startAutoplay delay) w).
Proof.
  intros S. unfold startAutoplay.
  destruct (negb (Number_isSafeInteger delay) || Number_lt_1 delay); [exact S|].
  destruct (stopAutoplay_scheduled w S) as ((_ & R) & F & A & _).
  assert (E : stopAutoplay w = (Normal tt, exec stopAutoplay w)).
  { rewrite stopAutoplay_eq. unfold exec. now rewrite stopAutoplay_eq. }
  rewrite (exec_bind_normal _ _ w (exec stopAutoplay w) tt E).
  set (v := exec stopAutoplay w) in *.
  unfold exec, setInterval, add_timer. unfold_m. cbn -[Z.add].
  assert (K : timers_ok v) by (destruct R as [Q|(id & due & X)]; [apply Q | apply X]).
  assert (K' : forall o : SimpleSlideshow, timers_ok (Build_World o
                (set_timers (timers (window v)
                             ++ [Build_Timer (timer_ids (window v) + 1)
                                   (now (window v) + timer_delay (Number_to_Z delay))
                                   (Some (timer_delay (Number_to_Z delay))) AutoplayTick])
                   (set_timer_ids (timer_ids (window v) + 1) (window v))))).
  { intros o. destruct K as (K1 & K2 & K3). unfold timers_ok. cbn -[Z.add].
    split; [lia|]. split.
    - apply Forall_app. split.
      + eapply Forall_impl; [|exact K2]. cbn. intros; lia.
      + repeat constructor; cbn; lia.
    - rewrite map_app. cbn -[Z.add]. apply NoDup_app; [exact K3 | | ].
      + repeat constructor. intros [].
      + intros i I [<-|[]]. apply in_map_iff in I. destruct I as (t & E' & T).
        rewrite Forall_forall in K2. specialize (K2 t T). lia. }
  split.
  - unfold player. cbn -[Z.add]. rewrite filter_app, F. cbn -[Z.add].
    split; [reflexivity | discriminate].
  - destruct R as [(_ & R1 & R2)|(id & due & _ & R1 & R2 & R3)].
    + left. split; [apply K'|]. split; [exact R1|]. cbn -[Z.add].
      rewrite filter_app, R2. reflexivity.
    + right. exists id, due. split; [apply K'|]. split; [exact R1|].
      split; [exact R2|]. cbn -[Z.add]. rewrite filter_app, R3. reflexivity.
Qed.

Lemma on_resize_eq (w : World) :
  on_resize w
  = (Normal tt,
     Build_World
       (set_resizeId (timer_ids (window w) + 1) (this w))
       (set_timers
          ((if 0 <? resizeId (this w)
            then filter (fun t => negb (timer_id t =? resizeId (this w))) (timers (window w))
            else timers (window w))
           ++ [Build_Timer (timer_ids (window w) + 1) (now (window w) + 500) None
                 ResizeTimeout])
          (set_timer_ids (timer_ids (window w) + 1) (window w)))).
Proof.
  unfold on_resize, setTimeout, add_timer, clearTimeout. unfold_m. cbn -[Z.add].
  destruct (0 <? resizeId (this w)); reflexivity.
Qed.

Lemma on_resize_scheduled (w : World) : scheduled w -> scheduled (exec on_resize w).
Proof.
  intros (P & R). destruct (on_resize_arms w R) as (id & A & _).
  split; [|right; eauto].
  unfold exec. rewrite on_resize_eq. cbn [snd]. unfold player. cbn -[Z.add].
  rewrite filter_app. cbn -[Z.add]. rewrite app_nil_r.
  destruct R as [(_ & R1 & _)|(rid & due & X)].
  - rewrite R1. cbn. exact P.
  - pose proof X as (X0 & X1 & X2 & X3). rewrite X1.
    destruct (Z.ltb_spec 0 rid); [|lia].
    rewrite (clear_resize_keeps_player w rid due X). exact P.
Qed.

Lemma refresh_autoplayId : preserves (fun w => autoplayId (this w)) refresh.
Proof. frame. Qed.

(** Without a pending handle [refresh] leaves the timers alone. *)
Lemma refresh_idle (w : World) :
  resizeId (this w) <= 0 -> clockwork (exec refresh w) = clockwork w.
Proof.
  intros P. unfold refresh.
  rewrite (exec_bind_normal _ _ w w (resizeId (this w))) by reflexivity.
  destruct (Z.ltb_spec 0 (resizeId (this w))) as [|_]; [lia|].
  rewrite (exec_bind_normal _ _ w w tt) by reflexivity.
  match goal with |- context [exec ?rest ?w1] =>
    assert (S : preserves clockwork rest) by frame; specialize (S w1) end.
  exact S.
Qed.

Lemma filter_idem {A : Type} (f : A -> bool) (l : list A) :
  filter f (filter f l) = filter f l.
Proof.
  apply filter_all. apply Forall_forall. intros a I. apply filter_In in I. apply I.
Qed.

Lemma refresh_scheduled (w : World) : scheduled w -> scheduled (exec refresh w).
Proof.
  intros (P & R). destruct R as [Q|(id & due & A)].
  - apply (scheduled_clockwork w); [|split; [exact P | now left]].
    apply refresh_idle. destruct Q as (_ & Q & _). lia.
  - pose proof A as (K & R1 & R2 & R3).
    destruct (refresh_clears w) as [W Z0]; [lia|].
    pose proof (refresh_autoplayId w) as I. cbv beta in I.
    split.
    + unfold player. rewrite W, I, R1. cbn.
      rewrite (clear_resize_keeps_player w id due A). exact P.
    + left. split; [|split; [exact Z0|]].
      * destruct K as (K1 & K2 & K3). unfold timers_ok. rewrite W. cbn.
        split; [exact K1|]. split; [now apply bound_filter | now apply nodup_ids_filter].
      * rewrite W, R1. cbn. rewrite filter_comm, R3. cbn. now rewrite Z.eqb_refl.
Qed.

Lemma clearTimeout_eq (id : Z) (w : World) :
  exec (clearTimeout id) w
  = Build_World (this w)
      (set_timers (filter (fun t => negb (timer_id t =? id)) (timers (window w)))
                  (window w)).
Proof. reflexivity. Qed.

Lemma fire_autoplay_player (t : Timer) (w : World) :
  timer_callback t = AutoplayTick -> timer_every t <> None ->
  player w -> player (fire t w).
Proof.
  intros C E P. unfold fire. destruct (pending _ _); [|exact P].
  rewrite C. cbn [run_callback].
  pose proof (autoplay_tick_schedule w) as S. unfold schedule in S.
  injection S as S1 S2 S3.
  destruct (timer_every t) as [delay|]; [|now elim E].
  unfold player in *. cbn. rewrite S1, S3. cbn. rewrite autoplay_timers_rearm.
  destruct (filter is_autoplay_timer (timers (window w))) as [|u [|v rest]];
    [exact P | | contradiction].
  cbn. unfold rearm. destruct (timer_id u =? timer_id t); exact P.
Qed.

Lemma fire_resize_player (w : World) (id due : Z) :
  armed id due w -> player w ->
  player (fire (Build_Timer id due None ResizeTimeout) w).
Proof.
  intros A P. pose proof A as (K & R1 & R2 & R3).
  unfold fire. cbn [timer_id timer_callback timer_every].
  destruct (pending id w); [|exact P]. cbn [run_callback].
  destruct (refresh_clears w) as [W Z0]; [lia|].
  pose proof (refresh_autoplayId w) as I. cbv beta in I.
  rewrite clearTimeout_eq. set (w1 := exec refresh w) in *.
  unfold player. cbn [this window timers set_timers set_fired]. rewrite W, I, R1.
  cbn [timers set_timers]. rewrite filter_idem.
  rewrite (clear_resize_keeps_player w id due A). exact P.
Qed.

Lemma fold_fire_player_quiescent (due : list Timer) :
  Forall (fun t => is_resize_timer t = false /\ timer_every t <> None) due ->
  forall w, quiescent w -> player w ->
    let w' := fold_left (fun w t => fire t w) due w in
    quiescent w' /\ player w'.
Proof.
  induction 1 as [|t due [T E] _ IH]; intros w Q P; cbn [fold_left]; [auto|].
  apply IH.
  - apply (fire_autoplay_quiescent t w (not_resize_is_autoplay t T) Q).
  - now apply fire_autoplay_player; [apply not_resize_is_autoplay| |].
Qed.

Lemma fold_fire_player_armed (due : list Timer) (id d : Z) :
  Forall (fun t => (is_resize_timer t = false /\ timer_id t <> id)
                   /\ timer_every t <> None) due ->
  forall w, armed id d w -> player w ->
    let w' := fold_left (fun w t => fire t w) due w in
    armed id d w' /\ player w'.
Proof.
  induction 1 as [|t due [[T I] E] _ IH]; intros w A P; cbn [fold_left]; [auto|].
  apply IH.
  - apply (fire_autoplay_armed t w id d (not_resize_is_autoplay t T) I A).
  - now apply fire_autoplay_player; [apply not_resize_is_autoplay| |].
Qed.

(** The pending autoplay timer, if any, is an interval timer. *)
Lemma player_interval (w : World) (t : Timer) :
  player w -> In t (timers (window w)) -> is_resize_timer t = false ->
  timer_every t <> None.
Proof.
  intros P I R. unfold player in P.
  assert (A : In t (filter is_autoplay_timer (timers (window w)))).
  { apply filter_In. split; [exact I|].
    destruct (callback_cases t) as [[X _]|[_ X]]; congruence. }
  destruct (filter is_autoplay_timer (timers (window w))) as [|u [|v rest]];
    [contradiction | | contradiction].
  destruct A as [<-|[]]. apply P.
Qed.

Lemma tick_scheduled (w : World) : scheduled w -> scheduled (tick w).
Proof.
  intros (P & R). unfold tick. fold (later w).
  assert (P1 : player (later w)) by exact P.
  set (due := filter (fun t => timer_due t <=? now (window (later w)))
                     (timers (window (later w)))).
  assert (Sub : forall t, In t due -> In t (timers (window w))).
  { intros t T. unfold due in T. apply filter_In in T. apply T. }
  destruct R as [Q|(id & d & A)].
  - destruct (fold_fire_player_quiescent due) with (w := later w) as (Q' & P').
    + apply Forall_forall. intros t T. specialize (Sub t T).
      assert (R : is_resize_timer t = false).
      { destruct (is_resize_timer t) eqn:R; [|reflexivity].
        assert (I : In t (filter is_resize_timer (timers (window w))))
          by (apply filter_In; split; assumption).
        destruct Q as (_ & _ & F). rewrite F in I. contradiction. }
      split; [exact R | now apply (player_interval w)].
    + exact Q.
    + exact P1.
    + split; [exact P' | now left].
  - assert (A1 : armed id d (later w)) by exact A.
    assert (Others : forall l, incl l due ->
              Forall (fun t => is_resize_timer t = false) l ->
              Forall (fun t => (is_resize_timer t = false /\ timer_id t <> id)
                               /\ timer_every t <> None) l).
    { intros l I H. apply Forall_forall. intros t T. rewrite Forall_forall in H.
      specialize (H t T). specialize (Sub t (I t T)).
      split; [split; [exact H | now apply (others_differ w id d)]
             | now apply (player_interval w)]. }
    destruct (filter is_resize_timer due) as [|rt rest] eqn:F.
    + destruct (fold_fire_player_armed due id d) with (w := later w) as (A' & P').
      * apply Others; [apply incl_refl|].
        apply Forall_forall. intros t T.
        destruct (is_resize_timer t) eqn:R; [|reflexivity].
        assert (I : In t (filter is_resize_timer due)) by (apply filter_In; auto).
        rewrite F in I. contradiction.
      * exact A1.
      * exact P1.
      * split; [exact P' | right; eauto].
    + assert (F' : filter is_resize_timer due = [Build_Timer id d None ResizeTimeout]).
      { pose proof A as (_ & _ & _ & X). unfold due in *. rewrite filter_comm in *.
        change (timers (window (later w))) with (timers (window w)) in *.
        rewrite X in *. cbn in *.
        destruct (d <=? now (window w) + 1); [reflexivity | discriminate]. }
      destruct (filter_singleton_split _ _ _ F') as (before & after & E & B & C).
      rewrite E, fold_left_app. cbn [fold_left].
      destruct (fold_fire_player_armed before id d) with (w := later w) as (A2 & P2).
      { apply Others; [|exact B]. rewrite E. intros t T. apply in_or_app. now left. }
      { exact A1. }
      { exact P1. }
      pose proof (fire_resize_player _ id d A2 P2) as P3.
      destruct (fire_resize_timer _ id d A2) as (Q3 & _).
      cbv zeta in *.
      destruct (fold_fire_player_quiescent after) with (w := fire (Build_Timer id d None ResizeTimeout) (fold_left (fun w t => fire t w) before (later w))) as (Q4 & P4).
      { apply Forall_forall. intros t T. rewrite Forall_forall in C.
        split; [now apply C|]. apply (player_interval w); [exact P | | now apply C].
        apply Sub. rewrite E. apply in_or_app. right. now right. }
      { exact Q3. }
      { exact P3. }
      split; [exact P4 | now left].
Qed.

Lemma wait_scheduled (ms : nat) : forall w, scheduled w -> scheduled (wait ms w).
Proof.
  induction ms as [|ms IH]; intros w S; cbn [wait]; [exact S|].
  apply IH. now apply tick_scheduled.
Qed.

Lemma timers_partition (l : list Timer) :
  List.length l
  = (List.length (filter is_autoplay_timer l) + List.length (filter is_resize_timer l))%nat.
Proof.
  induction l as [|t l IH]; cbn [filter List.length]; [reflexivity|].
  destruct (callback_cases t) as [[A R]|[A R]]; rewrite A, R; cbn [List.length]; lia.
Qed.

Lemma call_scheduled (m : Method) (w : World) : scheduled w -> scheduled (exec (call m) w).
Proof.
  intros S. destruct m; cbn [call].
  - eapply scheduled_clockwork; [apply nextSlide_clockwork | exact S].
  - eapply scheduled_clockwork; [apply previousSlide_clockwork | exact S].
  - eapply scheduled_clockwork; [apply changeSlide_clockwork | exact S].
  - eapply scheduled_clockwork; [apply enableDragging_clockwork | exact S].
  - eapply scheduled_clockwork; [apply disableDragging_clockwork | exact S].
  - eapply scheduled_clockwork; [apply changeAnimation_clockwork | exact S].
  - eapply scheduled_clockwork; [apply setFullWidthSlide_clockwork | exact S].
  - eapply scheduled_clockwork; [apply addBullets_clockwork | exact S].
  - eapply scheduled_clockwork; [apply removeBullets_clockwork | exact S].
  - now apply startAutoplay_scheduled.
  - now apply stopAutoplay_scheduled.
  - now apply refresh_scheduled.
Qed.

Lemma run_scheduled (inputs : list Input) :
  forall w, scheduled w -> scheduled (run inputs w).
Proof.
  induction inputs as [|i inputs IH]; intros w S; [exact S|].
  cbn [run fold_left]. apply IH. destruct i as [e| |ms|m|l]; cbn [step].
  - eapply scheduled_clockwork; [apply dispatch_clockwork | exact S].
  - now apply on_resize_scheduled.
  - now apply wait_scheduled.
  - now apply call_scheduled.
  - exact S.
Qed.

(** Timers never pile up.  From a world with well-formed timers, whatever
    events, resize signals, waits, public calls and layout changes follow,
    at most one autoplay timer is pending (the interval whose handle
    [autoplayId] holds; none while [autoplayId] is 0) and at most one resize
    timer is (the timeout whose handle [resizeId] holds; none while
    [resizeId] is 0): the timer table never holds more than two timers. *)
Theorem timers_stay_scheduled (w : World) (inputs : list Input) :
  scheduled w ->
  scheduled (run inputs w)
  /\ (List.length (filter is_autoplay_timer (timers (window (run inputs w)))) <= 1)%nat
  /\ (List.length (filter is_resize_timer (timers (window (run inputs w)))) <= 1)%nat
  /\ (List.length (timers (window (run inputs w))) <= 2)%nat.
Proof.
  intros S.
  pose proof (run_scheduled inputs w S) as R.
  split; [exact R|].
  assert (A : (List.length (filter is_autoplay_timer (timers (window (run inputs w)))) <= 1)%nat).
  { destruct R as (P & _). unfold player in P.
    destruct (filter is_autoplay_timer _) as [|t [|u rest]]; cbn; try lia; contradiction. }
  assert (B : (List.length (filter is_resize_timer (timers (window (run inputs w)))) <= 1)%nat).
  { destruct R as (_ & [(_ & _ & F)|(id & due & _ & _ & _ & F)]); rewrite F; cbn; lia. }
  split; [exact A|]. split; [exact B|]. rewrite timers_partition. lia.
Qed.

Lemma page_scheduled (n : nat) (l : Dom -> Element -> DOMRect) : scheduled (page n l).
Proof.
  split; [reflexivity|]. left. unfold quiescent, timers_ok. cbn.
  repeat split; try lia; constructor.
Qed.

Lemma timers_stay_scheduled_witness :
  let inputs := [Call (call_startAutoplay (Finite (inject_Z 300))); Resize; Wait 200;
                 Call (call_startAutoplay (Finite (inject_Z 50))); Resize; Wait 120; Resize] in
  List.length (timers (window (run inputs (page 3 (flat_layout 0 0))))) = 2%nat.
Proof.
  intros inputs.
  destruct (timers_stay_scheduled (page 3 (flat_layout 0 0)) inputs
              (page_scheduled 3 (flat_layout 0 0))) as (_ & _ & _ & Le).
  assert (Ge : (2 <= List.length (timers (window (run inputs (page 3 (flat_layout 0 0))))))%nat)
    by (vm_compute; lia).
  lia.
Defined.

Lemma stopAutoplay_resize_timers (w : World) :
  scheduled w ->
  filter is_resize_timer (timers (window (exec stopAutoplay w)))
  = filter is_resize_timer (timers (window w)).
Proof.
  intros (P & R).
  assert (K : timers_ok w) by (destruct R as [Q|(id & due & A)]; [apply Q | apply A]).
  unfold exec. rewrite stopAutoplay_eq. cbn [snd].
  destruct (player_cases w K P) as [(Z0 & F)|(t & F & I & E & Pos)].
  - now rewrite Z0.
  - destruct (Z.eqb_spec (autoplayId (this w)) 0) as [X|_]; [lia|].
    rewrite <- I. cbn. apply (clear_player w t K F).
Qed.

Lemma stopAutoplay_position : preserves position stopAutoplay.
Proof. frame. Qed.

(** Starting autoplay restarts it.  From a world with well-formed timers,
    [startAutoplay] with a positive safe integer delay leaves exactly one
    autoplay timer pending, whether or not autoplay was running: the new
    interval, whose handle is the new [autoplayId].  It is armed with the
    delay as the browser's timer takes it, a signed 32-bit integer, and is
    first due that long from now: for a delay up to [2 ^ 31 - 1] that is
    the delay itself, while the accepted delay [2 ^ 31] wraps to a negative
    number and counts as 0.  The pending resize timer, if any,
    is not touched, and neither are the active index and the slides. *)
Theorem startAutoplay_restarts (w : World) (delay : Z) :
  scheduled w ->
  1 <= delay <= MAX_SAFE_INTEGER ->
  let w' := exec (startAutoplay (Finite (inject_Z delay))) w in
  filter is_autoplay_timer (timers (window w'))
  = [Build_Timer (autoplayId (this w')) (now (window w) + timer_delay delay)
       (Some (timer_delay delay)) AutoplayTick]
  /\ (delay <= 2 ^ 31 - 1 -> timer_delay delay = delay)
  /\ (delay = 2 ^ 31 -> timer_delay delay = 0)
  /\ 0 < autoplayId (this w')
  /\ autoplayId (this w') <> autoplayId (this w)
  /\ filter is_resize_timer (timers (window w')) = filter is_resize_timer (timers (window w))
  /\ position w' = position w.
Proof.
  intros S V. cbv zeta.
  destruct (valid_delay_accepted delay V) as [Ok Val].
  pose proof (startAutoplay_position (Finite (inject_Z delay)) w) as Pos.
  split; [|split; [intros Small; apply timer_delay_small; lia|]].
  2: split; [intros ->; reflexivity|].
  2: split; [|split; [|split; [|exact Pos]]].
  all: clear Pos; unfold startAutoplay; rewrite Ok, Val;
    destruct (stopAutoplay_scheduled w S) as ((_ & R) & F & A & I & T);
    pose proof (stopAutoplay_resize_timers w S) as Rz;
    assert (E : stopAutoplay w = (Normal tt, exec stopAutoplay w))
      by (rewrite stopAutoplay_eq; unfold exec; now rewrite stopAutoplay_eq);
    rewrite (exec_bind_normal _ _ w (exec stopAutoplay w) tt E);
    set (v := exec stopAutoplay w) in *;
    assert (K : timers_ok v) by (destruct R as [Q|(id & due & X)]; [apply Q | apply X]);
    unfold exec, setInterval, add_timer; unfold_m; cbn -[Z.add].
  - rewrite filter_app, F, T. reflexivity.
  - destruct K as (K1 & _). lia.
  - rewrite I. destruct S as (P & S).
    assert (Kw : timers_ok w) by (destruct S as [Q|(id & due & X)]; [apply Q | apply X]).
    destruct (player_cases w Kw P) as [(Z0 & _)|(t & Ft & It & _ & _)].
    + destruct Kw as (K1 & _). lia.
    + assert (In t (timers (window w))).
      { apply (proj1 (filter_In is_autoplay_timer t (timers (window w)))). rewrite Ft. now left. }
      destruct Kw as (_ & K2 & _). rewrite Forall_forall in K2. specialize (K2 t H). lia.
  - rewrite filter_app, Rz. cbn. now rewrite app_nil_r.
Qed.

Lemma startAutoplay_restarts_witness :
  let w := exec (startAutoplay (Finite (inject_Z 300))) (page 3 (flat_layout 0 0)) in
  filter is_autoplay_timer
    (timers (window (exec (startAutoplay (Finite (inject_Z 50))) w)))
  = [Build_Timer 2 50 (Some 50) AutoplayTick]
  /\ filter is_autoplay_timer
       (timers (window (exec (startAutoplay (Finite (inject_Z (2 ^ 31)))) w)))
     = [Build_Timer 2 0 (Some 0) AutoplayTick].
Proof.
  intros w.
  assert (S : scheduled w).
  { apply (startAutoplay_scheduled (page 3 (flat_layout 0 0))). apply page_scheduled. }
  assert (V : 1 <= 50 <= MAX_SAFE_INTEGER) by (unfold MAX_SAFE_INTEGER; lia).
  assert (V' : 1 <= 2 ^ 31 <= MAX_SAFE_INTEGER) by (unfold MAX_SAFE_INTEGER; lia).
  split.
  - destruct (startAutoplay_restarts w 50 S V) as (F & _). rewrite F. reflexivity.
  - destruct (startAutoplay_restarts w (2 ^ 31) S V') as (F & _). rewrite F. reflexivity.
Defined.

(** *** Once stopped, autoplay stays stopped *)

Lemma refresh_fired : preserves (fun w => fired (window w)) refresh.
Proof. frame. Qed.

Lemma slideTransition_position : preserves position slideTransition.
Proof.
  intros w. pose proof (slideTransition_frame w) as F. unfold beyond_commit in F.
  injection F as F1 F2 _ _ _ _ _ _ _ _ _. unfold position. now rewrite F1, F2.
Qed.

Lemma set_widths_position (WIDTH : string) :
  preserves position
    (s <- read_dom slides ;; write_dom set_slides (map (set_style_width WIDTH) s)).
Proof. intros w. unfold position, exec. unfold_m. cbn. now rewrite length_map. Qed.

Lemma refresh_position : preserves position refresh.
Proof.
  unfold refresh.
  apply preserves_bind; [frame | intros id].
  apply preserves_bind; [frame | intros _].
  apply preserves_bind; [frame | intros width]. cbv zeta.
  apply preserves_bind; [frame | intros full].
  apply preserves_bind; [apply preserves_when, set_widths_position | intros _].
  apply preserves_bind; [frame | intros _].
  apply preserves_bind; [frame | intros a].
  apply preserves_when, slideTransition_position.
Qed.

Lemma refresh_now : preserves (fun w => now (window w)) refresh.
Proof. frame. Qed.

Lemma refresh_timers_shrink (w : World) :
  exists keep, timers (window (exec refresh w)) = filter keep (timers (window w)).
Proof.
  destruct (Z.ltb_spec 0 (resizeId (this w))) as [P|P].
  - destruct (refresh_clears w P) as [W _]. rewrite W. eexists. reflexivity.
  - pose proof (refresh_idle w P) as C. unfold clockwork in C. injection C as C _ _ _.
    exists (fun _ => true). rewrite C. symmetry. apply filter_all.
    apply Forall_forall. reflexivity.
Qed.

Lemma fire_silent (t : Timer) (w : World) :
  is_resize_timer t = true ->
  filter is_autoplay_timer (timers (window w)) = [] ->
  filter is_autoplay_timer (timers (window (fire t w))) = []
  /\ ticks (fire t w) = ticks w
  /\ position (fire t w) = position w.
Proof.
  intros R S. unfold fire. destruct (pending _ _); [|auto].
  assert (C : timer_callback t = ResizeTimeout).
  { unfold is_resize_timer in R. destruct (timer_callback t); [discriminate | reflexivity]. }
  rewrite C. cbn [run_callback].
  destruct (refresh_timers_shrink w) as [keep T].
  pose proof (refresh_fired w) as F. pose proof (refresh_position w) as P.
  cbv beta in F.
  set (w1 := exec refresh w) in *.
  destruct (timer_every t) as [delay|].
  - cbn [this window timers set_timers set_fired fired]. unfold ticks, position.
    cbn [this window timers set_timers set_fired fired].
    rewrite autoplay_timers_rearm, T, filter_comm, S, F. auto.
  - rewrite clearTimeout_eq. unfold ticks, position.
    cbn [this window timers set_timers set_fired fired].
    rewrite T, filter_comm, (filter_comm is_autoplay_timer), S, F. auto.
Qed.

Lemma fold_fire_silent (due : list Timer) :
  Forall (fun t => is_resize_timer t = true) due ->
  forall w, filter is_autoplay_timer (timers (window w)) = [] ->
    let w' := fold_left (fun w t => fire t w) due w in
    filter is_autoplay_timer (timers (window w')) = []
    /\ ticks w' = ticks w /\ position w' = position w.
Proof.
  induction 1 as [|t due R _ IH]; intros w S; cbn [fold_left]; [auto|].
  destruct (fire_silent t w R S) as (S1 & T1 & P1).
  destruct (IH _ S1) as (S2 & T2 & P2). cbv zeta in *.
  split; [exact S2|]. split; congruence.
Qed.

Lemma wait_silent (ms : nat) :
  forall w, filter is_autoplay_timer (timers (window w)) = [] ->
    filter is_autoplay_timer (timers (window (wait ms w))) = []
    /\ ticks (wait ms w) = ticks w /\ position (wait ms w) = position w.
Proof.
  induction ms as [|ms IH]; intros w S; cbn [wait]; [auto|].
  assert (T : filter is_autoplay_timer (timers (window (tick w))) = []
              /\ ticks (tick w) = ticks w /\ position (tick w) = position w).
  { unfold tick. fold (later w).
    apply (fold_fire_silent _) with (w := later w); [|exact S].
    apply Forall_forall. intros t I. apply filter_In in I. destruct I as [I _].
    destruct (callback_cases t) as [[A _]|[_ R]]; [|exact R].
    assert (X : In t (filter is_autoplay_timer (timers (window w))))
      by (apply filter_In; split; assumption).
    rewrite S in X. contradiction. }
  destruct T as (S1 & T1 & P1). destruct (IH _ S1) as (S2 & T2 & P2).
  split; [exact S2|]. split; congruence.
Qed.

(** [stopAutoplay] never throws, changes nothing when autoplay is not
    running, and is idempotent.  From a world with well-formed timers it
    leaves no autoplay timer pending, so that however long one then waits,
    no autoplay tick runs and the active index stays where it is; the
    pending resize timer, if any, is not touched. *)
Theorem stopAutoplay_is_final (w : World) (ms : nat) :
  scheduled w ->
  let w' := exec stopAutoplay w in
  stopAutoplay w = (Normal tt, w')
  /\ (autoplayId (this w) = 0 -> w' = w)
  /\ exec stopAutoplay w' = w'
  /\ autoplayId (this w') = 0
  /\ filter is_autoplay_timer (timers (window w')) = []
  /\ filter is_resize_timer (timers (window w')) = filter is_resize_timer (timers (window w))
  /\ ticks (wait ms w') = ticks w
  /\ position (wait ms w') = position w.
Proof.
  intros S. cbv zeta.
  destruct (stopAutoplay_scheduled w S) as (_ & F & A & _).
  pose proof (stopAutoplay_resize_timers w S) as R.
  destruct (wait_silent ms _ F) as (_ & T & P).
  split; [rewrite stopAutoplay_eq; unfold exec; now rewrite stopAutoplay_eq|].
  split; [intros Z0; unfold exec; rewrite stopAutoplay_eq; cbn [snd]; now rewrite Z0|].
  split.
  { unfold exec at 1. rewrite stopAutoplay_eq. cbn [snd]. now rewrite A. }
  split; [exact A|]. split; [exact F|]. split; [exact R|].
  split.
  - rewrite T. unfold exec. rewrite stopAutoplay_eq. cbn [snd].
    destruct (autoplayId (this w) =? 0); reflexivity.
  - rewrite P. apply stopAutoplay_position.
Qed.

Lemma stopAutoplay_is_final_witness :
  let w := run [Call (call_startAutoplay (Finite (inject_Z 40))); Wait 100]
               (page 3 (flat_layout 0 0)) in
  (ticks w, activeIndex (this w)) = (2%nat, Number_of_Z 2)
  /\ (ticks (wait 1000 (exec stopAutoplay w)),
      fst (position (wait 1000 (exec stopAutoplay w)))) = (2%nat, Number_of_Z 2).
Proof.
  intros w.
  assert (S : scheduled w).
  { exact (run_scheduled [Call (call_startAutoplay (Finite (inject_Z 40))); Wait 100]
             (page 3 (flat_layout 0 0)) (page_scheduled 3 (flat_layout 0 0))). }
  destruct (stopAutoplay_is_final w 1000 S) as (_ & _ & _ & _ & _ & _ & T & P).
  split; [vm_compute; reflexivity|]. rewrite T, P. vm_compute. reflexivity.
Defined.

(** ** A whole gesture *)

Lemma dragStart_eq (w : World) (x : Z) :
  beingDraggedRemote (this w) = None ->
  dragStart x w
  = (Normal tt,
     Build_World
       (set_beingDraggedRemote (Some (S (controllers (window w))))
          (set_dragStartingPoint x
             (set_dom (set_rail (set_style_transition "all 0s linear 0s"
                                   (rail (dom (this w)))) (dom (this w)))
                (this w))))
       (set_listeners (listeners (window w) ++ session_listeners (S (controllers (window w))))
          (set_controllers (S (controllers (window w))) (window w)))).
Proof.
  intros H. unfold dragStart, new_AbortController, addEventListener.
  unfold_m. cbn. rewrite H. cbn. now rewrite <- !app_assoc.
Qed.

Lemma moves_collapse (moves : list Z) :
  forall (x : Z) (w : World),
    wired w -> beingDraggedRemote (this w) <> None ->
    run (map (fun x => Dispatch (MouseMove x)) (x :: moves)) w
    = exec (dragUpdate (last (x :: moves) 0)) w.
Proof.
  induction moves as [|y moves IH]; intros x w W B.
  - cbn [map run fold_left step last].
    rewrite (dispatch_heard w (MouseMove x) W). unfold heard. cbn [is_start].
    destruct (beingDraggedRemote (this w)); [reflexivity | now elim B].
  - change (run (map (fun x => Dispatch (MouseMove x)) (x :: y :: moves)) w)
      with (run (map (fun x => Dispatch (MouseMove x)) (y :: moves))
              (dispatch (MouseMove x) w)).
    assert (E : dispatch (MouseMove x) w = exec (dragUpdate x) w).
    { rewrite (dispatch_heard w (MouseMove x) W). unfold heard. cbn [is_start].
      destruct (beingDraggedRemote (this w)); [reflexivity | now elim B]. }
    rewrite E.
    pose proof (dragUpdate_wiring x w) as Wi.
    rewrite IH.
    + change (last (x :: y :: moves) 0) with (last (y :: moves) 0).
      unfold exec. rewrite !dragUpdate_eq. cbn [snd].
      destruct (beingDraggedRemote (this w)) as [b|] eqn:Bw; [|now elim B].
      cbn [this beingDraggedRemote set_dom set_skipNextAutoplay]. rewrite Bw. reflexivity.
    + now apply (wired_wiring w).
    + unfold wiring in Wi. injection Wi as _ _ Wb _ _. now rewrite Wb.
Qed.

Lemma dragEnd_position (w : World) (dragging : AbortController) :
  beingDraggedRemote (this w) = Some dragging ->
  position (exec dragEnd w)
  = (Number_of_Z
       (threshold_rule (List.length (slides (dom (this w))))
          (rect_left (layout (window w) (released (dom (this w))) Viewport))
          (fun index => rect_left (layout (window w) (released (dom (this w))) (Slide index)))),
     List.length (slides (dom (this w)))).
Proof.
  intros B. rewrite (exec_congr _ _ _ _ (dragEnd_unfold w dragging B)).
  now rewrite slideTransition_position.
Qed.

Lemma dragEnd_sets_flag (w : World) (dragging : AbortController) :
  beingDraggedRemote (this w) = Some dragging ->
  skipNextAutoplay (this (exec dragEnd w)) = true.
Proof.
  intros B. rewrite (exec_congr _ _ _ _ (dragEnd_unfold w dragging B)).
  apply slideTransition_sets_flag.
Qed.

(** A whole mouse gesture.  On a wired, idle widget with dragging enabled
    and at least one slide, a mouse-down, any number of mouse-moves and a
    mouse-up commit the index the threshold rule gives for the tree in
    which the rail stands where the last move put it (where it stood, when
    there was no move): the moves in between do not matter.  The widget is
    idle again afterwards: no session, the listeners it had before, the
    rail transition restored, the autoplay suppression flag set, and an
    active index that names a slide. *)
Theorem mouse_gesture (w : World) (x0 x_up : Z) (moves : list Z) :
  wired w ->
  draggableRemote (this w) <> None ->
  beingDraggedRemote (this w) = None ->
  (1 <= List.length (slides (dom (this w))))%nat ->
  let last_left :=
    match moves with
    | [] => style_left (rail (dom (this w)))
    | _ => toPixel (currentOffset (this w) + (last moves 0 - x0))
    end in
  let measured :=
    layout (window w)
      (released (set_rail (set_style_left last_left (rail (dom (this w)))) (dom (this w)))) in
  let w' := run (Dispatch (MouseDown x0)
                 :: map (fun x => Dispatch (MouseMove x)) moves
                 ++ [Dispatch (MouseUp x_up)]) w in
  activeIndex (this w')
  = threshold_rule (List.length (slides (dom (this w))))
      (rect_left (measured Viewport)) (fun index => rect_left (measured (Slide index)))
  /\ in_range (this w')
  /\ beingDraggedRemote (this w') = None
  /\ draggableRemote (this w') = draggableRemote (this w)
  /\ listeners (window w') = listeners (window w)
  /\ style_transition (rail (dom (this w'))) = ""
  /\ skipNextAutoplay (this w') = true.
Proof.
  intros W D B N. cbv zeta.
  set (b := S (controllers (window w))).
  (* the mouse-down *)
  assert (E1 : dispatch (MouseDown x0) w = exec (dragStart x0) w).
  { rewrite (dispatch_heard w (MouseDown x0) W). unfold heard. cbn [is_start].
    destruct (draggableRemote (this w)); [reflexivity | now elim D]. }
  pose proof (dragStart_eq w x0 B) as S1. fold b in S1.
  assert (W1 : wired (exec (dragStart x0) w)) by now apply dragStart_wired.
  (* the moves *)
  set (last_left := match moves with
                    | [] => style_left (rail (dom (this w)))
                    | _ => toPixel (currentOffset (this w) + (last moves 0 - x0))
                    end).
  assert (E2 : exists v,
             run (map (fun x => Dispatch (MouseMove x)) moves) (exec (dragStart x0) w) = v
             /\ wired v
             /\ beingDraggedRemote (this v) = Some b
             /\ draggableRemote (this v) = draggableRemote (this w)
             /\ listeners (window v) = listeners (window w) ++ session_listeners b
             /\ layout (window v) = layout (window w)
             /\ slides (dom (this v)) = slides (dom (this w))
             /\ released (dom (this v))
                = released (set_rail (set_style_left last_left (rail (dom (this w))))
                              (dom (this w)))).
  { destruct moves as [|x moves].
    - exists (exec (dragStart x0) w). split; [reflexivity|]. split; [exact W1|].
      unfold exec. rewrite S1. cbn. repeat split; reflexivity.
    - exists (exec (dragUpdate (last (x :: moves) 0)) (exec (dragStart x0) w)).
      split.
      { apply moves_collapse; [exact W1|]. unfold exec. rewrite S1. discriminate. }
      split.
      { eapply wired_wiring; [apply dragUpdate_wiring | exact W1]. }
      unfold exec. rewrite S1. cbn [snd]. rewrite dragUpdate_eq. cbn [snd].
      cbn -[Z.add Z.sub last toPixel]. repeat split; reflexivity. }
  destruct E2 as (v & E2 & W2 & B2 & D2 & L2 & Y2 & S2 & R2).
  (* the mouse-up *)
  assert (E3 : dispatch (MouseUp x_up) v = exec dragEnd v).
  { rewrite (dispatch_heard v (MouseUp x_up) W2). unfold heard. cbn [is_start].
    now rewrite B2. }
  assert (Run : run (Dispatch (MouseDown x0)
                     :: map (fun x => Dispatch (MouseMove x)) moves
                     ++ [Dispatch (MouseUp x_up)]) w = exec dragEnd v).
  { change (run (Dispatch (MouseDown x0) :: ?l) w) with (run l (dispatch (MouseDown x0) w)).
    rewrite run_app, E1, E2. exact E3. }
  rewrite Run.
  destruct (dragEnd_closes v b B2) as (C1 & _ & C3 & C4 & C5 & _).
  pose proof (dragEnd_position v b B2) as P. unfold position in P.
  rewrite S2, Y2, R2 in P. injection P as P1 P2.
  split; [exact P1|]. split.
  { apply (integer_in_range _ _ P1). rewrite P2. now apply threshold_rule_in_range. }
  split; [exact C3|]. split; [now rewrite C4|]. split.
  { rewrite C5, L2. destruct W as ((Lw & _ & _) & _). rewrite Lw, B, app_nil_r.
    destruct (draggableRemote (this w)) as [c|] eqn:Dw; [|now elim D].
    destruct W1 as ((_ & _ & X) & _).
    assert (Bd : beingDraggedRemote (this (exec (dragStart x0) w)) = Some b)
      by (unfold exec; rewrite S1; reflexivity).
    destruct (X b Bd) as (_ & _ & Ne).
    assert (Dd : draggableRemote (this (exec (dragStart x0) w)) = Some c)
      by (unfold exec; rewrite S1; exact Dw).
    assert (Nc : c <> b) by congruence.
    rewrite filter_app.
    change (fun l => negb (Nat.eqb (listener_signal l) b)) with (not_of b).
    rewrite (proj1 (filter_other_listeners b c Nc)), (proj2 (filter_own_listeners b)).
    now rewrite app_nil_r. }
  split; [exact C1|]. now apply (dragEnd_sets_flag v b).
Qed.

Lemma mouse_gesture_witness :
  let w := exec enableDragging (page 3 (rigid_layout 0)) in
  let w' := run [Dispatch (MouseDown 100); Dispatch (MouseMove 60);
                 Dispatch (MouseMove 20); Dispatch (MouseUp 20)] w in
  activeIndex (this w') = 1
  /\ style_left (rail (dom (this w'))) = "-100px"
  /\ listeners (window w') = listeners (window w).
Proof.
  intros w w'.
  assert (W : wired w).
  { split; [split; [reflexivity | split]|].
    - intros starting [= <-]. cbn. lia.
    - intros dragging [=].
    - intros _. reflexivity. }
  assert (D : draggableRemote (this w) <> None) by discriminate.
  assert (B : beingDraggedRemote (this w) = None) by reflexivity.
  assert (N : (1 <= List.length (slides (dom (this w))))%nat) by (cbn; lia).
  destruct (mouse_gesture w 100 20 [60; 20] W D B N) as (A & _ & _ & _ & L & _).
  split; [|split].
  - etransitivity; [exact A | vm_compute; reflexivity].
  - vm_compute; reflexivity.
  - exact L.
Defined.

(** ** The active index always names a slide *)

Lemma safe_ret {A : Type} (a : A) : safe (ret a).
Proof. intros w R. split; [exact R|]. split; [reflexivity | now exists a]. Qed.

Lemma safe_bind {A B : Type} (c : M A) (k : A -> M B) :
  safe c -> (forall a, safe (k a)) -> safe (bind c k).
Proof.
  intros Hc Hk w R. destruct (Hc w R) as (R1 & L1 & a & C1).
  destruct (Hk a (exec c w) R1) as (R2 & L2 & b & C2).
  assert (E : c w = (Normal a, exec c w)).
  { transitivity (fst (c w), snd (c w)); [apply surjective_pairing|]. f_equal. exact C1. }
  rewrite (exec_bind_normal c k w _ a E).
  split; [exact R2|]. split; [congruence|]. exists b.
  rewrite <- C2. apply completion_congr. now apply bind_normal.
Qed.

Lemma safe_when (b : bool) (c : M unit) : safe c -> safe (when b c).
Proof. intros H. destruct b; [exact H | apply safe_ret]. Qed.

Lemma safe_steady {A : Type} (c : M A) (n : nat) (w : World) :
  safe c -> steady n w -> steady n (exec c w).
Proof.
  intros H (R & L). destruct (H w R) as (R1 & L1 & _). split; [exact R1 | congruence].
Qed.

Lemma steady_this (n : nat) (w w' : World) : this w' = this w -> steady n w -> steady n w'.
Proof. intros E S. unfold steady. now rewrite E. Qed.

Create HintDb hold.

(** Decompose a method body along its binds and branches; a leaf is a
    known fact or a step that does not touch the index or the slides. *)
Ltac hold :=
  first
    [ solve [auto with hold]
    | lazymatch goal with
      | |- safe (bind _ _) => apply safe_bind; [hold | intros ?; hold]
      | |- safe (when _ _) => apply safe_when; hold
      | |- safe (ret _) => apply safe_ret
      | |- safe (if ?b then _ else _) => destruct b; hold
      | |- safe (match ?x with _ => _ end) => destruct x; hold
      | |- safe ?c =>
          first [ solve [intros ? R; split;
                         [exact R | split; [reflexivity | eexists; reflexivity]]]
                | let h := head_of c in unfold h; hold ]
      end ].

Lemma slideTransition_safe : safe slideTransition.
Proof.
  intros w R. pose proof (slideTransition_position w) as P. unfold position in P.
  injection P as P1 P2. split; [|split].
  - unfold in_range. rewrite P1, P2. exact R.
  - exact P2.
  - exists tt. now apply slideTransition_normal.
Qed.
#[local] Hint Resolve slideTransition_safe : hold.

Lemma nextSlide_safe : safe nextSlide.
Proof.
  intros w R. destruct (nextSlide_step w R) as (C & _ & _ & L & R').
  split; [exact R'|]. split; [exact L | now exists tt].
Qed.

Lemma previousSlide_safe : safe previousSlide.
Proof.
  intros w R. destruct (previousSlide_step w R) as (C & _ & _ & L & R').
  split; [exact R'|]. split; [exact L | now exists tt].
Qed.

Lemma in_range_populated (w : World) :
  in_range (this w) -> (1 <= List.length (slides (dom (this w))))%nat.
Proof. intros (i & _ & R). lia. Qed.

Lemma dragEnd_safe : safe dragEnd.
Proof.
  intros w R. pose proof (in_range_populated w R) as N.
  destruct (beingDraggedRemote (this w)) as [b|] eqn:B.
  - pose proof (dragEnd_position w b B) as P. unfold position in P. injection P as P1 P2.
    split; [|split].
    + apply (integer_in_range _ _ P1). rewrite P2. now apply threshold_rule_in_range.
    + exact P2.
    + exists tt. now apply (dragEnd_completion w b).
  - unfold exec, completion. rewrite (dragEnd_idle w B). cbn [fst snd].
    split; [exact R|]. split; [reflexivity | now exists tt].
Qed.
#[local] Hint Resolve nextSlide_safe previousSlide_safe dragEnd_safe : hold.

Lemma set_widths_safe (WIDTH : string) :
  safe (s <- read_dom slides ;; write_dom set_slides (map (set_style_width WIDTH) s)).
Proof.
  intros w R. split; [|split].
  - unfold in_range, exec. cbn. rewrite length_map. exact R.
  - unfold exec. cbn. apply length_map.
  - now exists tt.
Qed.
#[local] Hint Resolve set_widths_safe : hold.

Lemma dragStart_safe x : safe (dragStart x).
Proof. hold. Qed.

Lemma dragUpdate_safe x : safe (dragUpdate x).
Proof. hold. Qed.

Lemma disableDragging_safe : safe disableDragging.
Proof. hold. Qed.

Lemma stopAutoplay_safe : safe stopAutoplay.
Proof. hold. Qed.

Lemma refresh_safe : safe refresh.
Proof. hold. Qed.

Lemma on_resize_safe : safe on_resize.
Proof. hold. Qed.

Lemma autoplay_tick_safe : safe autoplay_tick.
Proof. hold. Qed.

Lemma setFullWidthSlide_safe flag : safe (setFullWidthSlide flag).
Proof. hold. Qed.

Lemma addBullets_safe : safe addBullets.
Proof. hold. Qed.

Lemma removeBullets_safe : safe removeBullets.
Proof. hold. Qed.

Lemma on_touchmove_safe touches : safe (on_touchmove touches).
Proof. hold. Qed.

Lemma on_touchend_safe touches : safe (on_touchend touches).
Proof. hold. Qed.

Lemma changeSlide_cases (w : World) (index : Z) :
  changeSlide index w
  = if (index <? 0) || (Z.of_nat (List.length (slides (dom (this w)))) <=? index)
    then (Throw RangeError, w)
    else slideTransition (goto index w).
Proof. rewrite changeSlide_guard. reflexivity. Qed.

Lemma startAutoplay_cases (w : World) (delay : Number) :
  startAutoplay delay w
  = if negb (Number_isSafeInteger delay) || Number_lt_1 delay
    then (Throw ValidationError, w)
    else (stopAutoplay ;;
          write set_skipNextAutoplay false ;;
          id <- setInterval AutoplayTick (Number_to_Z delay) ;;
          write set_autoplayId id) w.
Proof. unfold startAutoplay. destruct (_ || _); reflexivity. Qed.

Lemma startAutoplay_body_safe (delay : Number) :
  safe (stopAutoplay ;;
        write set_skipNextAutoplay false ;;
        id <- setInterval AutoplayTick (Number_to_Z delay) ;;
        write set_autoplayId id).
Proof. hold. Qed.

Lemma enableDragging_granted (w : World) :
  animation_is (animation (this w)) slide = true ->
  completion enableDragging w = Normal tt
  /\ position (exec enableDragging w) = position w.
Proof.
  intros A. unfold completion, exec.
  destruct (draggableRemote (this w)) as [c|] eqn:D.
  - rewrite (enableDragging_again w c A D). split; reflexivity.
  - rewrite (enableDragging_fresh w A D). split; reflexivity.
Qed.

(** What a public call does to a world whose active index names a slide:
    it is refused with the world untouched, or it completes and the index
    still names a slide. *)
Lemma call_outcome (m : Method) (w : World) :
  in_range (this w) ->
  integral_call m ->
  match refusal m w with
  | Some e => call m w = (Throw e, w)
  | None =>
      completion (call m) w = Normal tt
      /\ in_range (this (exec (call m) w))
      /\ List.length (slides (dom (this (exec (call m) w))))
         = List.length (slides (dom (this w)))
  end.
Proof.
  intros R.
  assert (Safe : forall c : M unit, safe c ->
            completion c w = Normal tt
            /\ in_range (this (exec c w))
            /\ List.length (slides (dom (this (exec c w))))
               = List.length (slides (dom (this w)))).
  { intros c H. destruct (H w R) as (R1 & L1 & [] & C). auto. }
  intros Int.
  destruct m as [| |number| | |a|flag| | |delay| |]; cbn [refusal call].
  - apply Safe, nextSlide_safe.
  - apply Safe, previousSlide_safe.
  - destruct Int as [index ->].
    change (Number_lt (Number_of_Z index) (Number_of_Z 0)) with (index <? 0).
    change (Number_le (Number_of_Z (Z.of_nat (List.length (slides (dom (this w))))))
              (Number_of_Z index))
      with (Z.of_nat (List.length (slides (dom (this w)))) <=? index).
    rewrite changeSlide_cases.
    destruct ((index <? 0) || _) eqn:Bad; [reflexivity|].
    apply orb_false_iff in Bad. destruct Bad as (B1 & B2).
    apply Z.ltb_ge in B1. apply Z.leb_gt in B2.
    assert (Rg : in_range (this (goto index w)))
      by (exists index; split; [reflexivity | cbn; lia]).
    destruct (slideTransition_safe (goto index w) Rg) as (R1 & L1 & [] & C).
    unfold exec, completion in *. rewrite changeSlide_cases.
    destruct ((index <? 0) || _) eqn:Bad; [apply orb_true_iff in Bad; lia|].
    split; [exact C|]. split; [exact R1 | exact L1].
  - destruct (animation_is (animation (this w)) slide) eqn:A.
    + destruct (enableDragging_granted w A) as (C & P). unfold position in P.
      injection P as P1 P2. split; [exact C|]. split; [|exact P2].
      unfold in_range. rewrite P1, P2. exact R.
    + now apply enableDragging_refused.
  - apply Safe, disableDragging_safe.
  - destruct (animation_is (animation (this w)) a) eqn:A.
    + unfold completion, exec. rewrite (changeAnimation_same w a A). auto.
    + unfold completion, exec. rewrite (changeAnimation_other w a A). destruct a.
      * assert (R' : in_range (this (unrailed (retagged fade w)))).
        { unfold in_range, unrailed, retagged. destruct (animation (this w)); exact R. }
        destruct (disableDragging_safe _ R') as (R1 & L1 & [] & C).
        split; [exact C|]. split; [exact R1|]. unfold exec in L1. rewrite L1.
        unfold unrailed, retagged. destruct (animation (this w)); reflexivity.
      * assert (A' : animation_is (animation (this (retagged slide w))) slide = true)
          by reflexivity.
        destruct (enableDragging_granted (retagged slide w) A') as (C & P).
        unfold position in P. injection P as P1 P2.
        split; [exact C|]. split; [|exact P2].
        unfold in_range. unfold exec in P1, P2. rewrite P1, P2. exact R.
  - apply Safe, setFullWidthSlide_safe.
  - apply Safe, addBullets_safe.
  - apply Safe, removeBullets_safe.
  - destruct (negb (Number_isSafeInteger delay) || Number_lt_1 delay) eqn:Bad.
    + rewrite startAutoplay_cases, Bad. reflexivity.
    + destruct (startAutoplay_body_safe delay w R) as (R1 & L1 & [] & C).
      unfold completion, exec in *. rewrite startAutoplay_cases, Bad.
      split; [exact C|]. split; [exact R1 | exact L1].
  - apply Safe, stopAutoplay_safe.
  - apply Safe, refresh_safe.
Qed.

Lemma handler_steady (n : nat) (e : Event) (w : World) :
  steady n w -> steady n (exec (handler e) w).
Proof.
  intros S. destruct e as [touches|touches|touches|x|x|x|x]; cbn [handler].
  - unfold exec. rewrite on_touchstart_cases.
    destruct (negb _); [exact S|]. destruct touches as [|TOUCH rest]; [exact S|].
    apply (safe_steady (dragStart (clientX TOUCH)) n); [apply dragStart_safe | exact S].
  - apply safe_steady; [apply on_touchmove_safe | exact S].
  - apply safe_steady; [apply on_touchend_safe | exact S].
  - apply safe_steady; [apply dragStart_safe | exact S].
  - apply safe_steady; [apply dragUpdate_safe | exact S].
  - apply safe_steady; [apply dragEnd_safe | exact S].
  - apply safe_steady; [apply dragEnd_safe | exact S].
Qed.

Lemma fire_steady (n : nat) (t : Timer) (w : World) : steady n w -> steady n (fire t w).
Proof.
  intros S. unfold fire. destruct (pending _ _); [|exact S].
  assert (S1 : steady n (exec (run_callback (timer_callback t)) w)).
  { destruct (timer_callback t); cbn [run_callback].
    - apply safe_steady; [apply autoplay_tick_safe | exact S].
    - apply safe_steady; [apply refresh_safe | exact S]. }
  destruct (timer_every t); exact S1.
Qed.

Lemma tick_steady (n : nat) (w : World) : steady n w -> steady n (tick w).
Proof.
  intros S. unfold tick.
  set (w1 := Build_World (this w) (set_now (now (window w) + 1) (window w))).
  assert (S1 : steady n w1) by exact S.
  generalize (filter (fun t => timer_due t <=? now (window w1)) (timers (window w1))).
  intros due. revert S1. generalize w1. clear.
  induction due as [|t due IH]; intros w S; cbn [fold_left]; [exact S|].
  apply IH. now apply fire_steady.
Qed.

Lemma wait_steady (n : nat) (ms : nat) : forall w, steady n w -> steady n (wait ms w).
Proof.
  induction ms as [|ms IH]; intros w S; cbn [wait]; [exact S|].
  apply IH. now apply tick_steady.
Qed.

Lemma call_steady (n : nat) (m : Method) (w : World) :
  integral_call m -> steady n w -> steady n (exec (call m) w).
Proof.
  intros Int (R & L). pose proof (call_outcome m w R Int) as O.
  destruct (refusal m w) as [e|].
  - unfold exec. rewrite O. split; [exact R | exact L].
  - destruct O as (_ & R1 & L1). split; [exact R1 | congruence].
Qed.

Lemma step_steady (n : nat) (i : Input) (w : World) :
  integral_input i -> steady n w -> steady n (step w i).
Proof.
  intros Int S. destruct i as [e| |ms|m|l]; cbn [step].
  - apply dispatch_invariant; [intros v; apply handler_steady | exact S].
  - apply safe_steady; [apply on_resize_safe | exact S].
  - now apply wait_steady.
  - now apply call_steady.
  - exact S.
Qed.

Lemma run_steady (n : nat) (inputs : list Input) :
  Forall integral_input inputs ->
  forall w, steady n w -> steady n (run inputs w).
Proof.
  intros F. induction F as [|i inputs Int _ IH]; intros w S; [exact S|].
  cbn [run fold_left]. apply IH. now apply step_steady.
Qed.

(** ** Touches of other fingers *)

Lemma findTouch_tracked (w : World) (touches : list Touch) :
  touchId (this w) <> 0 ->
  findTouch touches w
  = (Normal (find (fun touch => identifier touch =? touchId (this w)) touches), w).
Proof.
  intros H. unfold findTouch. unfold_m. cbn.
  destruct (Z.eqb_spec (touchId (this w)) 0); [contradiction | reflexivity].
Qed.

(** During a touch session only the tracked finger counts.  On a wired
    widget with a session open and a tracked identity other than 0, a
    touch-move or touch-end that does not list the tracked finger changes
    nothing, however many other fingers it lists; one that lists it moves
    the rail to that finger's position, respectively ends the drag, using
    the first entry with the tracked identity. *)
Theorem tracked_touch_only (w : World) (dragging : AbortController) (touches : list Touch) :
  wired w ->
  beingDraggedRemote (this w) = Some dragging ->
  touchId (this w) <> 0 ->
  match find (fun touch => identifier touch =? touchId (this w)) touches with
  | None =>
      dispatch (TouchMove touches) w = w /\ dispatch (TouchEnd touches) w = w
  | Some touch =>
      identifier touch = touchId (this w)
      /\ dispatch (TouchMove touches) w = exec (dragUpdate (clientX touch)) w
      /\ dispatch (TouchEnd touches) w = exec dragEnd w
  end.
Proof.
  intros W B K.
  assert (M : dispatch (TouchMove touches) w = exec (on_touchmove touches) w).
  { rewrite (dispatch_heard w _ W). unfold heard. cbn [is_start]. now rewrite B. }
  assert (E : dispatch (TouchEnd touches) w = exec (on_touchend touches) w).
  { rewrite (dispatch_heard w _ W). unfold heard. cbn [is_start]. now rewrite B. }
  rewrite M, E. unfold on_touchmove, on_touchend.
  rewrite !(exec_bind_normal _ _ w w _ (findTouch_tracked w touches K)).
  destruct (find _ touches) as [touch|] eqn:F; [|split; reflexivity].
  apply find_some in F. destruct F as (_ & F). apply Z.eqb_eq in F.
  split; [exact F|]. split; reflexivity.
Qed.

Lemma tracked_touch_only_witness :
  let w := dispatch (TouchStart [Build_Touch 8 20])
             (exec enableDragging (page 3 (flat_layout 0 0))) in
  dispatch (TouchMove [Build_Touch 5 70; Build_Touch 6 10]) w = w
  /\ dispatch (TouchEnd [Build_Touch 5 70; Build_Touch 6 10]) w = w.
Proof.
  intros w.
  assert (W : wired w).
  { split; [split; [reflexivity | split]|].
    - intros starting [= <-]. cbn. lia.
    - intros dragging [= <-]. split; [cbn; lia|]. split; discriminate.
    - intros _. reflexivity. }
  assert (B : beingDraggedRemote (this w) = Some 2%nat) by reflexivity.
  assert (K : touchId (this w) <> 0) by discriminate.
  exact (tracked_touch_only w 2%nat [Build_Touch 5 70; Build_Touch 6 10] W B K).
Defined.

(** ** Navigation there and back *)

(** [previousSlide] undoes [nextSlide] and [nextSlide] undoes
    [previousSlide], at the ends of the range too; and N calls of
    [nextSlide] in a row come back to the slide they started from. *)
Theorem navigation_round_trip (w : World) :
  in_range (this w) ->
  activeIndex (this (exec previousSlide (exec nextSlide w))) = activeIndex (this w)
  /\ activeIndex (this (exec nextSlide (exec previousSlide w))) = activeIndex (this w)
  /\ activeIndex (this (run (repeat (Call call_nextSlide)
                                (List.length (slides (dom (this w))))) w))
     = activeIndex (this w).
Proof.
  intros R.
  destruct (nextSlide_step w R) as (_ & N1 & _ & L1 & R1).
  destruct (previousSlide_step _ R1) as (_ & P1 & _).
  destruct (previousSlide_step w R) as (_ & P2 & _ & L2 & R2).
  destruct (nextSlide_step _ R2) as (_ & N2 & _).
  cbv zeta in *.
  assert (G : forall k v, in_range (this v) ->
                in_range (this (run (repeat (Call call_nextSlide) k) v))
                /\ List.length (slides (dom (this (run (repeat (Call call_nextSlide) k) v))))
                   = List.length (slides (dom (this v)))
                /\ activeIndex (this (run (repeat (Call call_nextSlide) k) v))
                   = Number_of_Z
                       ((Number_to_Z (activeIndex (this v)) + Z.of_nat k)
                        mod Z.of_nat (List.length (slides (dom (this v)))))).
  { induction k as [|k IH]; intros v Rv.
    - split; [exact Rv|]. split; [reflexivity|]. cbn [repeat run fold_left].
      destruct (in_range_integer _ Rv) as (E & Rz).
      rewrite Z.add_0_r, Z.mod_small by lia. exact E.
    - cbn [repeat]. change (run (Call call_nextSlide :: ?l) v)
        with (run l (exec nextSlide v)).
      destruct (nextSlide_step v Rv) as (_ & _ & A & L & Rn). cbv zeta in A.
      destruct (IH _ Rn) as (I1 & I2 & I3).
      split; [exact I1|]. split; [congruence|].
      rewrite I3, L, A. change (Number_to_Z (Number_of_Z ?x)) with x.
      unfold navigate. rewrite Zplus_mod_idemp_l. do 2 f_equal. lia. }
  destruct (G (List.length (slides (dom (this w)))) w R) as (_ & _ & G3).
  destruct R as (i & Ei & Ri). rewrite Ei in *.
  change (Number_to_Z (Number_of_Z i)) with i in *.
  split; [|split].
  - rewrite P1, L1, N1.
    destruct (Z.eqb_spec i (Z.of_nat (List.length (slides (dom (this w)))) - 1));
      change (Number_to_Z (Number_of_Z ?x)) with x.
    + cbn [Z.eqb]. f_equal. lia.
    + destruct (Z.eqb_spec (i + 1) 0); [lia | f_equal; lia].
  - rewrite N2, L2, P2.
    destruct (Z.eqb_spec i 0); change (Number_to_Z (Number_of_Z ?x)) with x.
    + rewrite Z.eqb_refl. f_equal. lia.
    + destruct (Z.eqb_spec (i - 1)
                  (Z.of_nat (List.length (slides (dom (this w)))) - 1));
        [lia | f_equal; lia].
  - rewrite G3. f_equal.
    replace (i + Z.of_nat (List.length (slides (dom (this w)))))
      with (i + 1 * Z.of_nat (List.length (slides (dom (this w))))) by lia.
    rewrite Z.mod_add by lia. apply Z.mod_small. lia.
Qed.

Lemma navigation_round_trip_witness :
  activeIndex (this (exec previousSlide (exec nextSlide (goto 2 (page 3 (flat_layout 0 0))))))
  = 2.
Proof.
  assert (R : in_range (this (goto 2 (page 3 (flat_layout 0 0)))))
    by (exists 2; split; [reflexivity | cbn; lia]).
  exact (proj1 (navigation_round_trip (goto 2 (page 3 (flat_layout 0 0))) R)).
Defined.

(** ** Initialisation *)

Lemma script_bind_normal {A B : Type} (c : Script A) (k : A -> Script B)
    (s s1 : Site) (a : A) :
  c s = (Normal a, s1) -> script_bind c k s = k a s1.
Proof. intros H. unfold script_bind. now rewrite H. Qed.


Lemma lift_normal {A : Type} (c : M A) (s : Site) (a : A) :
  completion c (world s) = Normal a ->
  lift c s = (Normal a, set_world (exec c (world s)) s).
Proof. intros H. unfold lift. now rewrite H. Qed.

Lemma lift_eq {A : Type} (c : M A) (s : Site) (a : A) (w' : World) :
  c (world s) = (Normal a, w') -> lift c s = (Normal a, set_world w' s).
Proof. intros H. unfold lift, completion, exec. now rewrite H. Qed.

Lemma object_eta (o : SimpleSlideshow) :
  set_dom (set_slides (slides (dom o)) (dom o)) o = o.
Proof. destruct o as [[c r sl b] ? ? ? ? ? ? ? ? ? ? ? ? ?]. reflexivity. Qed.

(** The loop of [initializeSlides] pushes one unmarked slide per element. *)
Lemma for_each_push (WIDTH : string) (ELEMENTS : list Node) :
  forall w,
    for_each ELEMENTS
      (fun _ =>
         full <- read fullWidthSlide ;;
         let SLIDE := Build_HTMLElement false (if full then WIDTH else "") in
         s <- read_dom slides ;;
         write_dom set_slides (s ++ [SLIDE])) w
    = (Normal tt,
       Build_World
         (set_dom
            (set_slides
               (slides (dom (this w))
                ++ repeat (Build_HTMLElement false
                             (if fullWidthSlide (this w) then WIDTH else ""))
                          (List.length ELEMENTS))
               (dom (this w)))
            (this w))
         (window w)).
Proof.
  induction ELEMENTS as [|element rest IH]; intros w.
  - cbn [for_each List.length repeat]. rewrite app_nil_r, object_eta, world_eta. reflexivity.
  - cbn [for_each]. unfold bind at 1. unfold_m. cbn -[for_each]. rewrite IH. cbn.
    now rewrite <- app_assoc.
Qed.

Lemma updateRailWidth_completes (w : World) :
  updateRailWidth w = (Normal tt, exec updateRailWidth w).
Proof. reflexivity. Qed.





Lemma extractElements_eq (configuration : Configuration.t) (s : Site) :
  extractElements configuration s = (Normal (extracted configuration s), s).
Proof. reflexivity. Qed.

Lemma initializeSlides_eq (configuration : Configuration.t) (s : Site) :
  initializeSlides configuration s
  = (Normal tt,
     set_world (exec updateRailWidth
                  (wrapped (List.length (extracted configuration s)) (world s))) s).
Proof.
  unfold initializeSlides.
  rewrite (script_bind_normal _ _ s s _ (extractElements_eq configuration s)).
  apply lift_eq. unfold bind at 1. unfold computeViewportWidth, getBoundingClientRect.
  unfold bind at 1. unfold ret at 1. cbv beta iota zeta.
  rewrite (bind_normal _ _ (world s) _ tt
             (for_each_push _ (extracted configuration s) (world s))).
  reflexivity.
Qed.








Lemma addArrows_eq (generator : option ArrowBuilder) (s : Site) :
  addArrows generator s
  = (Normal tt,
     set_arrows
       ((if showArrows (this (world s)) then [] else arrows s)
        ++ [Build_Arrow ["slideshow-arrow"; "left"]
              (option_map (fun g => g OrientationName.left) generator);
            Build_Arrow ["slideshow-arrow"; "right"]
              (option_map (fun g => g OrientationName.right) generator)])
       (set_world (Build_World (set_showArrows true (this (world s))) (window (world s))) s)).
Proof.
  destruct s as [w a r q].
  unfold addArrows, removeArrows, script_bind, script_when, lift, completion, exec.
  unfold_m. cbn. destruct (showArrows (this w)) eqn:Shown; cbn.
  - rewrite Shown. reflexivity.
  - reflexivity.
Qed.

Lemma removeArrows_eq (s : Site) :
  removeArrows s
  = (Normal tt,
     if showArrows (this (world s))
     then set_arrows []
            (set_world (Build_World (set_showArrows false (this (world s)))
                          (window (world s))) s)
     else s).
Proof.
  destruct s as [w a r q].
  unfold removeArrows, script_bind, lift, completion, exec. unfold_m. cbn.
  destruct (showArrows (this w)); reflexivity.
Qed.












(** ** Arrows *)

(** [addArrows] never throws and sets the arrows flag; it appends a left
    and a right arrow button to the host, after removing every
    [button.slideshow-arrow] under the host when the flag was already set,
    so that calling it twice leaves exactly one pair.  [removeArrows] does
    nothing while the flag is clear; otherwise it clears the flag and
    removes every such button.  Neither touches anything else of the
    object, nor the listeners and timers. *)
Theorem addArrows_pair (s : Site) (generator : option ArrowBuilder) :
  let pair :=
    [Build_Arrow ["slideshow-arrow"; "left"]
       (option_map (fun g => g OrientationName.left) generator);
     Build_Arrow ["slideshow-arrow"; "right"]
       (option_map (fun g => g OrientationName.right) generator)] in
  let s1 := snd (addArrows generator s) in
  fst (addArrows generator s) = Normal tt
  /\ this (world s1) = set_showArrows true (this (world s))
  /\ window (world s1) = window (world s)
  /\ arrows s1 = (if showArrows (this (world s)) then [] else arrows s) ++ pair
  /\ arrows (snd (addArrows generator s1)) = pair
  /\ fst (removeArrows s1) = Normal tt
  /\ arrows (snd (removeArrows s1)) = []
  /\ showArrows (this (world (snd (removeArrows s1)))) = false
  /\ (showArrows (this (world s)) = false -> removeArrows s = (Normal tt, s)).
Proof.
  cbv zeta. rewrite !addArrows_eq. cbn [fst snd world arrows set_arrows set_world this window].
  rewrite !removeArrows_eq. cbn [fst snd world arrows set_arrows set_world this window].
  do 4 (split; [reflexivity|]).
  split; [destruct (showArrows (this (world s))); reflexivity|].
  do 3 (split; [reflexivity|]).
  intros H. rewrite H. reflexivity.
Qed.

(** ** The cadence of autoplay *)

Lemma wait_add (a b : nat) : forall w, wait (a + b) w = wait b (wait a w).
Proof. induction a as [|a IH]; intros w; cbn [wait Nat.add]; [reflexivity | apply IH]. Qed.

Lemma tick_idle (delay id due : Z) (w : World) :
  cruising delay id due w -> now (window w) + 1 < due -> tick w = later w.
Proof.
  intros (T & _) L. unfold tick. fold (later w).
  change (timers (window (later w))) with (timers (window w)). rewrite T.
  cbn [filter timer_due]. change (now (window (later w))) with (now (window w) + 1).
  destruct (Z.leb_spec due (now (window w) + 1)); [lia | reflexivity].
Qed.

Lemma wait_idle (delay id due : Z) (ms : nat) :
  forall w, cruising delay id due w -> now (window w) + Z.of_nat ms < due ->
    cruising delay id due (wait ms w)
    /\ ticks (wait ms w) = ticks w
    /\ position (wait ms w) = position w
    /\ now (window (wait ms w)) = now (window w) + Z.of_nat ms.
Proof.
  induction ms as [|ms IH]; intros w C L; cbn [wait].
  - split; [exact C|]. split; [reflexivity|]. split; [reflexivity | lia].
  - rewrite (tick_idle delay id due w C) by lia.
    assert (C1 : cruising delay id due (later w)) by exact C.
    destruct (IH (later w) C1) as (C2 & T2 & P2 & N2).
    { change (now (window (later w))) with (now (window w) + 1). lia. }
    split; [exact C2|]. split; [exact T2|]. split; [exact P2|].
    rewrite N2. change (now (window (later w))) with (now (window w) + 1). lia.
Qed.

Lemma autoplay_tick_advances (w : World) :
  skipNextAutoplay (this w) = false -> in_range (this w) ->
  autoplay_tick w
  = (Normal tt,
     Build_World (set_skipNextAutoplay false (this (exec nextSlide w)))
                 (window (exec nextSlide w))).
Proof.
  intros S R. unfold autoplay_tick. unfold bind at 1. unfold read at 1. rewrite S.
  cbn [negb when]. rewrite (bind_normal _ _ w _ tt (nextSlide_completes w R)).
  reflexivity.
Qed.

Lemma tick_fires (delay id due : Z) (w : World) :
  cruising delay id due w -> due <= now (window w) + 1 ->
  cruising delay id (now (window w) + 1 + delay) (tick w)
  /\ ticks (tick w) = S (ticks w)
  /\ activeIndex (this (tick w))
     = navigate (Z.of_nat (List.length (slides (dom (this w)))))
         (Number_to_Z (activeIndex (this w))) call_nextSlide
  /\ List.length (slides (dom (this (tick w)))) = List.length (slides (dom (this w)))
  /\ now (window (tick w)) = now (window w) + 1.
Proof.
  intros (T & A & S & R) L. unfold tick. fold (later w).
  change (timers (window (later w))) with (timers (window w)). rewrite T.
  cbn [filter timer_due]. change (now (window (later w))) with (now (window w) + 1).
  destruct (Z.leb_spec due (now (window w) + 1)); [|lia].
  cbn [fold_left]. unfold fire. cbn [timer_id timer_callback timer_every run_callback].
  assert (Pending : pending id (later w) = true).
  { unfold pending. change (timers (window (later w))) with (timers (window w)).
    rewrite T. cbn. now rewrite Z.eqb_refl. }
  rewrite Pending.
  assert (S1 : skipNextAutoplay (this (later w)) = false) by exact S.
  assert (R1 : in_range (this (later w))) by exact R.
  pose proof (autoplay_tick_advances (later w) S1 R1) as E.
  destruct (nextSlide_step (later w) R1) as (_ & _ & Nav & Len & R2).
  assert (Win' : window (exec nextSlide (later w)) = window (later w)).
  { destruct (nextSlide_commits (later w)) as [index Commit].
    unfold exec. rewrite Commit. apply after_goto. }
  assert (X : exec autoplay_tick (later w)
              = Build_World (set_skipNextAutoplay false (this (exec nextSlide (later w))))
                  (window (later w))).
  { unfold exec at 1. rewrite E. cbn [snd]. now rewrite Win'. }
  rewrite X. cbn -[Z.add Z.eqb]. rewrite T. cbn -[Z.add Z.eqb].
  unfold rearm. cbn [timer_id timer_every timer_callback]. rewrite Z.eqb_refl.
  split; [|split; [|split; [|split]]].
  - split; [reflexivity|]. split; [|split; [reflexivity | exact R2]].
    pose proof (nextSlide_clockwork (later w)) as Ck. unfold clockwork in Ck.
    injection Ck as _ _ _ Ck. cbn. rewrite Ck. exact A.
  - reflexivity.
  - exact Nav.
  - exact Len.
  - reflexivity.
Qed.

Lemma startAutoplay_cruises (w : World) (delay : Z) :
  scheduled w -> quiescent w -> in_range (this w) ->
  1 <= delay <= 2 ^ 31 - 1 ->
  let w1 := exec (startAutoplay (Finite (inject_Z delay))) w in
  cruising delay (autoplayId (this w1)) (now (window w) + delay) w1
  /\ ticks w1 = ticks w
  /\ position w1 = position w
  /\ now (window w1) = now (window w).
Proof.
  intros S Q R Small. cbv zeta.
  assert (V : 1 <= delay <= MAX_SAFE_INTEGER) by (unfold MAX_SAFE_INTEGER; lia).
  assert (Taken : timer_delay delay = delay) by (apply timer_delay_small; lia).
  destruct (valid_delay_accepted delay V) as [Ok Val].
  pose proof (startAutoplay_position (Finite (inject_Z delay)) w) as Pos.
  destruct (stopAutoplay_scheduled w S) as (_ & F & _ & _ & Now).
  pose proof (stopAutoplay_resize_timers w S) as Rz.
  destruct Q as (_ & _ & NoResize). rewrite NoResize in Rz.
  assert (Empty : timers (window (exec stopAutoplay w)) = []).
  { pose proof (timers_partition (timers (window (exec stopAutoplay w)))) as L.
    rewrite F, Rz in L. now apply length_zero_iff_nil. }
  assert (Fired : fired (window (exec stopAutoplay w)) = fired (window w)).
  { unfold exec. rewrite stopAutoplay_eq. cbn [snd]. now destruct (_ =? _). }
  assert (E : stopAutoplay w = (Normal tt, exec stopAutoplay w)).
  { rewrite stopAutoplay_eq. unfold exec. now rewrite stopAutoplay_eq. }
  assert (X : exec (startAutoplay (Finite (inject_Z delay))) w
              = Build_World
                  (set_autoplayId (timer_ids (window (exec stopAutoplay w)) + 1)
                     (set_skipNextAutoplay false (this (exec stopAutoplay w))))
                  (set_timers
                     [Build_Timer (timer_ids (window (exec stopAutoplay w)) + 1)
                        (now (window w) + delay) (Some delay) AutoplayTick]
                     (set_timer_ids (timer_ids (window (exec stopAutoplay w)) + 1)
                        (window (exec stopAutoplay w))))).
  { unfold startAutoplay. rewrite Ok, Val.
    rewrite (exec_bind_normal _ _ w (exec stopAutoplay w) tt E).
    set (v := exec stopAutoplay w) in *.
    unfold exec, setInterval, add_timer. unfold_m. cbn -[Z.add].
    now rewrite Empty, Now, Taken. }
  split; [|split; [|split]].
  - split; [|split; [|split]].
    + rewrite X. reflexivity.
    + rewrite X. reflexivity.
    + rewrite X. reflexivity.
    + unfold position in Pos. injection Pos as P1 P2. unfold in_range.
      rewrite P1, P2. exact R.
  - rewrite X. unfold ticks. cbn. now rewrite Fired.
  - exact Pos.
  - rewrite X. cbn. exact Now.
Qed.

Lemma wait_period (delay id : Z) (w : World) :
  1 <= delay ->
  cruising delay id (now (window w) + delay) w ->
  let w' := wait (Z.to_nat delay) w in
  cruising delay id (now (window w') + delay) w'
  /\ ticks w' = S (ticks w)
  /\ activeIndex (this w')
     = navigate (Z.of_nat (List.length (slides (dom (this w)))))
         (Number_to_Z (activeIndex (this w))) call_nextSlide
  /\ List.length (slides (dom (this w'))) = List.length (slides (dom (this w)))
  /\ now (window w') = now (window w) + delay.
Proof.
  intros D C. cbv zeta.
  replace (Z.to_nat delay) with (Z.to_nat (delay - 1) + 1)%nat by lia.
  rewrite wait_add. cbn [wait].
  destruct (wait_idle delay id (now (window w) + delay) (Z.to_nat (delay - 1)) w C)
    as (C1 & T1 & P1 & N1); [lia|].
  unfold position in P1. injection P1 as I1 L1.
  destruct (tick_fires delay id (now (window w) + delay) _ C1) as (C2 & T2 & A2 & L2 & N2);
    [lia|].
  rewrite N2, N1. split.
  { replace (now (window w) + Z.of_nat (Z.to_nat (delay - 1)) + 1 + delay)
      with (now (window (wait (Z.to_nat (delay - 1)) w)) + 1 + delay) by lia.
    exact C2. }
  split; [congruence|]. split; [now rewrite A2, L1, I1|]. split; [congruence | lia].
Qed.

Lemma wait_periods (delay id : Z) (periods : nat) :
  forall w,
    1 <= delay ->
    cruising delay id (now (window w) + delay) w ->
    let w' := wait (periods * Z.to_nat delay) w in
    cruising delay id (now (window w') + delay) w'
    /\ ticks w' = (ticks w + periods)%nat
    /\ activeIndex (this w')
       = Number_of_Z
           ((Number_to_Z (activeIndex (this w)) + Z.of_nat periods)
            mod Z.of_nat (List.length (slides (dom (this w)))))
    /\ List.length (slides (dom (this w'))) = List.length (slides (dom (this w)))
    /\ now (window w') = now (window w) + Z.of_nat periods * delay.
Proof.
  induction periods as [|k IH]; intros w D C; cbv zeta.
  - cbn [Nat.mul wait]. split; [exact C|]. split; [lia|].
    destruct C as (_ & _ & _ & R). destruct (in_range_integer _ R) as (E & Rz).
    split; [rewrite Z.add_0_r, Z.mod_small by lia; exact E|]. split; [reflexivity | lia].
  - replace (S k * Z.to_nat delay)%nat with (k * Z.to_nat delay + Z.to_nat delay)%nat by lia.
    rewrite wait_add.
    destruct (IH w D C) as (C1 & T1 & A1 & L1 & N1).
    destruct (wait_period delay id _ D C1) as (C2 & T2 & A2 & L2 & N2).
    split; [exact C2|]. split; [lia|]. split; [|split; [congruence | lia]].
    rewrite A2, L1, A1. change (Number_to_Z (Number_of_Z ?x)) with x.
    unfold navigate. rewrite Zplus_mod_idemp_l. do 2 f_equal. lia.
Qed.

(** Autoplay advances one slide per period.  On a widget with well-formed
    timers, no reconciliation pending and the active index naming a
    slide, [startAutoplay] with a delay that the browser's timer takes as
    it is, an integer from 4 to [2 ^ 31 - 1] milliseconds, makes the
    slideshow advance by exactly one slide every [delay] milliseconds, for
    as long as nothing else happens: after [k] periods the tick has run [k]
    times and the active index is [(i + k) mod N]; between two ticks
    nothing moves.  (A larger delay wraps around in the timer, and a
    shorter one is subject to the browser's minimum for repeating timers.) *)
Theorem autoplay_cadence (w : World) (delay : Z) (periods : nat) :
  scheduled w -> quiescent w -> in_range (this w) ->
  4 <= delay <= 2 ^ 31 - 1 ->
  let w1 := exec (startAutoplay (Finite (inject_Z delay))) w in
  let w2 := wait (periods * Z.to_nat delay) w1 in
  ticks w2 = (ticks w + periods)%nat
  /\ activeIndex (this w2)
     = Number_of_Z
         ((Number_to_Z (activeIndex (this w)) + Z.of_nat periods)
          mod Z.of_nat (List.length (slides (dom (this w)))))
  /\ now (window w2) = now (window w) + Z.of_nat periods * delay
  /\ forall ms, (ms < Z.to_nat delay)%nat ->
       position (wait ms w2) = position w2 /\ ticks (wait ms w2) = ticks w2.
Proof.
  intros S Q R V. cbv zeta.
  assert (V1 : 1 <= delay <= 2 ^ 31 - 1) by lia.
  destruct (startAutoplay_cruises w delay S Q R V1) as (C1 & T1 & P1 & N1).
  unfold position in P1. injection P1 as I1 L1.
  rewrite <- N1 in C1.
  destruct (wait_periods delay _ periods _ (proj1 V1) C1) as (C2 & T2 & A2 & L2 & N2).
  split; [congruence|]. split; [now rewrite A2, I1, L1|]. split; [congruence|].
  intros ms Lt.
  destruct (wait_idle delay _ _ ms _ C2) as (_ & T3 & P3 & _); [lia|].
  split; assumption.
Qed.

Lemma autoplay_cadence_witness :
  activeIndex (this (wait (4 * 30) (exec (startAutoplay (Finite (inject_Z 30)))
                                      (page 3 (flat_layout 0 0))))) = 1.
Proof.
  assert (Q : quiescent (page 3 (flat_layout 0 0))).
  { unfold quiescent, timers_ok. cbn. repeat split; try lia; constructor. }
  assert (R : in_range (this (page 3 (flat_layout 0 0))))
    by (exists 0; split; [reflexivity | cbn; lia]).
  assert (V : 4 <= 30 <= 2 ^ 31 - 1) by lia.
  destruct (autoplay_cadence (page 3 (flat_layout 0 0)) 30 4
              (page_scheduled 3 (flat_layout 0 0)) Q R V) as (_ & A & _).
  exact A.
Defined.

(** ** Reconciliation *)

Lemma refresh_unfold (w : World) :
  refresh w = when (animation_is (animation (this w)) slide) slideTransition (remeasured w).
Proof.
  destruct w as [[[c r s bl] a f sa sb sk ai ds co au rid ti bd dr] [l ls cs ts ids t fd]].
  unfold refresh, remeasured, updateRailWidth, computeViewportWidth, getBoundingClientRect,
    clearTimeout.
  unfold_m. cbn -[Z.mul Z.add slideTransition toPixel].
  destruct (0 <? rid); destruct f; cbn -[Z.mul Z.add slideTransition toPixel];
    destruct (animation_is a slide); reflexivity.
Qed.

Lemma remeasured_position (w : World) : position (remeasured w) = position w.
Proof.
  unfold position, remeasured. cbn. destruct (fullWidthSlide (this w)); [|reflexivity].
  now rewrite length_map.
Qed.

Lemma remeasured_widths (w : World) :
  map style_width (slides (dom (this (remeasured w))))
  = if fullWidthSlide (this w)
    then repeat (toPixel (rect_width (layout (window w) (dom (this w)) Viewport)))
           (List.length (slides (dom (this w))))
    else map style_width (slides (dom (this w))).
Proof.
  unfold remeasured. cbn. destruct (fullWidthSlide (this w)); [|reflexivity].
  rewrite map_map. cbn. induction (slides (dom (this w))) as [|e l IH]; cbn; [reflexivity|].
  now rewrite IH.
Qed.

(** [refresh] never throws while the active index names a slide, and it
    leaves the active index and the number of slides alone.  When the
    slides are to fill the viewport, each of them gets the width the
    viewport has when [refresh] starts; otherwise their widths are left
    alone.  The rail gets the width of the viewport, measured once the
    slides are sized, times [N + 4000] in slide mode.  In slide mode
    [refresh] then commits: the rail offset is recomputed to
    [railLeft() - slideLeft(activeIndex)], both measured on the tree with
    the new widths and the marking redone, that offset is written to the
    rail's [left] in pixels (a string that reads back as the offset to the
    nearest pixel), and the autoplay suppression flag is set, so that the
    next autoplay tick is skipped; in any other mode nothing else
    changes. *)
Theorem refresh_reconciles (w : World) :
  in_range (this w) ->
  let w' := exec refresh w in
  let WIDTH := toPixel (rect_width (layout (window w) (dom (this w)) Viewport)) in
  let sized :=
    if fullWidthSlide (this w)
    then map (set_style_width WIDTH) (slides (dom (this w)))
    else slides (dom (this w)) in
  let width := rect_width (layout (window w) (set_slides sized (dom (this w))) Viewport) in
  completion refresh w = Normal tt
  /\ position w' = position w
  /\ (fullWidthSlide (this w) = true ->
      Forall (fun e => style_width e = WIDTH) (slides (dom (this w'))))
  /\ (fullWidthSlide (this w) = false ->
      map style_width (slides (dom (this w'))) = map style_width (slides (dom (this w))))
  /\ rail_style_width (rail (dom (this w')))
     = toPixel (if animation_is (animation (this w)) slide
                then width * (Z.of_nat (List.length (slides (dom (this w)))) + 4000)
                else width)
  /\ (animation_is (animation (this w)) slide = true ->
      let measured := layout (window w) (dom (marked (this (remeasured w)))) in
      skipNextAutoplay (this w') = true
      /\ currentOffset (this w')
         = rect_left (measured Rail)
           - rect_left (measured (Slide (Z.to_nat (Number_to_Z (activeIndex (this w))))))
      /\ style_left (rail (dom (this w'))) = toPixel (currentOffset (this w'))
      /\ 2 * Z.abs (parse_pixel (style_left (rail (dom (this w')))) - currentOffset (this w'))
         <= 1)
  /\ (animation_is (animation (this w)) slide = false -> w' = remeasured w).
Proof.
  intros R. cbv zeta.
  pose proof (refresh_unfold w) as U.
  pose proof (remeasured_position w) as P. pose proof (remeasured_widths w) as Wd.
  assert (Rail : rail_style_width (rail (dom (this (remeasured w))))
                 = toPixel
                     (if animation_is (animation (this w)) slide
                      then rect_width
                             (layout (window w)
                                (set_slides
                                   (if fullWidthSlide (this w)
                                    then map (set_style_width
                                                (toPixel (rect_width
                                                            (layout (window w) (dom (this w))
                                                               Viewport))))
                                           (slides (dom (this w)))
                                    else slides (dom (this w))) (dom (this w))) Viewport)
                           * (Z.of_nat (List.length (slides (dom (this w)))) + 4000)
                      else rect_width
                             (layout (window w)
                                (set_slides
                                   (if fullWidthSlide (this w)
                                    then map (set_style_width
                                                (toPixel (rect_width
                                                            (layout (window w) (dom (this w))
                                                               Viewport))))
                                           (slides (dom (this w)))
                                    else slides (dom (this w))) (dom (this w))) Viewport))).
  { unfold remeasured. cbn -[Z.mul Z.add toPixel].
    destruct (fullWidthSlide (this w)); [now rewrite length_map | reflexivity]. }
  assert (Widths : forall v,
             map style_width (slides (dom (this v)))
             = map style_width (slides (dom (this (remeasured w)))) ->
             (fullWidthSlide (this w) = true ->
              Forall (fun e => style_width e
                               = toPixel (rect_width (layout (window w) (dom (this w))
                                                        Viewport)))
                     (slides (dom (this v))))
             /\ (fullWidthSlide (this w) = false ->
                 map style_width (slides (dom (this v)))
                 = map style_width (slides (dom (this w))))).
  { intros v E. rewrite Wd in E. split; intros F; rewrite F in E; [|exact E].
    apply Forall_forall. intros e H. apply (in_map style_width) in H.
    rewrite E in H. now apply repeat_spec in H. }
  assert (R1 : in_range (this (remeasured w))).
  { assert (P2 : List.length (slides (dom (this (remeasured w))))
                 = List.length (slides (dom (this w)))) by exact (f_equal snd P).
    unfold in_range. rewrite P2. exact R. }
  rewrite (completion_congr _ _ _ _ U), (exec_congr _ _ _ _ U).
  destruct (animation_is (animation (this w)) slide) eqn:A; cbn [when].
  - (* slide mode: the commit *)
    assert (A1 : animation_is (animation (this (remeasured w))) slide = true) by exact A.
    pose proof (slideTransition_slide (remeasured w) A1 R1) as E.
    destruct (slideTransition_marking (remeasured w)) as (M & _).
    split; [now apply slideTransition_normal|].
    split; [now rewrite slideTransition_position|].
    destruct (Widths (exec slideTransition (remeasured w))) as (W1 & W2).
    { rewrite M. apply forEach_toggle_widths. }
    split; [exact W1|]. split; [exact W2|].
    split; [unfold exec; rewrite E; exact Rail|].
    split; [|discriminate]. intros _.
    split; [apply slideTransition_sets_flag|].
    unfold exec. rewrite E. cbn [snd this]. rewrite committed_left, committed_offset.
    split; [reflexivity|]. split; [reflexivity|].
    rewrite parse_pixel_toPixel. lia.
  - (* any other mode *)
    split; [reflexivity|]. split; [exact P|].
    destruct (Widths (remeasured w) eq_refl) as (W1 & W2).
    split; [exact W1|]. split; [exact W2|]. split; [exact Rail|].
    split; [discriminate | reflexivity].
Qed.

Lemma refresh_reconciles_witness :
  let w := exec (setFullWidthSlide true)
             (exec (startAutoplay (Finite (inject_Z 50)))
                (goto 1 (page 3 (flat_layout 0 0)))) in
  skipNextAutoplay (this w) = false
  /\ skipNextAutoplay (this (exec refresh w)) = true
  /\ rail_style_width (rail (dom (this (exec refresh w)))) = "400300px"
  /\ currentOffset (this (exec refresh w)) = -100
  /\ style_left (rail (dom (this (exec refresh w)))) = "-100px".
Proof.
  intros w.
  assert (R : in_range (this w)) by (exists 1; split; [reflexivity | vm_compute; split; congruence]).
  destruct (refresh_reconciles w R) as (_ & _ & _ & _ & W & S & _).
  destruct (S eq_refl) as (Flag & Offset & Left & _).
  split; [reflexivity|]. split; [exact Flag|].
  split; [rewrite W; vm_compute; reflexivity|].
  split; [rewrite Offset; vm_compute; reflexivity|].
  rewrite Left, Offset. vm_compute. reflexivity.
Defined.

(** ** The widget in its page *)

Lemma triple_bind {A B : Type} (P : Site -> Prop) (c : Script A) (k : A -> Script B)
    (Q : A -> Site -> Prop) (R : B -> Site -> Prop) (E : Exception -> Site -> Prop) :
  triple P c Q E -> (forall a, triple (Q a) (k a) R E) -> triple P (script_bind c k) R E.
Proof.
  intros Hc Hk s Ps. unfold script_bind. specialize (Hc s Ps).
  destruct (c s) as [[a|e] s1]; [now apply Hk | exact Hc].
Qed.

Lemma triple_weaken {A : Type} (P P' : Site -> Prop) (c : Script A)
    (Q Q' : A -> Site -> Prop) (E E' : Exception -> Site -> Prop) :
  (forall s, P' s -> P s) -> (forall a s, Q a s -> Q' a s) -> (forall e s, E e s -> E' e s) ->
  triple P c Q E -> triple P' c Q' E'.
Proof.
  intros HP HQ HE H s Ps. specialize (H s (HP s Ps)).
  destruct (c s) as [[a|e] s1]; [now apply HQ | now apply HE].
Qed.

Lemma triple_ret {A : Type} (P : Site -> Prop) (a : A) (E : Exception -> Site -> Prop) :
  triple P (script_ret a) (fun _ => P) E.
Proof. intros s Ps. exact Ps. Qed.

Lemma triple_when (P : Site -> Prop) (b : bool) (c : Script unit)
    (E : Exception -> Site -> Prop) :
  triple P c (fun _ => P) E -> triple P (script_when b c) (fun _ => P) E.
Proof. intros H. destruct b; [exact H | apply triple_ret]. Qed.

(** A lifted method body takes the site where it takes the world, whether
    it completes or throws. *)
Lemma triple_lift {A : Type} (P : Site -> Prop) (c : M A) :
  (forall s, P s -> P (set_world (exec c (world s)) s)) ->
  triple P (lift c) (fun _ => P) (fun _ => P).
Proof.
  intros H s Ps. unfold lift. destruct (completion c (world s)); now apply H.
Qed.

(** What holds of the page throughout [initialize]: a property that the
    wrapping of the slides establishes and that the public methods
    [initialize] calls maintain holds when [initialize] throws, and the
    registration of the resize listener is its very last step. *)
Lemma initialize_invariant (P0 P Q : Site -> Prop) (configuration : Configuration.t) :
  (forall s, P0 s -> P (snd (initializeSlides configuration s))) ->
  (forall (m : Method) s, In m (initialize_calls configuration) ->
                          P s -> P (set_world (exec (call m) (world s)) s)) ->
  (forall generator s, P s -> P (snd (addArrows generator s))) ->
  (forall s, P s -> P (set_world (world s) s)) ->
  (forall s, P s -> Q (set_resize_listeners (S (resize_listeners s)) s)) ->
  triple P0 (initialize configuration) (fun _ => Q) (fun _ => P).
Proof.
  intros Slides Calls Arrows Same Last.
  assert (Call : forall m, In m (initialize_calls configuration) ->
            triple P (lift (call m)) (fun _ => P) (fun _ => P)).
  { intros m Int. apply triple_lift. intros s Ps. now apply Calls. }
  unfold initialize_calls in Call. unfold initialize.
  apply (triple_bind _ _ _ (fun _ => P)).
  { intros s Ps. specialize (Slides s Ps). rewrite initializeSlides_eq in *. exact Slides. }
  intros _. apply (triple_bind _ _ _ (fun _ => P)).
  { apply (Call (call_setFullWidthSlide _)). apply in_or_app. left. cbn. auto 10. }
  intros _. apply (triple_bind _ _ _ (fun _ => P)).
  { apply (Call (call_changeAnimation _)). apply in_or_app. left. cbn. auto 10. }
  intros _. apply (triple_bind _ _ _ (fun _ => P)).
  { apply triple_when. intros s Ps. specialize (Arrows (Configuration.arrowBuilder configuration) s Ps).
    rewrite addArrows_eq in *. exact Arrows. }
  intros _. apply (triple_bind _ _ _ (fun _ => P)).
  { apply triple_when. apply (Call call_addBullets). apply in_or_app. left. cbn. auto 10. }
  intros _. apply (triple_bind _ _ _ (fun _ => P)).
  { apply triple_lift. intros s Ps. now apply Same. }
  intros a. apply (triple_bind _ _ _ (fun _ => P)).
  { destruct (animation_is a slide).
    - apply triple_when. apply (Call call_enableDragging).
      apply in_or_app. left. cbn. auto 10.
    - destruct (Configuration.draggable configuration) as [[|]|].
      + intros s Ps. exact Ps.
      + apply triple_ret.
      + apply triple_ret. }
  intros _. apply (triple_bind _ _ _ (fun _ => P)).
  { destruct (Configuration.autoplayDelay configuration) as [delay|] eqn:Ad.
    - apply (Call (call_startAutoplay delay)). apply in_or_app. right. now left.
    - apply triple_ret. }
  intros _ s Ps. now apply Last.
Qed.








Lemma initialize_selectors (configuration : Configuration.t) (s : Site) :
  querySelectorAll (snd (initialize configuration s)) = querySelectorAll s.
Proof.
  pose proof (initialize_invariant
                (fun s0 => querySelectorAll s0 = querySelectorAll s)
                (fun s0 => querySelectorAll s0 = querySelectorAll s)
                (fun s0 => querySelectorAll s0 = querySelectorAll s) configuration) as T.
  assert (G : triple (fun s0 => querySelectorAll s0 = querySelectorAll s)
                (initialize configuration)
                (fun _ s0 => querySelectorAll s0 = querySelectorAll s)
                (fun _ s0 => querySelectorAll s0 = querySelectorAll s)).
  { apply T; clear T.
    - intros s0 E. rewrite initializeSlides_eq. exact E.
    - intros m s0 _ E. exact E.
    - intros g s0 E. rewrite addArrows_eq. exact E.
    - intros s0 E. exact E.
    - intros s0 E. exact E. }
  specialize (G s eq_refl). destruct (initialize configuration s) as [[[]|e] s1]; exact G.
Qed.

Lemma site_step_selectors (a : Action) (s : Site) :
  querySelectorAll (site_step s a) = querySelectorAll s.
Proof.
  destruct a as [i|configuration|generator|]; cbn [site_step].
  - destruct i; reflexivity.
  - apply initialize_selectors.
  - rewrite addArrows_eq. reflexivity.
  - rewrite removeArrows_eq. cbn [snd]. destruct (showArrows _); reflexivity.
Qed.


(** *** The active index along the life of the page *)








Lemma site_run_selectors (actions : list Action) :
  forall s, querySelectorAll (site_run actions s) = querySelectorAll s.
Proof.
  induction actions as [|a actions IH]; intros s; [reflexivity|].
  cbn [site_run fold_left]. fold (site_run actions (site_step s a)).
  now rewrite IH, site_step_selectors.
Qed.


(** *** How the public methods end *)












(** *** Listeners *)



(** *** The active index always names a slide *)



(** *** Failures *)



(** *** A touch whose identifier is the sentinel, in the life of the page *)







